(** * siren.fm: playback continuity of [src/app.js]

    A shallow embedding of the two controllers of [src/app.js]
    ([ScannerPlayer] and [AmbientPlayer]) and of the helper
    [shuffleIndices], followed by the properties proved about them.

    Both controllers are event driven: every listener of the source is a
    function from controller state to controller state, and a run of the
    page is a list of events folded over the initial state.  Whatever the
    code reads from outside itself (the clock, the state of the audio
    element, HTTP responses, the number of sounds in a playlist) is an
    argument of the event that reads it; the values of [Math.random] are
    a sequence given once for the whole run. *)

From Stdlib Require Import ZArith QArith Lia.
From stdpp Require Import base list strings gmap.

(** ** JavaScript numbers that hold an index or a time stamp

    Every number the code computes with is an integer or [NaN]
    ([x % 0], [new Date(garbage).getTime()]). *)

Inductive jsnum :=
  | Num (z : Z)
  | NaN.

Definition js_add (a : jsnum) (b : Z) : jsnum :=
  match a with
  | Num z => Num (z + b)
  | NaN => NaN
  end.

(** [a % n] for a length [n >= 0]: the remainder has the sign of the
    dividend, and the remainder by zero is [NaN]. *)
Definition js_mod (a : jsnum) (n : nat) : jsnum :=
  match a, n with
  | NaN, _ => NaN
  | Num _, O => NaN
  | Num z, S _ => Num (Z.rem z (Z.of_nat n))
  end.

(** [a === 0] *)
Definition js_is_zero (a : jsnum) : bool :=
  match a with
  | Num z => (z =? 0)%Z
  | NaN => false
  end.

(** [arr[a]]: [undefined] ([None]) outside the array. *)
Definition js_index {A} (arr : list A) (a : jsnum) : option A :=
  match a with
  | Num z => if (z <? 0)%Z then None else arr !! Z.to_nat z
  | NaN => None
  end.

(** ** [shuffleIndices]

    [Math.random()] lies in [0, 1), so [Math.floor(Math.random() * (i + 1))]
    is some index in [0 .. i] and every such index can come out.  The random
    source is a sequence [random] of naturals, one per call of
    [Math.random()], and the [k]-th call made with bound [i + 1] yields
    [random k mod (i + 1)]. *)

Section Shuffle.
Variable random : nat → nat.

Definition randomIndex (k bound : nat) : nat := random k `mod` bound.

(** [[indices[i], indices[j]] = [indices[j], indices[i]]]: both reads
    happen before both writes.  The loop only calls it with
    [j <= i < length indices] (lemma [shuffle_loop_reads_in_range]); out
    of range the model leaves the array alone. *)
Definition swap (indices : list nat) (i j : nat) : list nat :=
  match indices !! i, indices !! j with
  | Some a, Some b => <[j:=a]> (<[i:=b]> indices)
  | _, _ => indices
  end.

(** [for (let i = indices.length - 1; i > 0; i--)], with [k] the number of
    random values consumed so far. *)
Fixpoint shuffle_loop (i : nat) (indices : list nat) (k : nat) : list nat * nat :=
  match i with
  | O => (indices, k)
  | S i' =>
      let j := randomIndex k (i + 1) in
      shuffle_loop i' (swap indices i j) (S k)
  end.

Definition shuffleIndices (count : nat) (k : nat) : list nat * nat :=
  let indices := seq 0 count in
  shuffle_loop (length indices - 1) indices k.
End Shuffle.

(** ** [ScannerPlayer]

    The two [async] methods are cut at their [await]s.  [fetchCalls] is
    [fetchCalls_send] (up to [await fetch(apiUrl)], which leaves a request
    in flight) and [fetchCalls_resume] (from the response on; nothing of
    the controller is touched between the two [await]s of [fetchCalls]).
    [startOpenMHz] runs up to [await this.fetchCalls()] and installs its
    interval when that poll has been answered.  Events may come between
    the two halves.  The volume slider and the bars of the visualizer hold
    no state the properties below speak of and are left out. *)

Module ScannerPlayer.

Inductive feed_type :=
  | stream     (* direct Broadcastify CDN stream *)
  | openmhz.   (* OpenMHz call-based feed *)

Record feed := {
  city : string;
  state : string;
  desc : string;
  type : feed_type;
  system : option string;
  url : option string
}.

Definition SCANNER_FEEDS : list feed :=
  [ {| city := "Dallas"; state := "TX"; desc := "Police & Fire";
       type := openmhz; system := Some "ntirnd1"; url := None |};
    {| city := "San Francisco"; state := "CA"; desc := "Police";
       type := openmhz; system := Some "sfp25"; url := None |} ].

(** The [time] of a call as the code looks at it: [newest.time] is tested
    for truth and then parsed by [new Date(..).getTime()]. *)
Inductive timestamp :=
  | NoTime             (* absent or falsy *)
  | BadTime            (* present, but Date cannot parse it: getTime() is NaN *)
  | Time (ms : Z).     (* milliseconds since the epoch *)

(** A call of the OpenMHz API.  [None] in [call_url] and [filename] is an
    absent or empty (falsy) value; [len] is in seconds. *)
Record call := {
  call_url : option string;
  filename : option string;
  len : Q;
  time : timestamp
}.

(** How one [fetch] of [fetchCalls] ends.  [Json None] is a body without
    [calls]; bodies on which reading [data.calls] or calling [calls.filter]
    throws count with [NotJson]. *)
Inductive response :=
  | NetworkError
  | NotOk (status : nat)
  | NotJson
  | Json (calls : option (list call)).

(** A [fetch] in flight: the query of its URL, and whether the
    [fetchCalls] that issued it is the one [startOpenMHz] awaits. *)
Record request := {
  req_system : option string;
  req_time : jsnum;
  awaited : bool
}.

Inductive audio_cmd :=
  | APause
  | ALoad
  | APlay.

Record scanner := {
  isPlaying : bool;
  currentFeed : option feed;
  callQueue : list call;
  pollTimer : option positive;
  lastCallTime : option jsnum;
  audio_src : option string;       (* the src attribute of the audio element *)
  audio_log : list audio_cmd;      (* pause(), load(), play() calls, oldest first *)
  playBtn_disabled : bool;
  playBtn_playing : bool;          (* class 'playing' of the play button *)
  panel_active : bool;             (* class 'active' of the panel *)
  liveBadge_hidden : bool;         (* class 'hidden' of the live badge *)
  viz_active : bool;               (* class 'active' of the bars *)
  status_text : string;
  intervals : gset positive;       (* handles of the intervals that are running *)
  fresh : positive;                (* the handle the next setInterval returns *)
  inflight : list request;         (* fetches not yet settled, oldest first *)
  playPromises : nat;              (* play() promises of playNextCall not yet settled *)
  retryTimeouts : nat              (* pending setTimeout(playNextCall, 300) *)
}.

Definition set_isPlaying (v : bool) (s : scanner) : scanner :=
  {| isPlaying := v; currentFeed := currentFeed s; callQueue := callQueue s; pollTimer
     := pollTimer s; lastCallTime := lastCallTime s; audio_src := audio_src s;
     audio_log := audio_log s; playBtn_disabled := playBtn_disabled s; playBtn_playing
     := playBtn_playing s; panel_active := panel_active s; liveBadge_hidden :=
     liveBadge_hidden s; viz_active := viz_active s; status_text := status_text s;
     intervals := intervals s; fresh := fresh s; inflight := inflight s; playPromises
     := playPromises s; retryTimeouts := retryTimeouts s |}.
Definition set_currentFeed (v : option feed) (s : scanner) : scanner :=
  {| isPlaying := isPlaying s; currentFeed := v; callQueue := callQueue s; pollTimer
     := pollTimer s; lastCallTime := lastCallTime s; audio_src := audio_src s;
     audio_log := audio_log s; playBtn_disabled := playBtn_disabled s; playBtn_playing
     := playBtn_playing s; panel_active := panel_active s; liveBadge_hidden :=
     liveBadge_hidden s; viz_active := viz_active s; status_text := status_text s;
     intervals := intervals s; fresh := fresh s; inflight := inflight s; playPromises
     := playPromises s; retryTimeouts := retryTimeouts s |}.
Definition set_callQueue (v : list call) (s : scanner) : scanner :=
  {| isPlaying := isPlaying s; currentFeed := currentFeed s; callQueue := v; pollTimer
     := pollTimer s; lastCallTime := lastCallTime s; audio_src := audio_src s;
     audio_log := audio_log s; playBtn_disabled := playBtn_disabled s; playBtn_playing
     := playBtn_playing s; panel_active := panel_active s; liveBadge_hidden :=
     liveBadge_hidden s; viz_active := viz_active s; status_text := status_text s;
     intervals := intervals s; fresh := fresh s; inflight := inflight s; playPromises
     := playPromises s; retryTimeouts := retryTimeouts s |}.
Definition set_pollTimer (v : option positive) (s : scanner) : scanner :=
  {| isPlaying := isPlaying s; currentFeed := currentFeed s; callQueue := callQueue s;
     pollTimer := v; lastCallTime := lastCallTime s; audio_src := audio_src s;
     audio_log := audio_log s; playBtn_disabled := playBtn_disabled s; playBtn_playing
     := playBtn_playing s; panel_active := panel_active s; liveBadge_hidden :=
     liveBadge_hidden s; viz_active := viz_active s; status_text := status_text s;
     intervals := intervals s; fresh := fresh s; inflight := inflight s; playPromises
     := playPromises s; retryTimeouts := retryTimeouts s |}.
Definition set_lastCallTime (v : option jsnum) (s : scanner) : scanner :=
  {| isPlaying := isPlaying s; currentFeed := currentFeed s; callQueue := callQueue s;
     pollTimer := pollTimer s; lastCallTime := v; audio_src := audio_src s; audio_log
     := audio_log s; playBtn_disabled := playBtn_disabled s; playBtn_playing :=
     playBtn_playing s; panel_active := panel_active s; liveBadge_hidden :=
     liveBadge_hidden s; viz_active := viz_active s; status_text := status_text s;
     intervals := intervals s; fresh := fresh s; inflight := inflight s; playPromises
     := playPromises s; retryTimeouts := retryTimeouts s |}.
Definition set_audio_src (v : option string) (s : scanner) : scanner :=
  {| isPlaying := isPlaying s; currentFeed := currentFeed s; callQueue := callQueue s;
     pollTimer := pollTimer s; lastCallTime := lastCallTime s; audio_src := v;
     audio_log := audio_log s; playBtn_disabled := playBtn_disabled s; playBtn_playing
     := playBtn_playing s; panel_active := panel_active s; liveBadge_hidden :=
     liveBadge_hidden s; viz_active := viz_active s; status_text := status_text s;
     intervals := intervals s; fresh := fresh s; inflight := inflight s; playPromises
     := playPromises s; retryTimeouts := retryTimeouts s |}.
Definition set_audio_log (v : list audio_cmd) (s : scanner) : scanner :=
  {| isPlaying := isPlaying s; currentFeed := currentFeed s; callQueue := callQueue s;
     pollTimer := pollTimer s; lastCallTime := lastCallTime s; audio_src := audio_src
     s; audio_log := v; playBtn_disabled := playBtn_disabled s; playBtn_playing :=
     playBtn_playing s; panel_active := panel_active s; liveBadge_hidden :=
     liveBadge_hidden s; viz_active := viz_active s; status_text := status_text s;
     intervals := intervals s; fresh := fresh s; inflight := inflight s; playPromises
     := playPromises s; retryTimeouts := retryTimeouts s |}.
Definition set_playBtn_disabled (v : bool) (s : scanner) : scanner :=
  {| isPlaying := isPlaying s; currentFeed := currentFeed s; callQueue := callQueue s;
     pollTimer := pollTimer s; lastCallTime := lastCallTime s; audio_src := audio_src
     s; audio_log := audio_log s; playBtn_disabled := v; playBtn_playing :=
     playBtn_playing s; panel_active := panel_active s; liveBadge_hidden :=
     liveBadge_hidden s; viz_active := viz_active s; status_text := status_text s;
     intervals := intervals s; fresh := fresh s; inflight := inflight s; playPromises
     := playPromises s; retryTimeouts := retryTimeouts s |}.
Definition set_playBtn_playing (v : bool) (s : scanner) : scanner :=
  {| isPlaying := isPlaying s; currentFeed := currentFeed s; callQueue := callQueue s;
     pollTimer := pollTimer s; lastCallTime := lastCallTime s; audio_src := audio_src
     s; audio_log := audio_log s; playBtn_disabled := playBtn_disabled s;
     playBtn_playing := v; panel_active := panel_active s; liveBadge_hidden :=
     liveBadge_hidden s; viz_active := viz_active s; status_text := status_text s;
     intervals := intervals s; fresh := fresh s; inflight := inflight s; playPromises
     := playPromises s; retryTimeouts := retryTimeouts s |}.
Definition set_panel_active (v : bool) (s : scanner) : scanner :=
  {| isPlaying := isPlaying s; currentFeed := currentFeed s; callQueue := callQueue s;
     pollTimer := pollTimer s; lastCallTime := lastCallTime s; audio_src := audio_src
     s; audio_log := audio_log s; playBtn_disabled := playBtn_disabled s;
     playBtn_playing := playBtn_playing s; panel_active := v; liveBadge_hidden :=
     liveBadge_hidden s; viz_active := viz_active s; status_text := status_text s;
     intervals := intervals s; fresh := fresh s; inflight := inflight s; playPromises
     := playPromises s; retryTimeouts := retryTimeouts s |}.
Definition set_liveBadge_hidden (v : bool) (s : scanner) : scanner :=
  {| isPlaying := isPlaying s; currentFeed := currentFeed s; callQueue := callQueue s;
     pollTimer := pollTimer s; lastCallTime := lastCallTime s; audio_src := audio_src
     s; audio_log := audio_log s; playBtn_disabled := playBtn_disabled s;
     playBtn_playing := playBtn_playing s; panel_active := panel_active s;
     liveBadge_hidden := v; viz_active := viz_active s; status_text := status_text s;
     intervals := intervals s; fresh := fresh s; inflight := inflight s; playPromises
     := playPromises s; retryTimeouts := retryTimeouts s |}.
Definition set_viz_active (v : bool) (s : scanner) : scanner :=
  {| isPlaying := isPlaying s; currentFeed := currentFeed s; callQueue := callQueue s;
     pollTimer := pollTimer s; lastCallTime := lastCallTime s; audio_src := audio_src
     s; audio_log := audio_log s; playBtn_disabled := playBtn_disabled s;
     playBtn_playing := playBtn_playing s; panel_active := panel_active s;
     liveBadge_hidden := liveBadge_hidden s; viz_active := v; status_text :=
     status_text s; intervals := intervals s; fresh := fresh s; inflight := inflight
     s; playPromises := playPromises s; retryTimeouts := retryTimeouts s |}.
Definition set_status_text (v : string) (s : scanner) : scanner :=
  {| isPlaying := isPlaying s; currentFeed := currentFeed s; callQueue := callQueue s;
     pollTimer := pollTimer s; lastCallTime := lastCallTime s; audio_src := audio_src
     s; audio_log := audio_log s; playBtn_disabled := playBtn_disabled s;
     playBtn_playing := playBtn_playing s; panel_active := panel_active s;
     liveBadge_hidden := liveBadge_hidden s; viz_active := viz_active s; status_text
     := v; intervals := intervals s; fresh := fresh s; inflight := inflight s;
     playPromises := playPromises s; retryTimeouts := retryTimeouts s |}.
Definition set_intervals (v : gset positive) (s : scanner) : scanner :=
  {| isPlaying := isPlaying s; currentFeed := currentFeed s; callQueue := callQueue s;
     pollTimer := pollTimer s; lastCallTime := lastCallTime s; audio_src := audio_src
     s; audio_log := audio_log s; playBtn_disabled := playBtn_disabled s;
     playBtn_playing := playBtn_playing s; panel_active := panel_active s;
     liveBadge_hidden := liveBadge_hidden s; viz_active := viz_active s; status_text
     := status_text s; intervals := v; fresh := fresh s; inflight := inflight s;
     playPromises := playPromises s; retryTimeouts := retryTimeouts s |}.
Definition set_fresh (v : positive) (s : scanner) : scanner :=
  {| isPlaying := isPlaying s; currentFeed := currentFeed s; callQueue := callQueue s;
     pollTimer := pollTimer s; lastCallTime := lastCallTime s; audio_src := audio_src
     s; audio_log := audio_log s; playBtn_disabled := playBtn_disabled s;
     playBtn_playing := playBtn_playing s; panel_active := panel_active s;
     liveBadge_hidden := liveBadge_hidden s; viz_active := viz_active s; status_text
     := status_text s; intervals := intervals s; fresh := v; inflight := inflight s;
     playPromises := playPromises s; retryTimeouts := retryTimeouts s |}.
Definition set_inflight (v : list request) (s : scanner) : scanner :=
  {| isPlaying := isPlaying s; currentFeed := currentFeed s; callQueue := callQueue s;
     pollTimer := pollTimer s; lastCallTime := lastCallTime s; audio_src := audio_src
     s; audio_log := audio_log s; playBtn_disabled := playBtn_disabled s;
     playBtn_playing := playBtn_playing s; panel_active := panel_active s;
     liveBadge_hidden := liveBadge_hidden s; viz_active := viz_active s; status_text
     := status_text s; intervals := intervals s; fresh := fresh s; inflight := v;
     playPromises := playPromises s; retryTimeouts := retryTimeouts s |}.
Definition set_playPromises (v : nat) (s : scanner) : scanner :=
  {| isPlaying := isPlaying s; currentFeed := currentFeed s; callQueue := callQueue s;
     pollTimer := pollTimer s; lastCallTime := lastCallTime s; audio_src := audio_src
     s; audio_log := audio_log s; playBtn_disabled := playBtn_disabled s;
     playBtn_playing := playBtn_playing s; panel_active := panel_active s;
     liveBadge_hidden := liveBadge_hidden s; viz_active := viz_active s; status_text
     := status_text s; intervals := intervals s; fresh := fresh s; inflight :=
     inflight s; playPromises := v; retryTimeouts := retryTimeouts s |}.
Definition set_retryTimeouts (v : nat) (s : scanner) : scanner :=
  {| isPlaying := isPlaying s; currentFeed := currentFeed s; callQueue := callQueue s;
     pollTimer := pollTimer s; lastCallTime := lastCallTime s; audio_src := audio_src
     s; audio_log := audio_log s; playBtn_disabled := playBtn_disabled s;
     playBtn_playing := playBtn_playing s; panel_active := panel_active s;
     liveBadge_hidden := liveBadge_hidden s; viz_active := viz_active s; status_text
     := status_text s; intervals := intervals s; fresh := fresh s; inflight :=
     inflight s; playPromises := playPromises s; retryTimeouts := v |}.


(** The part of the page the constructor finds; the bars are created
    without the class 'active'. *)
Record page := {
  page_playBtn_disabled : bool;
  page_playBtn_playing : bool;
  page_panel_active : bool;
  page_liveBadge_hidden : bool;
  page_status_text : string
}.

Definition constructor (p : page) : scanner :=
  {| isPlaying := false; currentFeed := None; callQueue := []; pollTimer := None;
     lastCallTime := None; audio_src := None; audio_log := [];
     playBtn_disabled := page_playBtn_disabled p;
     playBtn_playing := page_playBtn_playing p;
     panel_active := page_panel_active p;
     liveBadge_hidden := page_liveBadge_hidden p;
     viz_active := false; status_text := page_status_text p;
     intervals := ∅; fresh := 1%positive; inflight := [];
     playPromises := 0; retryTimeouts := 0 |}.

(** A handler either returns or throws; either way the controller keeps
    the state it has reached. *)
Inductive completion :=
  | Normal (s : scanner)
  | Thrown (s : scanner).

Definition state_of (c : completion) : scanner :=
  match c with
  | Normal s => s
  | Thrown s => s
  end.

Definition setStatus (text : string) (s : scanner) : scanner :=
  set_status_text text s.

Definition audio (c : audio_cmd) (s : scanner) : scanner :=
  set_audio_log (audio_log s ++ [c]) s.

(** Badge shown, panel active, bars active: the 'playing' listener. *)
Definition activate (s : scanner) : scanner :=
  set_viz_active true (set_panel_active true (set_liveBadge_hidden false s)).

(** Panel inactive, badge hidden, bars inactive: the 'pause' listener. *)
Definition deactivate (s : scanner) : scanner :=
  set_viz_active false (set_liveBadge_hidden true (set_panel_active false s)).

Definition is_openmhz (s : scanner) : bool :=
  match currentFeed s with
  | Some f => match type f with openmhz => true | stream => false end
  | None => false
  end.

(** [this.pollTimer = setInterval(() => this.fetchCalls(), 8000)] *)
Definition setInterval (s : scanner) : scanner :=
  let h := fresh s in
  set_pollTimer (Some h) (set_fresh (Pos.succ h) (set_intervals ({[h]} ∪ intervals s) s)).

Definition clearInterval (h : positive) (s : scanner) : scanner :=
  set_intervals (intervals s ∖ {[h]}) s.

Definition stopOpenMHz (s : scanner) : scanner :=
  let s :=
    match pollTimer s with
    | Some h => set_pollTimer None (clearInterval h s)
    | None => s
    end in
  set_callQueue [] s.

Definition resetAudio (s : scanner) : scanner :=
  audio ALoad (set_audio_src None (audio APause (stopOpenMHz s))).

(** [call.url || call.filename] *)
Definition audioUrl (c : call) : option string :=
  match call_url c with
  | Some u => Some u
  | None => filename c
  end.

(** [playNextCall], by recursion on the queue it shifts. *)
Fixpoint playNextCall_from (queue : list call) (s : scanner) : completion :=
  match queue with
  | [] => Normal (setStatus "Listening for calls..." (set_callQueue [] s))
  | c :: rest =>
      match audioUrl c with
      | None => playNextCall_from rest s
      | Some audioUrl =>
          let s := set_callQueue rest s in
          match currentFeed s with
          | None => Thrown s
          | Some f =>
              let s := setStatus (desc f) s in
              let s := set_audio_src (Some audioUrl) s in
              let s := audio APlay (audio ALoad s) in
              Normal (set_playPromises (S (playPromises s)) s)
          end
      end
  end.

Definition playNextCall (s : scanner) : completion :=
  playNextCall_from (callQueue s) s.

(** [Math.floor(this.lastCallTime)]; [Math.floor(null)] is 0. *)
Definition timeParam (s : scanner) : jsnum :=
  match lastCallTime s with
  | Some t => t
  | None => Num 0
  end.

(** [fetchCalls] up to [await fetch(apiUrl)].  When it returns at once and
    [startOpenMHz] awaits it, [startOpenMHz] goes on to install the
    interval before any other event is handled. *)
Definition fetchCalls_send (from_start : bool) (s : scanner) : scanner :=
  match currentFeed s with
  | Some f =>
      match type f with
      | openmhz =>
          let rq := {| req_system := system f; req_time := timeParam s;
                       awaited := from_start |} in
          set_inflight (inflight s ++ [rq]) s
      | stream => if from_start then setInterval s else s
      end
  | None => if from_start then setInterval s else s
  end.

(** [c.len > 1] *)
Definition longer_than_1 (c : call) : bool :=
  match (len c ?= 1)%Q with
  | Gt => true
  | _ => false
  end.

(** The body of [if (calls.length > 0)]: queue the calls that are long
    enough, move the watermark past the last call of the array. *)
Definition store (calls : list call) (s : scanner) : scanner :=
  match last calls with
  | None => s
  | Some newest =>
      let newCalls := List.filter longer_than_1 calls in
      let s := set_callQueue (callQueue s ++ newCalls) s in
      match time newest with
      | NoTime => s
      | BadTime => set_lastCallTime (Some NaN) s
      | Time ms => set_lastCallTime (Some (Num (ms + 1))) s
      end
  end.

(** [fetchCalls] after its [await]s, for the response [r].  [paused] and
    [ended] are what the audio element reports when the code looks, and
    [paused_then] what it reports after [playNextCall] has run. *)
Definition fetchCalls_resume (r : response) (paused ended paused_then : bool)
    (s : scanner) : scanner :=
  match r with
  | NetworkError | NotOk _ | NotJson => setStatus "Listening for calls..." s
  | Json data_calls =>
      let calls := default [] data_calls in
      let s := store calls s in
      if isPlaying s && (paused || ended) then
        match playNextCall s with
        | Thrown s => setStatus "Listening for calls..." s
        | Normal s =>
            if (length (callQueue s) =? 0) && paused_then
            then setStatus "Listening for calls..." s else s
        end
      else
        if (length (callQueue s) =? 0) && paused
        then setStatus "Listening for calls..." s else s
  end.

(** [startOpenMHz] up to [await this.fetchCalls()]; what follows the
    [await] is [setInterval]. *)
Definition startOpenMHz (now : Z) (s : scanner) : scanner :=
  let s := set_callQueue [] s in
  let s := set_lastCallTime (Some (Num (now - 120000))) s in
  let s := setStatus "Connecting..." s in
  let s := activate s in
  fetchCalls_send true s.

(** [this.audio.src = this.currentFeed.url] *)
Definition stream_src (f : feed) : option string :=
  Some (default "undefined" (url f)).

Definition onFeedChange (feeds : list feed) (idx : nat) (now : Z) (s : scanner)
    : completion :=
  let s := resetAudio s in
  let s := set_currentFeed (feeds !! idx) s in
  let s := set_playBtn_disabled false s in
  match currentFeed s with
  | None => Thrown s
  | Some f =>
      let s := setStatus (desc f) s in
      let s :=
        match type f with
        | openmhz => startOpenMHz now s
        | stream => audio APlay (audio ALoad (set_audio_src (stream_src f) s))
        end in
      Normal (set_playBtn_playing true (set_isPlaying true s))
  end.

Definition togglePlay (now : Z) (s : scanner) : scanner :=
  match currentFeed s with
  | None => s
  | Some f =>
      if isPlaying s then
        let s := match type f with openmhz => stopOpenMHz s | stream => s end in
        let s := audio APause s in
        let s := set_playBtn_playing false (set_isPlaying false s) in
        deactivate s
      else
        let s := set_playBtn_playing true (set_isPlaying true s) in
        match type f with
        | openmhz => startOpenMHz now s
        | stream =>
            let s := audio ALoad (set_audio_src None s) in
            audio APlay (audio ALoad (set_audio_src (stream_src f) s))
        end
  end.

(** The listeners of the audio element. *)
Definition onPlaying (s : scanner) : scanner := activate s.

Definition onWaiting (s : scanner) : scanner := setStatus "Buffering..." s.

Definition onError (s : scanner) : completion :=
  if is_openmhz s then playNextCall s else
  let s := setStatus "Stream unavailable — try another city" s in
  let s := set_viz_active false (set_panel_active false (set_liveBadge_hidden true s)) in
  Normal (set_playBtn_playing false (set_isPlaying false s)).

Definition onPause (s : scanner) : scanner :=
  if is_openmhz s && isPlaying s then s else deactivate s.

Definition onEnded (s : scanner) : completion :=
  if is_openmhz s && isPlaying s then playNextCall s else Normal s.

(** What can happen to the controller.  [FeedChange idx now] is a change
    of the select whose value parses to [idx], at time [now]; an [idx]
    outside [SCANNER_FEEDS] stands for every value that names no feed. *)
Inductive event :=
  | FeedChange (idx : nat) (now : Z)
  | PlayClick (now : Z)
  | AudioPlaying
  | AudioWaiting
  | AudioError
  | AudioPause
  | AudioEnded
  | PollTick (h : positive)             (* the interval h fires *)
  | FetchSettled (i : nat) (r : response) (paused ended paused_then : bool)
  | PlaySettled (fulfilled : bool)      (* a play() promise of playNextCall *)
  | RetryTimeout.

Definition handle (feeds : list feed) (e : event) (s : scanner) : scanner :=
  match e with
  | FeedChange idx now => state_of (onFeedChange feeds idx now s)
  | PlayClick now => togglePlay now s
  | AudioPlaying => onPlaying s
  | AudioWaiting => onWaiting s
  | AudioError => state_of (onError s)
  | AudioPause => onPause s
  | AudioEnded => state_of (onEnded s)
  | PollTick h => if decide (h ∈ intervals s) then fetchCalls_send false s else s
  | FetchSettled i r paused ended paused_then =>
      match inflight s !! i with
      | Some rq =>
          let s := set_inflight (delete i (inflight s)) s in
          let s := fetchCalls_resume r paused ended paused_then s in
          if awaited rq then setInterval s else s
      | None => s
      end
  | PlaySettled fulfilled =>
      match playPromises s with
      | O => s
      | S n =>
          let s := set_playPromises n s in
          if fulfilled then s else set_retryTimeouts (S (retryTimeouts s)) s
      end
  | RetryTimeout =>
      match retryTimeouts s with
      | O => s
      | S n => state_of (playNextCall (set_retryTimeouts n s))
      end
  end.

Definition run (feeds : list feed) (es : list event) (s : scanner) : scanner :=
  fold_left (λ s e, handle feeds e s) es s.

(** The visible live state: class 'active' of the panel, class 'hidden' of
    the badge, class 'active' of the bars. *)
Definition ui_state (s : scanner) : bool * bool * bool :=
  (panel_active s, liveBadge_hidden s, viz_active s).

Definition ui_on : bool * bool * bool := (true, false, true).
Definition ui_off : bool * bool * bool := (false, true, false).


(** The calls a response brings: [data.calls || []], none on failure. *)
Definition calls_of (r : response) : list call :=
  match r with
  | Json data_calls => default [] data_calls
  | _ => []
  end.

(** The three ways a poll fails before it reaches the calls. *)
Definition failed (r : response) : bool :=
  match r with
  | Json _ => false
  | _ => true
  end.

(** The time stamp of the newest call of a batch: the largest one. *)
Definition newest_time (calls : list call) : option Z :=
  foldr (λ c acc,
           match time c, acc with
           | Time ms, Some m => Some (Z.max ms m)
           | Time ms, None => Some ms
           | _, _ => acc
           end) None calls.

(** A poll sends [time=timeParam] and is answered with the calls that are
    newer; [asked_again s c] says that the call [c] is not older than the
    time the next poll from [s] sends, so that the API returns it. *)
Definition asked_again (s : scanner) (c : call) : bool :=
  match timeParam s, time c with
  | Num t, Time ms => (t <=? ms)%Z
  | _, _ => false
  end.

(** The array is in ascending order of time: no call is later than the
    last one. *)
Definition ends_with_newest (calls : list call) (T : Z) : Prop :=
  (∃ newest, last calls = Some newest ∧ time newest = Time T) ∧
  ∀ c ms, c ∈ calls → time c = Time ms → (ms ≤ T)%Z.



(** The events that touch neither the feed, nor the playback intent, nor
    the live state. *)
Definition quiet (e : event) : bool :=
  match e with
  | AudioWaiting | AudioEnded | PollTick _ | FetchSettled _ _ _ _ _
  | PlaySettled _ | RetryTimeout => true
  | _ => false
  end.

(** The events that can turn the live state on while no call-queue feed
    is selected: 'playing', and the selection of a call-queue feed. *)
Definition activates (feeds : list feed) (e : event) : bool :=
  match e with
  | AudioPlaying => true
  | FeedChange idx _ =>
      match feeds !! idx with
      | Some f => match type f with openmhz => true | stream => false end
      | None => false
      end
  | _ => false
  end.

(** A direct stream, the other kind of feed the table may hold. *)
Definition a_stream_feed : feed :=
  {| city := "Chicago"; state := "IL"; desc := "Police"; type := stream;
     system := None; url := Some "https://broadcastify.cdnstream1.com/1" |}.

(** A call of [seconds] seconds with an audio file. *)
Definition a_call (seconds : Q) (t : timestamp) : call :=
  {| call_url := Some "https://media.openmhz.com/call.m4a"; filename := None;
     len := seconds; time := t |}.

(** A page to run examples on: nothing selected, nothing live. *)
Definition idle_page : page :=
  {| page_playBtn_disabled := true; page_playBtn_playing := false;
     page_panel_active := false; page_liveBadge_hidden := true;
     page_status_text := "Select a city" |}.

(** ** More of [ScannerPlayer] *)

(** [populateFeeds]: the options appended to the feed select, each with
    its [value] (the index, which [onFeedChange] parses back) and its
    text. *)
Definition populateFeeds (feeds : list feed) : list (nat * string) :=
  imap (λ i f, (i, city f +:+ ", " +:+ state f)) feeds.

(** The calls of [startOpenMHz] that are suspended at
    [await this.fetchCalls()]: each installs an interval when resumed. *)
Definition awaiting (s : scanner) : nat :=
  length (List.filter awaited (inflight s)).

(** The interval [clearInterval(this.pollTimer)] can reach. *)
Definition remembered (s : scanner) : gset positive :=
  from_option singleton ∅ (pollTimer s).

(** Handles are handed out in increasing order, and [pollTimer] holds the
    handle of an interval that runs. *)
Definition timers_ok (s : scanner) : Prop :=
  (∀ h, h ∈ intervals s → (h < fresh s)%positive) ∧
  (∀ h, pollTimer s = Some h → h ∈ intervals s).

(** The events the user causes: a selection or a click on the play
    button. *)
Definition acts (e : event) : bool :=
  match e with
  | FeedChange _ _ | PlayClick _ => true
  | _ => false
  end.

(** A run in which the user selects and clicks only while no
    [startOpenMHz] is suspended at its [await]. *)
Fixpoint calm (feeds : list feed) (es : list event) (s : scanner) : Prop :=
  match es with
  | [] => True
  | e :: es => (acts e = true → awaiting s = 0) ∧ calm feeds es (handle feeds e s)
  end.

Definition one_poller (s : scanner) : Prop :=
  intervals s ⊆ remembered s ∧
  awaiting s ≤ 1 ∧
  (awaiting s = 1 → intervals s = ∅) ∧
  (is_openmhz s && isPlaying s = false → intervals s = ∅ ∧ awaiting s = 0).

(** The handler ended at the only exception the model has: the TypeError
    of reading a property of [this.currentFeed] while it is undefined.
    Limits of the engine (the depth of the stack, the number of arguments
    of a call) are not modelled. *)
Definition is_thrown (c : completion) : bool :=
  match c with
  | Thrown _ => true
  | Normal _ => false
  end.

(** A selection of one of the options of [populateFeeds]. *)
Definition selects_listed (feeds : list feed) (e : event) : Prop :=
  match e with
  | FeedChange idx _ => idx < length feeds
  | _ => True
  end.

(** Calls are queued and requests are in flight only while a feed is
    selected. *)
Definition nothing_pending_without_feed (s : scanner) : Prop :=
  currentFeed s = None → callQueue s = [] ∧ inflight s = [].

(** [call.url || call.filename] is truthy. *)
Definition audible (c : call) : bool :=
  match audioUrl c with
  | Some _ => true
  | None => false
  end.

(** [k] calls of [playNextCall] in a row. *)
Definition playNextCalls (k : nat) (s : scanner) : scanner :=
  Nat.iter k (λ s, state_of (playNextCall s)) s.

End ScannerPlayer.

(** ** [AmbientPlayer]

    The widget lives in an iframe: the controller sends it commands
    ([sent]) and hears from it through the events below.  The texts of the
    title, the artist and the mode label, and the value of the volume, are
    left out. *)

Module AmbientPlayer.

(** The playlists of the three modes of the page.  For these,
    [MODE_PLAYLISTS !! mode] is [MODE_PLAYLISTS[mode]]; for any other
    string it is [None], which stands for whatever the lookup of the
    source finds there ([undefined], or a property every object
    inherits). *)
Definition MODE_PLAYLISTS : gmap string string :=
  list_to_map
    [ ("ambient", "https://soundcloud.com/apple_fish/sets/deep-space-ambient");
      ("synthwave", "https://soundcloud.com/chinosynth/sets/chino-synthwave-selection");
      ("zen", "https://soundcloud.com/naklea/sets/deep-ambient-zen-garden") ].

(** Commands sent to the SoundCloud widget; [Skip None] is [skip(undefined)]. *)
Inductive widget_cmd :=
  | Skip (target : option nat)
  | Play
  | Pause
  | SetVolume
  | Load (playlist : option string) (auto_play : bool)
  | GetSounds
  | GetCurrentSound.

(** The bodies handed to [setTimeout]. *)
Inductive deferred :=
  | InitWidgetAgain      (* initWidget, 200 ms *)
  | LoadedPlaySettle     (* onPlaylistLoaded, playing, 400 ms *)
  | LoadedPlayAgain      (* onPlaylistLoaded, playing, 1000 ms *)
  | LoadedSettle         (* onPlaylistLoaded, not playing, 800 ms *)
  | SkipSettle           (* next / prev, 500 ms *)
  | ErrorSkip.           (* ERROR listener, 1500 ms *)

Record ambient := {
  currentMode : string;
  isPlaying : bool;
  hasBeenPlayed : bool;
  switching : bool;
  widget : bool;               (* this.widget is not null *)
  ready : bool;
  widgetInitialized : bool;
  shuffledOrder : list nat;
  shufflePos : jsnum;
  trackCount : nat;
  playBtn_playing : bool;      (* class 'playing' of the play button *)
  panel_active : bool;         (* class 'active' of the panel *)
  viz_active : bool;           (* class 'active' of the bars *)
  draws : nat;                 (* values of Math.random() consumed *)
  sent : list widget_cmd;      (* widget commands, oldest first *)
  timeouts : list deferred;    (* pending setTimeout bodies *)
  loads : list bool            (* pending widget.load callbacks: their shouldPlay *)
}.

Definition set_currentMode (v : string) (s : ambient) : ambient :=
  {| currentMode := v; isPlaying := isPlaying s; hasBeenPlayed := hasBeenPlayed s;
     switching := switching s; widget := widget s; ready := ready s; widgetInitialized
     := widgetInitialized s; shuffledOrder := shuffledOrder s; shufflePos :=
     shufflePos s; trackCount := trackCount s; playBtn_playing := playBtn_playing s;
     panel_active := panel_active s; viz_active := viz_active s; draws := draws s;
     sent := sent s; timeouts := timeouts s; loads := loads s |}.
Definition set_isPlaying (v : bool) (s : ambient) : ambient :=
  {| currentMode := currentMode s; isPlaying := v; hasBeenPlayed := hasBeenPlayed s;
     switching := switching s; widget := widget s; ready := ready s; widgetInitialized
     := widgetInitialized s; shuffledOrder := shuffledOrder s; shufflePos :=
     shufflePos s; trackCount := trackCount s; playBtn_playing := playBtn_playing s;
     panel_active := panel_active s; viz_active := viz_active s; draws := draws s;
     sent := sent s; timeouts := timeouts s; loads := loads s |}.
Definition set_hasBeenPlayed (v : bool) (s : ambient) : ambient :=
  {| currentMode := currentMode s; isPlaying := isPlaying s; hasBeenPlayed := v;
     switching := switching s; widget := widget s; ready := ready s; widgetInitialized
     := widgetInitialized s; shuffledOrder := shuffledOrder s; shufflePos :=
     shufflePos s; trackCount := trackCount s; playBtn_playing := playBtn_playing s;
     panel_active := panel_active s; viz_active := viz_active s; draws := draws s;
     sent := sent s; timeouts := timeouts s; loads := loads s |}.
Definition set_switching (v : bool) (s : ambient) : ambient :=
  {| currentMode := currentMode s; isPlaying := isPlaying s; hasBeenPlayed :=
     hasBeenPlayed s; switching := v; widget := widget s; ready := ready s;
     widgetInitialized := widgetInitialized s; shuffledOrder := shuffledOrder s;
     shufflePos := shufflePos s; trackCount := trackCount s; playBtn_playing :=
     playBtn_playing s; panel_active := panel_active s; viz_active := viz_active s;
     draws := draws s; sent := sent s; timeouts := timeouts s; loads := loads s |}.
Definition set_widget (v : bool) (s : ambient) : ambient :=
  {| currentMode := currentMode s; isPlaying := isPlaying s; hasBeenPlayed :=
     hasBeenPlayed s; switching := switching s; widget := v; ready := ready s;
     widgetInitialized := widgetInitialized s; shuffledOrder := shuffledOrder s;
     shufflePos := shufflePos s; trackCount := trackCount s; playBtn_playing :=
     playBtn_playing s; panel_active := panel_active s; viz_active := viz_active s;
     draws := draws s; sent := sent s; timeouts := timeouts s; loads := loads s |}.
Definition set_ready (v : bool) (s : ambient) : ambient :=
  {| currentMode := currentMode s; isPlaying := isPlaying s; hasBeenPlayed :=
     hasBeenPlayed s; switching := switching s; widget := widget s; ready := v;
     widgetInitialized := widgetInitialized s; shuffledOrder := shuffledOrder s;
     shufflePos := shufflePos s; trackCount := trackCount s; playBtn_playing :=
     playBtn_playing s; panel_active := panel_active s; viz_active := viz_active s;
     draws := draws s; sent := sent s; timeouts := timeouts s; loads := loads s |}.
Definition set_widgetInitialized (v : bool) (s : ambient) : ambient :=
  {| currentMode := currentMode s; isPlaying := isPlaying s; hasBeenPlayed :=
     hasBeenPlayed s; switching := switching s; widget := widget s; ready := ready s;
     widgetInitialized := v; shuffledOrder := shuffledOrder s; shufflePos :=
     shufflePos s; trackCount := trackCount s; playBtn_playing := playBtn_playing s;
     panel_active := panel_active s; viz_active := viz_active s; draws := draws s;
     sent := sent s; timeouts := timeouts s; loads := loads s |}.
Definition set_shuffledOrder (v : list nat) (s : ambient) : ambient :=
  {| currentMode := currentMode s; isPlaying := isPlaying s; hasBeenPlayed :=
     hasBeenPlayed s; switching := switching s; widget := widget s; ready := ready s;
     widgetInitialized := widgetInitialized s; shuffledOrder := v; shufflePos :=
     shufflePos s; trackCount := trackCount s; playBtn_playing := playBtn_playing s;
     panel_active := panel_active s; viz_active := viz_active s; draws := draws s;
     sent := sent s; timeouts := timeouts s; loads := loads s |}.
Definition set_shufflePos (v : jsnum) (s : ambient) : ambient :=
  {| currentMode := currentMode s; isPlaying := isPlaying s; hasBeenPlayed :=
     hasBeenPlayed s; switching := switching s; widget := widget s; ready := ready s;
     widgetInitialized := widgetInitialized s; shuffledOrder := shuffledOrder s;
     shufflePos := v; trackCount := trackCount s; playBtn_playing := playBtn_playing
     s; panel_active := panel_active s; viz_active := viz_active s; draws := draws s;
     sent := sent s; timeouts := timeouts s; loads := loads s |}.
Definition set_trackCount (v : nat) (s : ambient) : ambient :=
  {| currentMode := currentMode s; isPlaying := isPlaying s; hasBeenPlayed :=
     hasBeenPlayed s; switching := switching s; widget := widget s; ready := ready s;
     widgetInitialized := widgetInitialized s; shuffledOrder := shuffledOrder s;
     shufflePos := shufflePos s; trackCount := v; playBtn_playing := playBtn_playing
     s; panel_active := panel_active s; viz_active := viz_active s; draws := draws s;
     sent := sent s; timeouts := timeouts s; loads := loads s |}.
Definition set_playBtn_playing (v : bool) (s : ambient) : ambient :=
  {| currentMode := currentMode s; isPlaying := isPlaying s; hasBeenPlayed :=
     hasBeenPlayed s; switching := switching s; widget := widget s; ready := ready s;
     widgetInitialized := widgetInitialized s; shuffledOrder := shuffledOrder s;
     shufflePos := shufflePos s; trackCount := trackCount s; playBtn_playing := v;
     panel_active := panel_active s; viz_active := viz_active s; draws := draws s;
     sent := sent s; timeouts := timeouts s; loads := loads s |}.
Definition set_panel_active (v : bool) (s : ambient) : ambient :=
  {| currentMode := currentMode s; isPlaying := isPlaying s; hasBeenPlayed :=
     hasBeenPlayed s; switching := switching s; widget := widget s; ready := ready s;
     widgetInitialized := widgetInitialized s; shuffledOrder := shuffledOrder s;
     shufflePos := shufflePos s; trackCount := trackCount s; playBtn_playing :=
     playBtn_playing s; panel_active := v; viz_active := viz_active s; draws := draws
     s; sent := sent s; timeouts := timeouts s; loads := loads s |}.
Definition set_viz_active (v : bool) (s : ambient) : ambient :=
  {| currentMode := currentMode s; isPlaying := isPlaying s; hasBeenPlayed :=
     hasBeenPlayed s; switching := switching s; widget := widget s; ready := ready s;
     widgetInitialized := widgetInitialized s; shuffledOrder := shuffledOrder s;
     shufflePos := shufflePos s; trackCount := trackCount s; playBtn_playing :=
     playBtn_playing s; panel_active := panel_active s; viz_active := v; draws :=
     draws s; sent := sent s; timeouts := timeouts s; loads := loads s |}.
Definition set_draws (v : nat) (s : ambient) : ambient :=
  {| currentMode := currentMode s; isPlaying := isPlaying s; hasBeenPlayed :=
     hasBeenPlayed s; switching := switching s; widget := widget s; ready := ready s;
     widgetInitialized := widgetInitialized s; shuffledOrder := shuffledOrder s;
     shufflePos := shufflePos s; trackCount := trackCount s; playBtn_playing :=
     playBtn_playing s; panel_active := panel_active s; viz_active := viz_active s;
     draws := v; sent := sent s; timeouts := timeouts s; loads := loads s |}.
Definition set_sent (v : list widget_cmd) (s : ambient) : ambient :=
  {| currentMode := currentMode s; isPlaying := isPlaying s; hasBeenPlayed :=
     hasBeenPlayed s; switching := switching s; widget := widget s; ready := ready s;
     widgetInitialized := widgetInitialized s; shuffledOrder := shuffledOrder s;
     shufflePos := shufflePos s; trackCount := trackCount s; playBtn_playing :=
     playBtn_playing s; panel_active := panel_active s; viz_active := viz_active s;
     draws := draws s; sent := v; timeouts := timeouts s; loads := loads s |}.
Definition set_timeouts (v : list deferred) (s : ambient) : ambient :=
  {| currentMode := currentMode s; isPlaying := isPlaying s; hasBeenPlayed :=
     hasBeenPlayed s; switching := switching s; widget := widget s; ready := ready s;
     widgetInitialized := widgetInitialized s; shuffledOrder := shuffledOrder s;
     shufflePos := shufflePos s; trackCount := trackCount s; playBtn_playing :=
     playBtn_playing s; panel_active := panel_active s; viz_active := viz_active s;
     draws := draws s; sent := sent s; timeouts := v; loads := loads s |}.
Definition set_loads (v : list bool) (s : ambient) : ambient :=
  {| currentMode := currentMode s; isPlaying := isPlaying s; hasBeenPlayed :=
     hasBeenPlayed s; switching := switching s; widget := widget s; ready := ready s;
     widgetInitialized := widgetInitialized s; shuffledOrder := shuffledOrder s;
     shufflePos := shufflePos s; trackCount := trackCount s; playBtn_playing :=
     playBtn_playing s; panel_active := panel_active s; viz_active := viz_active s;
     draws := draws s; sent := sent s; timeouts := timeouts s; loads := v |}.


Definition constructor : ambient :=
  {| currentMode := "ambient"; isPlaying := false; hasBeenPlayed := false;
     switching := false; widget := false; ready := false;
     widgetInitialized := false; shuffledOrder := []; shufflePos := Num 0;
     trackCount := 0; playBtn_playing := false; panel_active := false;
     viz_active := false; draws := 0; sent := []; timeouts := []; loads := [] |}.

Definition send (c : widget_cmd) (s : ambient) : ambient :=
  set_sent (sent s ++ [c]) s.

Definition setTimeout (d : deferred) (s : ambient) : ambient :=
  set_timeouts (timeouts s ++ [d]) s.

Definition setActive (b : bool) (s : ambient) : ambient :=
  set_viz_active b (set_panel_active b (set_playBtn_playing b s)).

Definition updateTrackInfo (s : ambient) : ambient :=
  if widget s then send GetCurrentSound s else s.

Section Handlers.
Variable random : nat → nat.

(** [this.shuffledOrder = shuffleIndices(this.trackCount)] *)
Definition reshuffle (s : ambient) : ambient :=
  let '(order, k) := shuffleIndices random (trackCount s) (draws s) in
  set_draws k (set_shuffledOrder order s).

Definition initWidget (sc_defined : bool) (s : ambient) : ambient :=
  if sc_defined then set_widgetInitialized true (set_widget true s)
  else setTimeout InitWidgetAgain s.

(** [iframe.onload] *)
Definition onload (sc_defined : bool) (s : ambient) : ambient :=
  if widgetInitialized s then s else initWidget sc_defined s.

(** [onPlaylistLoaded] only asks the widget for its sounds ... *)
Definition onPlaylistLoaded (s : ambient) : ambient := send GetSounds s.

(** ... and the callback of [getSounds], with [n = sounds.length], does
    the work. *)
Definition onSounds (n : nat) (s : ambient) : ambient :=
  let s := set_trackCount n s in
  if 0 <? trackCount s then
    let s := reshuffle s in
    let s := set_shufflePos (Num 0) s in
    let targetIndex := shuffledOrder s !! 0 in
    let s := send (Skip targetIndex) s in
    if isPlaying s then
      setTimeout LoadedPlayAgain (setTimeout LoadedPlaySettle (send Play s))
    else setTimeout LoadedSettle s
  else set_switching false s.

Definition onReady (s : ambient) : ambient :=
  onPlaylistLoaded (send SetVolume (set_ready true s)).

Definition onPlay (s : ambient) : ambient :=
  updateTrackInfo (setActive true (set_hasBeenPlayed true (set_isPlaying true s))).

Definition onPause (s : ambient) : ambient :=
  if switching s then s else setActive false (set_isPlaying false s).

Definition switchMode (mode : string) (s : ambient) : ambient :=
  if decide (mode = currentMode s) then s else
  let shouldPlay := isPlaying s || hasBeenPlayed s in
  let s := set_switching true (set_ready false (set_currentMode mode s)) in
  let s := if shouldPlay then setActive true (set_isPlaying true s) else s in
  if widget s then
    set_loads (loads s ++ [shouldPlay]) (send (Load (MODE_PLAYLISTS !! mode) shouldPlay) s)
  else s.

(** The [callback] given to [widget.load], closed over [shouldPlay]. *)
Definition onLoaded (shouldPlay : bool) (s : ambient) : ambient :=
  let s := send SetVolume (set_isPlaying shouldPlay (set_ready true s)) in
  let s := if shouldPlay then send Play s else s in
  onPlaylistLoaded s.

Definition togglePlay (s : ambient) : ambient :=
  if negb (widget s) || negb (ready s) then s
  else if isPlaying s then send Pause s else send Play s.

Definition next (s : ambient) : ambient :=
  if negb (widget s) || negb (ready s) || (trackCount s =? 0) then s else
  let s := set_shufflePos (js_mod (js_add (shufflePos s) 1) (length (shuffledOrder s))) s in
  let s := if js_is_zero (shufflePos s) then reshuffle s else s in
  let s := send (Skip (js_index (shuffledOrder s) (shufflePos s))) s in
  setTimeout SkipSettle s.

Definition prev (s : ambient) : ambient :=
  if negb (widget s) || negb (ready s) || (trackCount s =? 0) then s else
  let len := length (shuffledOrder s) in
  let s := set_shufflePos (js_mod (js_add (js_add (shufflePos s) (-1)) (Z.of_nat len)) len) s in
  let s := send (Skip (js_index (shuffledOrder s) (shufflePos s))) s in
  setTimeout SkipSettle s.

(** The ERROR listener; the two texts it writes are left out with the
    other texts. *)
Definition onError (s : ambient) : ambient := setTimeout ErrorSkip s.

Definition fire (d : deferred) (sc_defined : bool) (s : ambient) : ambient :=
  match d with
  | InitWidgetAgain => initWidget sc_defined s
  | LoadedPlaySettle => updateTrackInfo (set_switching false (send Play s))
  | LoadedPlayAgain => updateTrackInfo (send Play s)
  | LoadedSettle => updateTrackInfo (set_switching false s)
  | SkipSettle =>
      let s := updateTrackInfo s in
      if isPlaying s then send Play s else s
  | ErrorSkip => next s
  end.

(** What can happen to the controller.  Widget notifications and the
    callbacks of [getSounds] and [load] exist only once the widget is
    bound, which [handle] checks. *)
Inductive event :=
  | IframeLoad (sc_defined : bool)
  | Timeout (i : nat) (sc_defined : bool)   (* the i-th pending timeout fires *)
  | WidgetReady
  | WidgetPlay
  | WidgetPause
  | WidgetFinish
  | WidgetError
  | Sounds (n : nat)                        (* getSounds answers with n sounds *)
  | Loaded (i : nat)                        (* the i-th pending load completes *)
  | ClickPlay
  | ClickNext
  | ClickPrev
  | ModeChange (mode : string).

Definition handle (e : event) (s : ambient) : ambient :=
  match e with
  | IframeLoad sc => onload sc s
  | Timeout i sc =>
      match timeouts s !! i with
      | Some d => fire d sc (set_timeouts (delete i (timeouts s)) s)
      | None => s
      end
  | WidgetReady => if widget s then onReady s else s
  | WidgetPlay => if widget s then onPlay s else s
  | WidgetPause => if widget s then onPause s else s
  | WidgetFinish => if widget s then next s else s
  | WidgetError => if widget s then onError s else s
  | Sounds n => if widget s then onSounds n s else s
  | Loaded i =>
      match loads s !! i with
      | Some shouldPlay => onLoaded shouldPlay (set_loads (delete i (loads s)) s)
      | None => s
      end
  | ClickPlay => togglePlay s
  | ClickNext => next s
  | ClickPrev => prev s
  | ModeChange mode => switchMode mode s
  end.

Definition run (es : list event) (s : ambient) : ambient :=
  fold_left (λ s e, handle e s) es s.

(** The targets of the [skip] commands sent so far: the tracks visited. *)
Definition visited (s : ambient) : list (option nat) :=
  omap (λ c, match c with Skip t => Some t | _ => None end) (sent s).
End Handlers.

(** [shufflePos] indexes [shuffledOrder]. *)
Definition cursor_in_range (s : ambient) : Prop :=
  shuffledOrder s ≠ [] →
  ∃ z, shufflePos s = Num z ∧ (0 ≤ z < Z.of_nat (length (shuffledOrder s)))%Z.

(** What holds of the cursor in every state the controller reaches: it is
    in range, the order has as many entries as the playlist has tracks,
    and no [skip] was sent with [undefined]. *)
Definition cursor_ok (s : ambient) : Prop :=
  cursor_in_range s ∧
  (trackCount s ≠ 0 → length (shuffledOrder s) = trackCount s) ∧
  Forall is_Some (visited s).

(** [onVolume]: the slider reaches the widget only once it is bound and
    ready. *)
Definition onVolume (s : ambient) : ambient :=
  if widget s && ready s then send SetVolume s else s.

(** While [this.widget] is null nothing has reached the widget, and the
    only timers are those of [initWidget] waiting for the SoundCloud
    script. *)
Definition unbound (s : ambient) : Prop :=
  widget s = false →
  widgetInitialized s = false ∧ ready s = false ∧ sent s = [] ∧ loads s = [] ∧
  trackCount s = 0 ∧ shuffledOrder s = [] ∧
  Forall (λ d, d = InitWidgetAgain) (timeouts s).

(** The events that find the player waiting for a playlist: the widget's
    pause notification and the clicks on play, next and prev. *)
Definition inert (e : event) : bool :=
  match e with
  | WidgetPause | ClickPlay | ClickNext | ClickPrev => true
  | _ => false
  end.

(** A track that cannot be played: the widget's error notification, then
    the timer the listener sets (1.5 s), whose [next()] sets the settle
    timer (0.5 s), which fires before another error's timer can. *)
Definition trackError (random : nat → nat) (sc : bool) (s : ambient) : ambient :=
  let i := length (timeouts s) in
  run random [WidgetError; Timeout i sc; Timeout i sc] s.

Definition trackErrors (random : nat → nat) (sc : bool) (k : nat) (s : ambient)
    : ambient :=
  Nat.iter k (trackError random sc) s.

(** Two states agree on all that [next()] reads and on the tracks skipped
    to so far. *)
Definition same_cursor (s t : ambient) : Prop :=
  widget s = widget t ∧ ready s = ready t ∧ trackCount s = trackCount t ∧
  shufflePos s = shufflePos t ∧ shuffledOrder s = shuffledOrder t ∧
  draws s = draws t ∧ visited s = visited t ∧ isPlaying s = isPlaying t.

End AmbientPlayer.

(** * Properties *)

(** ** [shuffleIndices] *)

Section ShuffleFacts.
Variable random : nat → nat.

Lemma randomIndex_le k i : randomIndex random k (i + 1) ≤ i.
Proof.
  unfold randomIndex.
  pose proof (Nat.mod_upper_bound (random k) (i + 1)). lia.
Qed.

Lemma swap_Permutation indices i j : swap indices i j ≡ₚ indices.
Proof.
  unfold swap.
  destruct (indices !! i) as [a|] eqn:Hi; [|done].
  destruct (indices !! j) as [b|] eqn:Hj; [|done].
  by apply Permutation_insert_swap.
Qed.

Lemma swap_length indices i j : length (swap indices i j) = length indices.
Proof. apply Permutation_length, swap_Permutation. Qed.

(** Both reads of a swap of the loop hit the array. *)
Lemma shuffle_loop_reads_in_range (indices : list nat) i k :
  i < length indices →
  is_Some (indices !! i) ∧ is_Some (indices !! randomIndex random k (i + 1)).
Proof.
  intros Hi. pose proof (randomIndex_le k i).
  split; apply lookup_lt_is_Some; lia.
Qed.

Lemma shuffle_loop_Permutation i indices k :
  (shuffle_loop random i indices k).1 ≡ₚ indices.
Proof.
  revert indices k. induction i as [|i IH]; intros indices k; simpl; [done|].
  rewrite IH. apply swap_Permutation.
Qed.

Lemma shuffle_loop_draws i indices k :
  (shuffle_loop random i indices k).2 = k + i.
Proof.
  revert indices k. induction i as [|i IH]; intros indices k; simpl; [lia|].
  rewrite IH. lia.
Qed.

Lemma shuffleIndices_Permutation count k :
  (shuffleIndices random count k).1 ≡ₚ seq 0 count.
Proof. apply shuffle_loop_Permutation. Qed.

Lemma shuffleIndices_length count k :
  length (shuffleIndices random count k).1 = count.
Proof. by rewrite shuffleIndices_Permutation, length_seq. Qed.

Lemma shuffleIndices_draws count k :
  (shuffleIndices random count k).2 = k + (count - 1).
Proof. unfold shuffleIndices. by rewrite shuffle_loop_draws, length_seq. Qed.

(** C5: for every count, [shuffleIndices] returns a permutation of the
    indices [0 .. count): the result has length [count], holds no index
    twice, and holds exactly the naturals below [count]. *)
Theorem shuffleIndices_is_permutation count k :
  let order := (shuffleIndices random count k).1 in
  order ≡ₚ seq 0 count ∧
  length order = count ∧
  NoDup order ∧
  (∀ i, i ∈ order ↔ i < count).
Proof.
  simpl. pose proof (shuffleIndices_Permutation count k) as Hp.
  split; [done|]. split; [apply shuffleIndices_length|]. split.
  - rewrite Hp. apply NoDup_seq.
  - intros i. rewrite Hp, elem_of_seq. lia.
Qed.

End ShuffleFacts.

(** ** [AmbientPlayer]: the shuffle cursor *)

Module AmbientFacts.
Import AmbientPlayer.

Section Cursor.
Variable random : nat → nat.

(** What [next] does once its guard lets it through. *)
Lemma next_fields s :
  widget s = true → ready s = true → trackCount s ≠ 0 →
  let pos := js_mod (js_add (shufflePos s) 1) (length (shuffledOrder s)) in
  let s' := next random s in
  shufflePos s' = pos ∧
  (if js_is_zero pos
   then (shuffledOrder s', draws s') = shuffleIndices random (trackCount s) (draws s)
   else shuffledOrder s' = shuffledOrder s ∧ draws s' = draws s) ∧
  visited s' = visited s ++ [js_index (shuffledOrder s') pos] ∧
  widget s' = true ∧ ready s' = true ∧ trackCount s' = trackCount s.
Proof.
  intros Hw Hr Ht. unfold next. rewrite Hw, Hr. simpl.
  apply Nat.eqb_neq in Ht. rewrite Ht. cbn [shufflePos set_shufflePos].
  destruct (js_is_zero _) eqn:Hz.
  - unfold reshuffle. cbn [trackCount draws set_shufflePos].
    destruct (shuffleIndices _ _ _) as [order k] eqn:Hs.
    unfold setTimeout, visited, send. cbn. rewrite omap_app.
    by rewrite Hw, Hr.
  - unfold setTimeout, visited, send. cbn. rewrite omap_app. by rewrite Hw, Hr.
Qed.

Lemma next_blocked s :
  widget s = false ∨ ready s = false ∨ trackCount s = 0 → next random s = s.
Proof.
  unfold next. intros [->|[->| ->]]; [done| |].
  - by destruct (widget s).
  - by destruct (widget s), (ready s).
Qed.

(** The state the [getSounds] callback leaves for a playlist of [n > 0]
    sounds. *)
Lemma onSounds_fields n s :
  0 < n →
  let s0 := onSounds random n s in
  (shuffledOrder s0, draws s0) = shuffleIndices random n (draws s) ∧
  shufflePos s0 = Num 0 ∧ trackCount s0 = n ∧
  widget s0 = widget s ∧ ready s0 = ready s ∧
  visited s0 = visited s ++ [shuffledOrder s0 !! 0].
Proof.
  intros Hn. unfold onSounds. cbn [trackCount set_trackCount].
  apply Nat.ltb_lt in Hn. rewrite Hn. unfold reshuffle.
  cbn [trackCount draws set_trackCount].
  destruct (shuffleIndices _ _ _) as [order k] eqn:Hs.
  unfold setTimeout, visited, send.
  destruct (isPlaying s) eqn:Hp; cbn; rewrite Hp; cbn;
    rewrite ?omap_app; cbn; rewrite ?app_nil_r; done.
Qed.

Lemma js_mod_succ (k n : nat) :
  k < n →
  js_mod (js_add (Num (Z.of_nat k)) 1) n =
  Num (if decide (S k = n) then 0 else Z.of_nat (S k)).
Proof.
  intros Hk. destruct n as [|n']; [lia|].
  unfold js_add, js_mod. f_equal. case_decide as Hd.
  - replace (Z.of_nat k + 1)%Z with (Z.of_nat (S n')) by lia.
    apply Z.rem_same. lia.
  - rewrite Z.rem_small; lia.
Qed.

Lemma lookup_all_seq {A} (l : list A) :
  (λ i, l !! i) <$> seq 0 (length l) = Some <$> l.
Proof.
  induction l as [|x l IH]; [done|].
  cbn [length seq fmap list_fmap]. f_equal.
  by rewrite <- fmap_S_seq, <- list_fmap_compose.
Qed.

(** The first [n - 1] calls of [next] walk down the order of the load. *)
Lemma next_walks n s0 :
  widget s0 = true → ready s0 = true → trackCount s0 = n →
  length (shuffledOrder s0) = n → shufflePos s0 = Num 0 →
  ∀ k, k < n →
    let sk := Nat.iter k (next random) s0 in
    shuffledOrder sk = shuffledOrder s0 ∧ draws sk = draws s0 ∧
    shufflePos sk = Num (Z.of_nat k) ∧
    visited sk = visited s0 ++ ((λ i, shuffledOrder s0 !! i) <$> seq 1 k) ∧
    widget sk = true ∧ ready sk = true ∧ trackCount sk = n.
Proof.
  intros Hw Hr Ht Hl Hp k. induction k as [|k IH]; intros Hk; cbn zeta.
  { cbn. by rewrite app_nil_r. }
  destruct IH as (Ho & Hd & Hpos & Hv & Hw' & Hr' & Ht'); [lia|].
  set (sk := Nat.iter k (next random) s0) in *.
  change (Nat.iter (S k) (next random) s0) with (next random sk).
  destruct (next_fields sk) as (Hpos1 & Hre & Hv1 & ? & ? & ?); [done|done|lia|].
  rewrite Hpos, Ho, Hl, js_mod_succ in Hpos1, Hre, Hv1 by lia.
  rewrite decide_False in Hpos1, Hre, Hv1 by lia.
  replace (js_is_zero _) with false in Hre
    by (symmetry; cbn; apply Z.eqb_neq; lia).
  destruct Hre as [Ho1 Hd1].
  rewrite Ho1 in Hv1. cbn [js_index] in Hv1.
  replace (Z.of_nat (S k) <? 0)%Z with false in Hv1 by (symmetry; apply Z.ltb_ge; lia).
  rewrite Nat2Z.id in Hv1.
  repeat split; try congruence.
  rewrite Hv1, Hv, <- app_assoc. f_equal.
  by rewrite seq_S, fmap_app.
Qed.

(** C3: after the [getSounds] callback has loaded a playlist of [n > 0]
    tracks into a bound and ready widget, the track skipped to by the load
    and the tracks skipped to by the next [n - 1] calls of [next] are the
    loaded order, a permutation of [0 .. n): every index is visited once
    before any is visited again.  The order and the random source stay
    untouched during those calls; the [n]-th call puts the cursor back at
    0 and replaces the order by a new [shuffleIndices(n)] drawn from
    random values not used before.  In general a call of [next] that
    passes its guard assigns a new shuffle exactly when it leaves the
    cursor at 0. *)
Theorem next_visits_every_track_once n s :
  0 < n → widget s = true → ready s = true →
  let s0 := onSounds random n s in
  let order0 := shuffledOrder s0 in
  let sn := Nat.iter n (next random) s0 in
  let tracks := drop (length (visited s)) (visited sn) in
  order0 ≡ₚ seq 0 n ∧
  (∀ k, k < n →
     let sk := Nat.iter k (next random) s0 in
     shuffledOrder sk = order0 ∧ draws sk = draws s0 ∧
     shufflePos sk = Num (Z.of_nat k) ∧
     visited sk = visited s ++ (Some <$> take (S k) order0)) ∧
  shufflePos sn = Num 0 ∧
  (shuffledOrder sn, draws sn) = shuffleIndices random n (draws s0) ∧
  draws s0 = draws s + (n - 1) ∧
  visited sn = visited s ++ (Some <$> order0) ++ [shuffledOrder sn !! 0] ∧
  length tracks = S n ∧
  take n tracks ≡ₚ Some <$> seq 0 n ∧
  NoDup (take n tracks) ∧
  (∀ st, widget st = true → ready st = true → trackCount st ≠ 0 →
     if js_is_zero (shufflePos (next random st))
     then (shuffledOrder (next random st), draws (next random st)) =
          shuffleIndices random (trackCount st) (draws st)
     else shuffledOrder (next random st) = shuffledOrder st ∧
          draws (next random st) = draws st).
Proof.
  intros Hn Hw Hr s0 order0 sn tracks.
  destruct (onSounds_fields n s Hn) as (Hsh & Hp0 & Ht0 & Hw0 & Hr0 & Hv0).
  fold s0 in Hsh, Hp0, Ht0, Hw0, Hr0, Hv0. fold order0 in Hv0.
  rewrite Hw in Hw0. rewrite Hr in Hr0.
  pose proof (f_equal fst Hsh) as Hfst. pose proof (f_equal snd Hsh) as Hsnd.
  cbn [fst snd] in Hfst, Hsnd. fold order0 in Hfst. clear Hsh.
  assert (Hperm : order0 ≡ₚ seq 0 n).
  { rewrite Hfst. apply shuffleIndices_Permutation. }
  assert (Hlen : length order0 = n) by (by rewrite Hperm, length_seq).
  assert (Hd0 : draws s0 = draws s + (n - 1)).
  { rewrite Hsnd. apply shuffleIndices_draws. }
  pose proof (next_walks n s0 Hw0 Hr0 Ht0 Hlen Hp0) as Hwalk.
  assert (Hpre : ∀ k, k < n →
    visited s0 ++ ((λ i, order0 !! i) <$> seq 1 k) =
    visited s ++ (Some <$> take (S k) order0)).
  { intros k Hk. rewrite Hv0, <- app_assoc. f_equal.
    change ([order0 !! 0] ++ ((λ i, order0 !! i) <$> seq 1 k))
      with ((λ i, order0 !! i) <$> seq 0 (S k)).
    rewrite <- (lookup_all_seq (take (S k) order0)), length_take, Hlen.
    replace (S k `min` n) with (S k) by lia.
    apply list_fmap_ext. intros i x [-> Hx]%lookup_seq.
    by rewrite lookup_take_lt by lia. }
  assert (Hlast : ∃ m, n = S m) by (exists (n - 1); lia).
  destruct Hlast as [m Hm].
  destruct (Hwalk m) as (Ho & Hd & Hpos & Hv & Hw' & Hr' & Ht'); [lia|].
  assert (Hsn : sn = next random (Nat.iter m (next random) s0))
    by (unfold sn; by rewrite Hm).
  set (sm := Nat.iter m (next random) s0) in *.
  destruct (next_fields sm) as (Hpos1 & Hre & Hv1 & _); [done|done|lia|].
  rewrite <- Hsn in Hpos1, Hre, Hv1.
  fold order0 in Ho. rewrite Hpos, Ho, Hlen, js_mod_succ in Hpos1, Hre, Hv1 by lia.
  rewrite decide_True in Hpos1, Hre, Hv1 by lia.
  cbn [js_is_zero Z.eqb js_index Z.ltb Z.compare Z.to_nat] in Hre, Hv1.
  rewrite Ht', Hd in Hre.
  assert (Hvn : visited sn = visited s ++ (Some <$> order0) ++ [shuffledOrder sn !! 0]).
  { rewrite Hv1, Hv. fold order0. rewrite (Hpre m) by lia.
    rewrite <- Hm, <- Hlen, firstn_all. by rewrite <- app_assoc. }
  assert (Htr : tracks = (Some <$> order0) ++ [shuffledOrder sn !! 0]).
  { unfold tracks. rewrite Hvn. by rewrite drop_app_length. }
  assert (Htake : take n tracks = Some <$> order0).
  { rewrite Htr, take_app_le by (rewrite length_fmap; lia).
    apply take_ge. rewrite length_fmap. lia. }
  split; [done|]. split.
  { intros k Hk. destruct (Hwalk k Hk) as (? & ? & ? & Hvk & _).
    repeat split; try done. rewrite Hvk. by apply Hpre. }
  split; [done|]. split; [done|]. split; [done|]. split; [done|].
  split. { rewrite Htr, length_app, length_fmap, Hlen. simpl. lia. }
  split. { by rewrite Htake, Hperm. }
  split. { rewrite Htake. apply (NoDup_fmap_2 _). rewrite Hperm. apply NoDup_seq. }
  intros st Hws Hrs Hts.
  destruct (next_fields st Hws Hrs Hts) as (Hq & Hre' & _).
  cbn zeta in Hq, Hre'. by rewrite Hq.
Qed.

Lemma js_index_in_range {A} (l : list A) z :
  (0 ≤ z < Z.of_nat (length l))%Z → is_Some (js_index l (Num z)).
Proof.
  intros Hz. unfold js_index.
  replace (z <? 0)%Z with false by (symmetry; apply Z.ltb_ge; lia).
  apply lookup_lt_is_Some. lia.
Qed.

Lemma js_mod_in_range z (n : nat) :
  (0 ≤ z)%Z → n ≠ 0 →
  ∃ z', js_mod (Num z) n = Num z' ∧ (0 ≤ z' < Z.of_nat n)%Z.
Proof.
  intros Hz Hn. destruct n as [|n']; [done|].
  eexists. split; [reflexivity|]. apply Z.rem_bound_pos; lia.
Qed.

(** A handler that leaves the cursor, the order, the track count and the
    [skip] commands alone keeps [cursor_ok]. *)
Lemma cursor_ok_frame s s' :
  shuffledOrder s' = shuffledOrder s → shufflePos s' = shufflePos s →
  trackCount s' = trackCount s → visited s' = visited s →
  cursor_ok s → cursor_ok s'.
Proof.
  unfold cursor_ok, cursor_in_range. intros -> -> -> ->. done.
Qed.

Lemma cursor_in_range_next s : cursor_in_range s → cursor_in_range (next random s).
Proof.
  intros Hc.
  destruct (widget s) eqn:Hw; [|by rewrite next_blocked by auto].
  destruct (ready s) eqn:Hr; [|by rewrite next_blocked by auto].
  destruct (decide (trackCount s = 0)) as [Ht|Ht]; [by rewrite next_blocked by auto|].
  destruct (next_fields s Hw Hr Ht) as (Hpos & Hre & _). cbn zeta in Hpos, Hre.
  intros Hne. destruct (js_is_zero _) eqn:Hz.
  - exists 0%Z. split.
    + rewrite Hpos. destruct (js_mod _ _); [|done].
      f_equal. by apply Z.eqb_eq.
    + destruct (shuffledOrder (next random s)); [done|]. cbn [length]. lia.
  - destruct Hre as [Ho _]. rewrite Ho in Hne |- *.
    destruct (Hc Hne) as (z & Hz' & Hb). rewrite Hpos, Hz'. cbn [js_add].
    apply js_mod_in_range; [lia|]. by destruct (shuffledOrder s).
Qed.

Lemma prev_blocked s :
  widget s = false ∨ ready s = false ∨ trackCount s = 0 → prev s = s.
Proof.
  unfold prev. intros [->|[->| ->]]; [done| |].
  - by destruct (widget s).
  - by destruct (widget s), (ready s).
Qed.

Lemma prev_fields s :
  widget s = true → ready s = true → trackCount s ≠ 0 →
  let len := length (shuffledOrder s) in
  let pos := js_mod (js_add (js_add (shufflePos s) (-1)) (Z.of_nat len)) len in
  shufflePos (prev s) = pos ∧ shuffledOrder (prev s) = shuffledOrder s ∧
  trackCount (prev s) = trackCount s ∧
  visited (prev s) = visited s ++ [js_index (shuffledOrder s) pos].
Proof.
  intros Hw Hr Ht. unfold prev. rewrite Hw, Hr.
  apply Nat.eqb_neq in Ht. rewrite Ht.
  unfold setTimeout, visited, send. cbn. by rewrite omap_app.
Qed.

Lemma cursor_in_range_prev s : cursor_in_range s → cursor_in_range (prev s).
Proof.
  intros Hc.
  destruct (widget s) eqn:Hw; [|by rewrite prev_blocked by auto].
  destruct (ready s) eqn:Hr; [|by rewrite prev_blocked by auto].
  destruct (decide (trackCount s = 0)) as [Ht|Ht]; [by rewrite prev_blocked by auto|].
  destruct (prev_fields s Hw Hr Ht) as (Hpos & Ho & _). cbn zeta in Hpos.
  intros Hne. rewrite Ho in Hne |- *.
  destruct (Hc Hne) as (z & Hz & Hb). rewrite Hpos, Hz. cbn [js_add].
  apply js_mod_in_range; [lia|]. by destruct (shuffledOrder s).
Qed.

Lemma cursor_in_range_onSounds n s :
  cursor_in_range s → cursor_in_range (onSounds random n s).
Proof.
  intros Hc. destruct (decide (0 < n)) as [Hn|Hn].
  - destruct (onSounds_fields n s Hn) as (Hsh & Hp & _).
    intros Hne. exists 0%Z. split; [done|].
    destruct (shuffledOrder (onSounds random n s)); [done|]. cbn [length]. lia.
  - replace n with 0 by lia. done.
Qed.

Lemma cursor_ok_next s : cursor_ok s → cursor_ok (next random s).
Proof.
  intros (Hc & Hl & Hv).
  destruct (widget s) eqn:Hw; [|by rewrite next_blocked by auto].
  destruct (ready s) eqn:Hr; [|by rewrite next_blocked by auto].
  destruct (decide (trackCount s = 0)) as [Ht|Ht]; [by rewrite next_blocked by auto|].
  pose proof (cursor_in_range_next s Hc) as Hc'.
  destruct (next_fields s Hw Hr Ht) as (Hpos & Hre & Hvis & _ & _ & Htc).
  cbn zeta in Hpos, Hre, Hvis.
  assert (Hlen : length (shuffledOrder (next random s)) = trackCount s).
  { destruct (js_is_zero _).
    - pose proof (f_equal fst Hre) as E. cbn [fst] in E.
      rewrite E. apply shuffleIndices_length.
    - destruct Hre as [-> _]. auto. }
  split; [done|]. split; [by rewrite Htc|].
  rewrite Hvis. apply Forall_app. split; [done|].
  apply Forall_singleton. rewrite <- Hpos.
  destruct Hc' as (z & -> & Hb).
  { destruct (shuffledOrder (next random s)); [cbn in Hlen; lia|done]. }
  by apply js_index_in_range.
Qed.

Lemma cursor_ok_prev s : cursor_ok s → cursor_ok (prev s).
Proof.
  intros (Hc & Hl & Hv).
  destruct (widget s) eqn:Hw; [|by rewrite prev_blocked by auto].
  destruct (ready s) eqn:Hr; [|by rewrite prev_blocked by auto].
  destruct (decide (trackCount s = 0)) as [Ht|Ht]; [by rewrite prev_blocked by auto|].
  pose proof (cursor_in_range_prev s Hc) as Hc'.
  destruct (prev_fields s Hw Hr Ht) as (Hpos & Ho & Htc & Hvis).
  cbn zeta in Hpos, Hvis.
  split; [done|]. split; [by rewrite Htc, Ho|].
  rewrite Hvis. apply Forall_app. split; [done|].
  apply Forall_singleton. rewrite <- Hpos, <- Ho.
  destruct Hc' as (z & -> & Hb).
  { rewrite Ho. destruct (shuffledOrder s); [cbn in Hl; specialize (Hl Ht); lia|done]. }
  by apply js_index_in_range.
Qed.

Lemma cursor_ok_onSounds n s : cursor_ok s → cursor_ok (onSounds random n s).
Proof.
  intros (Hc & Hl & Hv).
  pose proof (cursor_in_range_onSounds n s Hc) as Hc'.
  destruct (decide (0 < n)) as [Hn|Hn].
  - destruct (onSounds_fields n s Hn) as (Hsh & Hp & Ht & _ & _ & Hvis).
    pose proof (f_equal fst Hsh) as E. cbn [fst] in E.
    assert (Hlen : length (shuffledOrder (onSounds random n s)) = n)
      by (rewrite E; apply shuffleIndices_length).
    split; [done|]. split; [by rewrite Ht|].
    rewrite Hvis. apply Forall_app. split; [done|].
    apply Forall_singleton, lookup_lt_is_Some. lia.
  - replace n with 0 by lia. done.
Qed.

(** Handlers other than [next], [prev] and the [getSounds] callback do not
    touch the cursor. *)
Ltac cursor_untouched :=
  unfold onload, initWidget, onReady, onPlaylistLoaded, onPlay, onPause, onError,
    onLoaded, togglePlay, switchMode, updateTrackInfo, setActive, setTimeout,
    visited, send;
  repeat case_match; cbn; rewrite ?omap_app; cbn; rewrite ?app_nil_r; done.

Ltac cursor_framed s :=
  apply (cursor_ok_frame s); [cursor_untouched ..|done].

Lemma cursor_ok_fire d sc s : cursor_ok s → cursor_ok (fire random d sc s).
Proof.
  intros Hs. destruct d; cbn [fire]; try cursor_framed s.
  by apply cursor_ok_next.
Qed.

Lemma cursor_ok_handle e s : cursor_ok s → cursor_ok (handle random e s).
Proof.
  intros Hs. destruct e; cbn [handle]; try cursor_framed s.
  - destruct (timeouts s !! i); [|done].
    apply cursor_ok_fire. cursor_framed s.
  - destruct (widget s); [by apply cursor_ok_next|done].
  - destruct (widget s); [by apply cursor_ok_onSounds|done].
  - by apply cursor_ok_next.
  - by apply cursor_ok_prev.
Qed.

Lemma cursor_ok_run es s : cursor_ok s → cursor_ok (run random es s).
Proof.
  revert s. induction es as [|e es IH]; intros s Hs; [done|].
  cbn. apply IH. by apply cursor_ok_handle.
Qed.

Lemma cursor_ok_constructor : cursor_ok constructor.
Proof.
  split; [by intros []|]. split; [done|]. apply Forall_nil_2.
Qed.

(** C10: whenever the shuffled order is not empty the cursor is an integer
    in [0, shuffledOrder.length).  [next], [prev] and the [getSounds]
    callback of [onPlaylistLoaded] each keep it so from any state, hence
    it holds in every state the controller reaches, and there
    [shuffledOrder[shufflePos]] is an element of the array: no [skip] is
    ever sent with [undefined]. *)
Theorem shufflePos_in_range :
  (∀ s, cursor_in_range s →
     cursor_in_range (next random s) ∧ cursor_in_range (prev s) ∧
     ∀ n, cursor_in_range (onSounds random n s)) ∧
  (∀ es, let s := run random es constructor in
     cursor_in_range s ∧
     (shuffledOrder s ≠ [] → is_Some (js_index (shuffledOrder s) (shufflePos s))) ∧
     Forall is_Some (visited s)).
Proof.
  split.
  - intros s Hs. split; [by apply cursor_in_range_next|].
    split; [by apply cursor_in_range_prev|].
    intros n. by apply cursor_in_range_onSounds.
  - intros es s.
    destruct (cursor_ok_run es constructor cursor_ok_constructor) as (Hc & _ & Hv).
    fold s in Hc, Hv. split; [done|]. split; [|done].
    intros Hne. destruct (Hc Hne) as (z & -> & Hb). by apply js_index_in_range.
Qed.

End Cursor.

(** A run: the random source yields 2, 7, 12, 17, ...; the widget is bound
    and ready and reports three sounds.  The load shuffles them into
    [0; 1; 2] and the third call of [next] into [2; 1; 0]. *)
Lemma next_visits_every_track_once_witness :
  let random := λ k, 5 * k + 2 in
  let s := run random [IframeLoad true; WidgetReady] constructor in
  let s0 := onSounds random 3 s in
  let s3 := Nat.iter 3 (next random) s0 in
  (0 < 3 ∧ widget s = true ∧ ready s = true) ∧
  visited s3 = [Some 0; Some 1; Some 2; Some 2] ∧
  shuffledOrder s0 = [0; 1; 2] ∧ shuffledOrder s3 = [2; 1; 0] ∧
  take 3 (drop (length (visited s)) (visited s3)) ≡ₚ Some <$> seq 0 3 ∧
  NoDup (take 3 (drop (length (visited s)) (visited s3))).
Proof.
  intros random s s0 s3.
  assert (H3 : 0 < 3) by lia.
  assert (Hw : widget s = true) by reflexivity.
  assert (Hr : ready s = true) by reflexivity.
  destruct (next_visits_every_track_once random 3 s H3 Hw Hr)
    as (_ & _ & _ & _ & _ & _ & _ & Hperm & Hnd & _).
  split; [by repeat split|]. split; [reflexivity|]. split; [reflexivity|].
  split; [reflexivity|]. split; [exact Hperm|exact Hnd].
Defined.

Lemma shufflePos_in_range_witness :
  let random := λ k, 5 * k + 2 in
  let s := run random
             [IframeLoad true; WidgetReady; Sounds 4; ClickNext; ClickPrev;
              ClickPrev; WidgetFinish; ClickNext; ClickNext; ClickNext]
             constructor in
  shuffledOrder s = [0; 2; 3; 1] ∧ shufflePos s = Num 3 ∧
  cursor_in_range s ∧ Forall is_Some (visited s).
Proof.
  intros random s.
  destruct (shufflePos_in_range random) as [_ H].
  destruct (H [IframeLoad true; WidgetReady; Sounds 4; ClickNext; ClickPrev;
               ClickPrev; WidgetFinish; ClickNext; ClickNext; ClickNext])
    as (Hc & _ & Hv).
  split; [reflexivity|]. split; [reflexivity|]. split; [exact Hc|exact Hv].
Defined.

End AmbientFacts.

(** ** [ScannerPlayer]: the call queue and the watermark *)

Module ScannerFacts.
Import ScannerPlayer.


Lemma store_callQueue calls s :
  callQueue (store calls s) = callQueue s ++ List.filter longer_than_1 calls.
Proof.
  unfold store. destruct (last calls) as [newest|] eqn:Hl.
  - by destruct (time newest).
  - apply last_None in Hl as ->. cbn. by rewrite app_nil_r.
Qed.

Lemma store_lastCallTime calls s :
  lastCallTime (store calls s) =
  match last calls with
  | Some newest =>
      match time newest with
      | NoTime => lastCallTime s
      | BadTime => Some NaN
      | Time ms => Some (Num (ms + 1))
      end
  | None => lastCallTime s
  end.
Proof.
  unfold store. destruct (last calls) as [newest|]; [|done].
  by destruct (time newest).
Qed.

(** [playNextCall] only shifts calls off the queue. *)
Lemma playNextCall_from_fields queue s :
  let s' := state_of (playNextCall_from queue s) in
  (∃ k, callQueue s' = drop k queue) ∧
  lastCallTime s' = lastCallTime s ∧ isPlaying s' = isPlaying s ∧
  currentFeed s' = currentFeed s ∧ pollTimer s' = pollTimer s ∧
  intervals s' = intervals s ∧ fresh s' = fresh s ∧ inflight s' = inflight s ∧
  ui_state s' = ui_state s ∧ playBtn_playing s' = playBtn_playing s.
Proof.
  induction queue as [|c rest IH]; cbn [playNextCall_from].
  - cbn. split; [by exists 0|done].
  - destruct (audioUrl c).
    + cbn. destruct (currentFeed s) eqn:Hf; cbn;
        (split; [by exists 1|by repeat split]).
    + destruct IH as ([k Hk] & IH). split; [by exists (S k)|done].
Qed.

Lemma playNextCall_fields s :
  let s' := state_of (playNextCall s) in
  (∃ k, callQueue s' = drop k (callQueue s)) ∧
  lastCallTime s' = lastCallTime s ∧ isPlaying s' = isPlaying s ∧
  currentFeed s' = currentFeed s ∧ pollTimer s' = pollTimer s ∧
  intervals s' = intervals s ∧ fresh s' = fresh s ∧ inflight s' = inflight s ∧
  ui_state s' = ui_state s ∧ playBtn_playing s' = playBtn_playing s.
Proof. apply playNextCall_from_fields. Qed.




Lemma fetchCalls_send_fields b s :
  let s' := fetchCalls_send b s in
  callQueue s' = callQueue s ∧ lastCallTime s' = lastCallTime s ∧
  isPlaying s' = isPlaying s ∧ currentFeed s' = currentFeed s ∧
  ui_state s' = ui_state s ∧ playBtn_playing s' = playBtn_playing s.
Proof. unfold fetchCalls_send. by repeat case_match. Qed.

Lemma ui_state_setStatus text s : ui_state (setStatus text s) = ui_state s.
Proof. done. Qed.

Lemma store_fields calls s :
  let s' := store calls s in
  isPlaying s' = isPlaying s ∧
  currentFeed s' = currentFeed s ∧ pollTimer s' = pollTimer s ∧
  intervals s' = intervals s ∧ fresh s' = fresh s ∧ inflight s' = inflight s ∧
  ui_state s' = ui_state s ∧ playBtn_playing s' = playBtn_playing s.
Proof. unfold store. by repeat case_match. Qed.

(** A poll that got its response: the watermark is the one [store]
    leaves, the queue is the one [store] leaves less the calls
    [playNextCall] shifted, and nothing else of the controller moves but
    the status text and the audio element. *)
Lemma fetchCalls_resume_fields r paused ended paused_then s :
  let s1 := store (calls_of r) s in
  let s' := fetchCalls_resume r paused ended paused_then s in
  lastCallTime s' = lastCallTime s1 ∧
  (∃ k, callQueue s' = drop k (callQueue s1)) ∧
  isPlaying s' = isPlaying s ∧
  currentFeed s' = currentFeed s ∧ pollTimer s' = pollTimer s ∧
  intervals s' = intervals s ∧ fresh s' = fresh s ∧ inflight s' = inflight s ∧
  ui_state s' = ui_state s ∧ playBtn_playing s' = playBtn_playing s.
Proof.
  unfold fetchCalls_resume.
  destruct r as [| | |data_calls];
    [cbn; split; [done|]; split; [by exists 0|done] ..|].
  cbn [calls_of]. generalize (default [] data_calls). intros calls.
  destruct (store_fields calls s) as (E1 & E2 & E3 & E4 & E5 & E6 & E7 & E8).
  cbn zeta in *. set (s1 := store calls s) in *.
  destruct (isPlaying s1 && (paused || ended)).
  - destruct (playNextCall_fields s1)
      as (Hq & F0 & F1 & F2 & F3 & F4 & F5 & F6 & F7 & F8).
    cbn zeta in *. destruct (playNextCall s1) as [s2|s2]; cbn [state_of] in *;
      [case_match|]; cbn; (split; [congruence|]); (split; [done|]);
      rewrite ?ui_state_setStatus; repeat split; congruence.
  - case_match; cbn; (split; [done|]); (split; [by exists 0|]); by repeat split.
Qed.





Lemma newest_time_spec calls :
  match newest_time calls with
  | Some m =>
      (∃ c, c ∈ calls ∧ time c = Time m) ∧
      (∀ c ms, c ∈ calls → time c = Time ms → (ms ≤ m)%Z)
  | None => ∀ c ms, c ∈ calls → time c ≠ Time ms
  end.
Proof.
  induction calls as [|c calls IH]; cbn [newest_time foldr].
  { intros c ms Hc. by apply elem_of_nil in Hc. }
  fold (newest_time calls).
  destruct (time c) as [| |ms0] eqn:Hc, (newest_time calls) as [m|];
    try (destruct IH as [(c' & Hin & Ht) Hmax]; split;
         [ exists c'; split; [by right|done]
         | intros c'' ms [->|Hin']%elem_of_cons Ht'; [congruence|by eapply Hmax] ]);
    try (intros c'' ms [->|Hin']%elem_of_cons; [congruence|by eapply IH]).
  - destruct IH as [(c' & Hin & Ht) Hmax]. split.
    + destruct (Z.max_spec ms0 m) as [[_ ->]|[_ ->]].
      * exists c'. split; [by right|done].
      * exists c. split; [by left|done].
    + intros c'' ms [->|Hin']%elem_of_cons Ht'.
      * assert (ms = ms0) as -> by congruence. lia.
      * specialize (Hmax _ _ Hin' Ht'). lia.
  - split.
    + exists c. split; [by left|done].
    + intros c'' ms [->|Hin']%elem_of_cons Ht'.
      * assert (ms = ms0) by congruence. lia.
      * by destruct (IH _ _ Hin' Ht').
Qed.

Lemma newest_time_sorted calls T :
  ends_with_newest calls T → newest_time calls = Some T.
Proof.
  intros [(newest & Hlast & Ht) Hle].
  assert (Hin : newest ∈ calls).
  { apply last_Some in Hlast as [l' ->]. apply elem_of_app. right. by left. }
  pose proof (newest_time_spec calls) as Hs.
  destruct (newest_time calls) as [m|].
  - destruct Hs as [(c & Hc & Hm) Hmax].
    specialize (Hmax _ _ Hin Ht). specialize (Hle _ _ Hc Hm).
    f_equal. lia.
  - by destruct (Hs _ _ Hin Ht).
Qed.

(** ** [ScannerPlayer]: the live state *)


Lemma startOpenMHz_fields now s :
  let s' := startOpenMHz now s in
  ui_state s' = ui_on ∧ callQueue s' = [] ∧
  lastCallTime s' = Some (Num (now - 120000)) ∧
  isPlaying s' = isPlaying s ∧ currentFeed s' = currentFeed s ∧
  playBtn_playing s' = playBtn_playing s.
Proof.
  unfold startOpenMHz. cbn zeta.
  match goal with |- context [fetchCalls_send true ?x] =>
    destruct (fetchCalls_send_fields true x) as (-> & -> & -> & -> & -> & ->)
  end.
  done.
Qed.


Lemma stopOpenMHz_fields s :
  let s' := stopOpenMHz s in
  callQueue s' = [] ∧ pollTimer s' = None ∧
  intervals s' = intervals s ∖ from_option singleton ∅ (pollTimer s) ∧
  ui_state s' = ui_state s ∧ isPlaying s' = isPlaying s ∧
  currentFeed s' = currentFeed s ∧ fresh s' = fresh s ∧
  inflight s' = inflight s ∧ lastCallTime s' = lastCallTime s.
Proof.
  unfold stopOpenMHz. destruct (pollTimer s) as [h|] eqn:Hh.
  - by repeat split.
  - repeat split; try done. cbn [callQueue set_callQueue intervals from_option].
    by rewrite difference_empty_L.
Qed.

Lemma resetAudio_fields s :
  let s' := resetAudio s in
  callQueue s' = [] ∧ pollTimer s' = None ∧ audio_src s' = None ∧
  intervals s' = intervals s ∖ from_option singleton ∅ (pollTimer s) ∧
  ui_state s' = ui_state s ∧ isPlaying s' = isPlaying s ∧
  fresh s' = fresh s ∧ inflight s' = inflight s.
Proof.
  destruct (stopOpenMHz_fields s) as (? & ? & ? & ? & ? & ? & ? & ? & ?).
  unfold resetAudio. by repeat split.
Qed.


Lemma is_openmhz_ext s s' :
  currentFeed s' = currentFeed s → is_openmhz s' = is_openmhz s.
Proof. unfold is_openmhz. by intros ->. Qed.





Lemma quiet_fields feeds e s :
  quiet e = true →
  let s' := handle feeds e s in
  currentFeed s' = currentFeed s ∧ isPlaying s' = isPlaying s ∧
  ui_state s' = ui_state s ∧ playBtn_playing s' = playBtn_playing s.
Proof.
  destruct e; try discriminate; intros _; cbn [handle]; cbn zeta.
  - done.
  - unfold onEnded. case_match; [|done].
    destruct (playNextCall_fields s) as (_ & _ & ? & ? & _ & _ & _ & _ & ? & ?).
    done.
  - case_match; [|done].
    destruct (fetchCalls_send_fields false s) as (_ & _ & ? & ? & ? & ?). done.
  - destruct (inflight s !! i) as [rq|]; [|done].
    destruct (fetchCalls_resume_fields r paused ended paused_then
                (set_inflight (delete i (inflight s)) s))
      as (_ & _ & ? & ? & _ & _ & _ & _ & ? & ?).
    by case_match.
  - by repeat case_match.
  - destruct (retryTimeouts s) as [|n]; [done|].
    destruct (playNextCall_fields (set_retryTimeouts n s))
      as (_ & _ & ? & ? & _ & _ & _ & _ & ? & ?).
    done.
Qed.




(** ** [ScannerPlayer]: errors of the audio element *)

Lemma playNextCall_from_plays skipped c rest u f s :
  Forall (λ c, audioUrl c = None) skipped → audioUrl c = Some u →
  currentFeed s = Some f →
  playNextCall_from (skipped ++ c :: rest) s =
  Normal (set_playPromises (S (playPromises s))
            (audio APlay (audio ALoad (set_audio_src (Some u)
               (setStatus (desc f) (set_callQueue rest s)))))).
Proof.
  intros Hsk Hu Hf. induction Hsk as [|c0 skipped Hc0 _ IH]; cbn.
  - by rewrite Hu, Hf.
  - by rewrite Hc0.
Qed.

Lemma playNextCall_from_silent queue s :
  Forall (λ c, audioUrl c = None) queue →
  playNextCall_from queue s =
  Normal (setStatus "Listening for calls..." (set_callQueue [] s)).
Proof.
  induction 1 as [|c0 queue Hc0 _ IH]; cbn; [done|]. by rewrite Hc0.
Qed.

(** C6: on an 'error' event of the audio element, with a call-queue feed
    the handler is [playNextCall]: the first queued call that has an
    audio URL becomes the source and is played (the status text is
    "Listening for calls..." when there is none), and the live state, the
    playing flag and the button are left as they were; with a direct
    stream the status becomes the unavailable message, [isPlaying]
    becomes false and the badge is hidden, with the panel, the bars and
    the button off. *)
Theorem audio_error_advances_or_gives_up s f :
  currentFeed s = Some f →
  let s' := state_of (onError s) in
  match type f with
  | openmhz =>
      onError s = playNextCall s ∧
      ui_state s' = ui_state s ∧ isPlaying s' = isPlaying s ∧
      playBtn_playing s' = playBtn_playing s ∧
      (∀ skipped c rest u,
         callQueue s = skipped ++ c :: rest →
         Forall (λ c, audioUrl c = None) skipped → audioUrl c = Some u →
         callQueue s' = rest ∧ audio_src s' = Some u ∧
         audio_log s' = audio_log s ++ [ALoad; APlay] ∧
         status_text s' = desc f) ∧
      (Forall (λ c, audioUrl c = None) (callQueue s) →
         callQueue s' = [] ∧ audio_src s' = audio_src s ∧
         audio_log s' = audio_log s ∧
         status_text s' = "Listening for calls...")
  | stream =>
      status_text s' = "Stream unavailable — try another city" ∧
      isPlaying s' = false ∧ liveBadge_hidden s' = true ∧
      panel_active s' = false ∧ viz_active s' = false ∧
      playBtn_playing s' = false
  end.
Proof.
  intros Hf s'. subst s'. unfold onError, is_openmhz. rewrite Hf.
  destruct (type f); [done|].
  destruct (playNextCall_fields s) as (_ & _ & Hp & _ & _ & _ & _ & _ & Hu & Hb).
  split; [done|]. split; [done|]. split; [done|]. split; [done|]. split.
  - intros skipped c rest u Hq Hsk Hu'. unfold playNextCall. rewrite Hq.
    rewrite (playNextCall_from_plays skipped c rest u f s Hsk Hu' Hf).
    cbn. by rewrite <- app_assoc.
  - intros Hsil. unfold playNextCall.
    by rewrite (playNextCall_from_silent _ s Hsil).
Qed.

(** ** [ScannerPlayer]: the play button *)

#[local] Arguments stopOpenMHz : simpl never.
#[local] Arguments startOpenMHz : simpl never.

Lemma togglePlay_fields now s f :
  currentFeed s = Some f →
  let s' := togglePlay now s in
  isPlaying s' = negb (isPlaying s) ∧
  playBtn_playing s' = negb (isPlaying s) ∧
  currentFeed s' = Some f ∧
  ui_state s' =
    if isPlaying s then ui_off
    else match type f with openmhz => ui_on | stream => ui_state s end.
Proof.
  intros Hf. unfold togglePlay. rewrite Hf.
  destruct (isPlaying s) eqn:Hp, (type f) eqn:Ht; cbn; try done.
  - destruct (stopOpenMHz_fields s) as (_ & _ & _ & _ & _ & -> & _). done.
  - match goal with |- context [startOpenMHz now ?x] =>
      destruct (startOpenMHz_fields now x) as (-> & _ & _ & -> & -> & ->)
    end. done.
Qed.

(** ** [ScannerPlayer]: polls that fail *)

(** C9: when a poll fails (the fetch is rejected, the response is not
    2xx, or its body is not JSON), [fetchCalls] changes neither the queue
    nor the watermark, neither when it sends the request nor when the
    failure comes back; it only sets the status text.  The intervals that
    were running keep running; the interval of [startOpenMHz] is
    installed when the failed poll was its first one.  The next tick of a
    running interval then sends the request again, with the same time. *)
Theorem failed_poll_changes_nothing feeds i rq r paused ended paused_then s :
  failed r = true → inflight s !! i = Some rq →
  let s1 := fetchCalls_resume r paused ended paused_then s in
  let s' := handle feeds (FetchSettled i r paused ended paused_then) s in
  (callQueue s1 = callQueue s ∧ lastCallTime s1 = lastCallTime s ∧
   pollTimer s1 = pollTimer s ∧ intervals s1 = intervals s ∧
   status_text s1 = "Listening for calls...") ∧
  callQueue s' = callQueue s ∧ lastCallTime s' = lastCallTime s ∧
  (if awaited rq
   then pollTimer s' = Some (fresh s) ∧ intervals s' = {[fresh s]} ∪ intervals s
   else pollTimer s' = pollTimer s ∧ intervals s' = intervals s) ∧
  (∀ h, h ∈ intervals s → h ∈ intervals s') ∧
  (∀ from_start x,
     callQueue (fetchCalls_send from_start x) = callQueue x ∧
     lastCallTime (fetchCalls_send from_start x) = lastCallTime x) ∧
  (∀ h f, h ∈ intervals s' → currentFeed s = Some f → type f = openmhz →
     inflight (handle feeds (PollTick h) s') =
     delete i (inflight s) ++
     [{| req_system := system f; req_time := timeParam s; awaited := false |}]).
Proof.
  intros Hr Hi s1 s'. subst s1 s'. cbn [handle]. rewrite Hi. cbn zeta.
  assert (Hres : ∀ x, fetchCalls_resume r paused ended paused_then x =
                      setStatus "Listening for calls..." x)
    by (intros x; by destruct r).
  rewrite !Hres. split; [done|].
  assert (Hsend : ∀ from_start x,
            callQueue (fetchCalls_send from_start x) = callQueue x ∧
            lastCallTime (fetchCalls_send from_start x) = lastCallTime x).
  { intros b x. destruct (fetchCalls_send_fields b x) as (? & ? & _). done. }
  destruct (awaited rq).
  - split; [done|]. split; [done|]. split; [done|]. split; [|split; [done|]].
    + intros h Hh. apply elem_of_union. by right.
    + intros h f Hh Hf Ht. rewrite decide_True by done.
      unfold fetchCalls_send. cbn. by rewrite Hf, Ht.
  - split; [done|]. split; [done|]. split; [done|]. split; [done|].
    split; [done|].
    intros h f Hh Hf Ht. rewrite decide_True by done.
    unfold fetchCalls_send. cbn. by rewrite Hf, Ht.
Qed.

(** ** [ScannerPlayer]: tearing down on a feed change *)

#[local] Arguments resetAudio : simpl never.

(** What [onFeedChange] does tear down: the queue, the audio source and
    the interval [pollTimer] remembers.  When that is the only interval
    running, none is left when the new feed starts. *)
Lemma onFeedChange_clears_remembered_poller feeds idx now s :
  let s0 := resetAudio s in
  let s' := state_of (onFeedChange feeds idx now s) in
  (callQueue s0 = [] ∧ audio_src s0 = None ∧ pollTimer s0 = None) ∧
  callQueue s' = [] ∧ pollTimer s' = None ∧
  intervals s' = intervals s ∖ from_option singleton ∅ (pollTimer s) ∧
  (intervals s ⊆ from_option singleton ∅ (pollTimer s) → intervals s' = ∅).
Proof.
  destruct (resetAudio_fields s) as (Hq & Hp & Ha & Hi & _). cbn zeta in *.
  split; [done|].
  assert (Hs' : callQueue (state_of (onFeedChange feeds idx now s)) = [] ∧
                pollTimer (state_of (onFeedChange feeds idx now s)) = None ∧
                intervals (state_of (onFeedChange feeds idx now s)) =
                intervals (resetAudio s)).
  { unfold onFeedChange, startOpenMHz, fetchCalls_send. cbn.
    destruct (feeds !! idx) as [f|]; [|done].
    cbn. by destruct (type f) eqn:Ht; cbn; rewrite ?Ht. }
  destruct Hs' as (-> & -> & ->). rewrite Hi.
  repeat split. by apply subseteq_empty_difference_L.
Qed.

(** When the poll [startOpenMHz] awaits is answered, whatever the answer,
    [startOpenMHz] installs a new interval and overwrites [pollTimer]; it
    cancels nothing. *)
Lemma awaited_poll_installs_interval feeds i rq r paused ended paused_then s :
  inflight s !! i = Some rq → awaited rq = true →
  let s' := handle feeds (FetchSettled i r paused ended paused_then) s in
  intervals s' = {[fresh s]} ∪ intervals s ∧ pollTimer s' = Some (fresh s) ∧
  fresh s' = Pos.succ (fresh s) ∧ inflight s' = delete i (inflight s).
Proof.
  intros Hi Ha. cbn [handle]. rewrite Hi, Ha. cbn zeta.
  destruct (fetchCalls_resume_fields r paused ended paused_then
              (set_inflight (delete i (inflight s)) s))
    as (_ & _ & _ & _ & _ & Hint & Hfr & Hfl & _).
  cbn zeta in *. unfold setInterval. cbn. by rewrite Hint, Hfr, Hfl.
Qed.

(** The two pollers do not depend on the page, on the times of the two
    selections or on what the API answers: after any two selections of
    an OpenMHz feed in a row and the two answers, intervals 1 and 2 both
    run, and interval 1 outlives every later feed change. *)
Lemma two_pollers_whatever_the_answers p t0 t1 r1 a1 b1 c1 r2 a2 b2 c2 :
  let s2 := run SCANNER_FEEDS [FeedChange 0 t0; FeedChange 1 t1] (constructor p) in
  let s4 := run SCANNER_FEEDS
              [FetchSettled 0 r1 a1 b1 c1; FetchSettled 0 r2 a2 b2 c2] s2 in
  intervals s2 = ∅ ∧
  intervals s4 = {[1%positive; 2%positive]} ∧ size (intervals s4) = 2 ∧
  pollTimer s4 = Some 2%positive ∧
  ∀ idx now, 1%positive ∈ intervals (handle SCANNER_FEEDS (FeedChange idx now) s4).
Proof.
  intros s2 s4.
  assert (H2 : intervals s2 = ∅ ∧ fresh s2 = 1%positive ∧
               inflight s2 =
               [ {| req_system := Some "ntirnd1"; req_time := Num (t0 - 120000);
                    awaited := true |};
                 {| req_system := Some "sfp25"; req_time := Num (t1 - 120000);
                    awaited := true |} ]) by done.
  destruct H2 as (Hi2 & Hf2 & Hq2).
  subst s4. cbn [run fold_left]. clearbody s2.
  assert (Hl2 : inflight s2 !! 0 =
                Some {| req_system := Some "ntirnd1"; req_time := Num (t0 - 120000);
                        awaited := true |}) by (by rewrite Hq2).
  destruct (awaited_poll_installs_interval SCANNER_FEEDS 0 _ r1 a1 b1 c1 s2 Hl2 eq_refl)
    as (Hi3 & _ & Hf3 & Hq3).
  cbn zeta in Hi3, Hf3, Hq3.
  set (s3 := handle SCANNER_FEEDS (FetchSettled 0 r1 a1 b1 c1) s2) in *.
  clearbody s3. rewrite Hi2, Hf2 in Hi3. rewrite Hf2 in Hf3. rewrite Hq2 in Hq3.
  assert (Hl3 : inflight s3 !! 0 =
                Some {| req_system := Some "sfp25"; req_time := Num (t1 - 120000);
                        awaited := true |}) by (by rewrite Hq3).
  destruct (awaited_poll_installs_interval SCANNER_FEEDS 0 _ r2 a2 b2 c2 s3 Hl3 eq_refl)
    as (Hi4 & Hp4 & _).
  cbn zeta in Hi4, Hp4.
  set (s4 := handle SCANNER_FEEDS (FetchSettled 0 r2 a2 b2 c2) s3) in *.
  clearbody s4. rewrite Hi3, Hf3 in Hi4. rewrite Hf3 in Hp4.
  assert (Hi4' : intervals s4 = {[1%positive; 2%positive]}).
  { rewrite Hi4. apply set_eq. intros h. set_solver. }
  split; [done|]. split; [done|]. split; [by rewrite Hi4'|]. split; [done|].
  intros idx now.
  destruct (onFeedChange_clears_remembered_poller SCANNER_FEEDS idx now s4)
    as (_ & _ & _ & Hi5 & _).
  cbn [handle]. cbn zeta in Hi5. rewrite Hi5, Hi4', Hp4. cbn. set_solver.
Qed.

(** C1 fails on the code.  Dallas is selected and, before its first poll
    has been answered, San Francisco is selected: [pollTimer] is still
    null at the second selection, so nothing is cancelled, and when the
    two polls are answered each [startOpenMHz] installs its interval.
    Two intervals poll side by side; the first one is remembered nowhere,
    and the next feed change cancels only the second. *)
Theorem feed_change_during_first_fetch_starts_two_pollers :
  let answer := FetchSettled 0 (Json (Some [])) true false true in
  let s1 := run SCANNER_FEEDS [FeedChange 0 1700000000000] (constructor idle_page) in
  let s2 := handle SCANNER_FEEDS (FeedChange 1 1700000003000) s1 in
  let s4 := run SCANNER_FEEDS [answer; answer] s2 in
  let s5 := handle SCANNER_FEEDS (FeedChange 0 1700000060000) s4 in
  (pollTimer s1 = None ∧ intervals s1 = ∅ ∧ length (inflight s1) = 1) ∧
  (intervals s2 = ∅ ∧ length (inflight s2) = 2) ∧
  (intervals s4 = {[1%positive; 2%positive]} ∧ size (intervals s4) = 2 ∧
   pollTimer s4 = Some 2%positive) ∧
  (intervals s5 = {[1%positive]} ∧ pollTimer s5 = None).
Proof. vm_compute. by repeat split. Qed.

(** ** Runs of the controller *)

(** C2, as the code has it by design.  After a successful poll whose
    array is in ascending order of time and ends with a call whose time
    stamp Date can parse, the watermark is the time stamp of the newest
    call of the batch plus 1 ms; every call of the batch is older than the
    time the next poll sends, which is that watermark, so that poll does
    not bring them again.  When no call of the array carries a time stamp
    the watermark stays as it was.  The answer does not touch the
    requests already in flight, which keep the time they were sent with,
    and [startOpenMHz] puts the watermark back to two minutes before the
    present. *)
Theorem watermark_after_ordered_batch calls paused ended paused_then s :
  let s' := fetchCalls_resume (Json (Some calls)) paused ended paused_then s in
  (∀ T, ends_with_newest calls T →
     newest_time calls = Some T ∧
     lastCallTime s' = Some (Num (T + 1)) ∧
     (∀ c, c ∈ calls → asked_again s' c = false) ∧
     (∀ f, currentFeed s' = Some f → type f = openmhz →
        inflight (fetchCalls_send false s') =
        inflight s' ++
        [{| req_system := system f; req_time := Num (T + 1); awaited := false |}])) ∧
  ((∀ c, c ∈ calls → time c = NoTime) → lastCallTime s' = lastCallTime s) ∧
  inflight s' = inflight s ∧
  (∀ now, timeParam (startOpenMHz now s') = Num (now - 120000)).
Proof.
  intros s'.
  destruct (fetchCalls_resume_fields (Json (Some calls)) paused ended paused_then s)
    as (Hw & _ & _ & _ & _ & _ & _ & Hi & _).
  cbn zeta in Hw, Hi. fold s' in Hw, Hi. cbn [calls_of default from_option id] in Hw.
  rewrite store_lastCallTime in Hw. clearbody s'.
  split; [|split; [|split; [done|]]].
  - intros T Hsorted. split; [by apply newest_time_sorted|].
    destruct Hsorted as [(newest & Hlast & Ht) Hle].
    rewrite Hlast, Ht in Hw. split; [done|]. split.
    + intros c Hc. unfold asked_again, timeParam. rewrite Hw.
      destruct (time c) as [| |ms] eqn:Hc'; try done.
      specialize (Hle _ _ Hc Hc'). apply Z.leb_gt. lia.
    + intros f Hf Hty. unfold fetchCalls_send, timeParam. by rewrite Hf, Hty, Hw.
  - intros Hno. rewrite Hw. destruct (last calls) as [newest|] eqn:Hlast; [|done].
    rewrite (Hno newest); [done|].
    apply last_Some in Hlast as [l' ->]. apply elem_of_app. right. by left.
  - intros now. unfold timeParam.
    by destruct (startOpenMHz_fields now s') as (_ & _ & -> & _).
Qed.

(** C2 as stated fails.  Dallas is selected at 1700000000000 and its first
    poll is answered.  The interval then ticks twice before the API
    answers, so both requests ask for the calls after the same time; both
    are answered with the same two calls, in order of time.  After the
    first answer the watermark is the newest time stamp plus 1 ms, and
    after the second the queue holds the calls a second time.  A stop and
    a start of the player ten seconds later put the watermark before the
    newest call, which the next poll asks for again.  And a batch whose
    only call carries no time stamp leaves the watermark where
    [startOpenMHz] put it. *)
Lemma calls_are_fetched_twice :
  let early := a_call 5 (Time 1699999900000) in
  let late := a_call 5 (Time 1699999950000) in
  let untimed := a_call 5 NoTime in
  let batch := Json (Some [early; late]) in
  let s0 := run SCANNER_FEEDS
              [FeedChange 0 1700000000000;
               FetchSettled 0 (Json (Some [])) true false true]
              (constructor idle_page) in
  let s1 := run SCANNER_FEEDS [PollTick 1; PollTick 1] s0 in
  let s2 := handle SCANNER_FEEDS (FetchSettled 0 batch true false false) s1 in
  let s3 := handle SCANNER_FEEDS (FetchSettled 0 batch false false false) s2 in
  let s4 := run SCANNER_FEEDS [PlayClick 1700000020000; PlayClick 1700000025000] s2 in
  let s5 := handle SCANNER_FEEDS
              (FetchSettled 0 (Json (Some [untimed])) true false false)
              (run SCANNER_FEEDS [PollTick 1] s0) in
  (newest_time [early; late] = Some 1699999950000%Z ∧
   req_time <$> inflight s1 = [Num 1699999880000; Num 1699999880000] ∧
   lastCallTime s2 = Some (Num (1699999950000 + 1)) ∧
   audio_src s2 = audioUrl early ∧ callQueue s2 = [late] ∧
   callQueue s3 = [late; early; late]) ∧
  (lastCallTime s4 = Some (Num 1699999905000) ∧
   req_time <$> inflight s4 = [Num 1699999880000; Num 1699999905000] ∧
   asked_again s4 late = true) ∧
  (newest_time [untimed] = None ∧
   lastCallTime s5 = Some (Num (1700000000000 - 120000))).
Proof. vm_compute. repeat split; try reflexivity; discriminate. Qed.

Lemma watermark_after_ordered_batch_witness :
  let s := run SCANNER_FEEDS [FeedChange 0 1700000000000] (constructor idle_page) in
  let early := a_call 5 (Time 1699999900000) in
  let late := a_call 5 (Time 1699999950000) in
  let s' := fetchCalls_resume (Json (Some [early; late])) true false false s in
  ends_with_newest [early; late] 1699999950000 ∧
  lastCallTime s' = Some (Num (1699999950000 + 1)) ∧
  (∀ c, c ∈ [early; late] → asked_again s' c = false) ∧
  ((∀ c, c ∈ [a_call 5 NoTime] → time c = NoTime) ∧
   lastCallTime (fetchCalls_resume (Json (Some [a_call 5 NoTime])) true false false s) =
   lastCallTime s).
Proof.
  intros s early late s'.
  assert (Hsorted : ends_with_newest [early; late] 1699999950000).
  { split; [by exists late|].
    intros c ms Hc Ht.
    apply elem_of_cons in Hc as [->|Hc];
      [|apply elem_of_cons in Hc as [->|Hc]; [|by apply elem_of_nil in Hc]];
      injection Ht as <-; lia. }
  assert (Hno : ∀ c, c ∈ [a_call 5 NoTime] → time c = NoTime).
  { intros c Hc. apply elem_of_cons in Hc as [->|Hc]; [reflexivity|].
    by apply elem_of_nil in Hc. }
  destruct (watermark_after_ordered_batch [early; late] true false false s)
    as [H _].
  destruct (watermark_after_ordered_batch [a_call 5 NoTime] true false false s)
    as (_ & K & _).
  destruct (H _ Hsorted) as (_ & Hw & Ha & _).
  split; [exact Hsorted|]. split; [exact Hw|]. split; [exact Ha|].
  split; [exact Hno|exact (K Hno)].
Defined.

Lemma audio_error_advances_or_gives_up_witness :
  let queued :=
    run SCANNER_FEEDS
      [FeedChange 0 1700000000000;
       FetchSettled 0 (Json (Some [a_call 5 (Time 1699999900000);
                                   a_call 10 (Time 1699999950000)]))
         false false false]
      (constructor idle_page) in
  let streaming :=
    run [a_stream_feed] [FeedChange 0 1700000000000; AudioPlaying]
      (constructor idle_page) in
  (audio_src (state_of (onError queued)) = Some "https://media.openmhz.com/call.m4a" ∧
   callQueue (state_of (onError queued)) = [a_call 10 (Time 1699999950000)] ∧
   ui_state (state_of (onError queued)) = ui_state queued) ∧
  (status_text (state_of (onError streaming)) = "Stream unavailable — try another city" ∧
   isPlaying (state_of (onError streaming)) = false ∧
   liveBadge_hidden (state_of (onError streaming)) = true).
Proof.
  intros queued streaming. split.
  - assert (Hf : currentFeed queued = SCANNER_FEEDS !! 0) by reflexivity.
    pose proof (audio_error_advances_or_gives_up queued _ Hf) as H.
    cbn [type lookup list_lookup SCANNER_FEEDS] in H.
    destruct H as (_ & Hu & _ & _ & Hplay & _).
    destruct (Hplay [] (a_call 5 (Time 1699999900000))
                [a_call 10 (Time 1699999950000)] _ eq_refl (Forall_nil_2 _) eq_refl)
      as (Hq & Hsrc & _).
    split; [exact Hsrc|]. split; [exact Hq|exact Hu].
  - assert (Hf : currentFeed streaming = Some a_stream_feed) by reflexivity.
    pose proof (audio_error_advances_or_gives_up streaming _ Hf) as H.
    cbn [type a_stream_feed] in H.
    destruct H as (Hs & Hp & Hl & _).
    split; [exact Hs|]. split; [exact Hp|exact Hl].
Defined.

(** While no call-queue feed is selected and the live state is off, it
    stays off under every event but 'playing' and the selection of a
    call-queue feed. *)
Lemma off_stays_off feeds e s :
  activates feeds e = false →
  is_openmhz s = false → ui_state s = ui_off →
  is_openmhz (handle feeds e s) = false ∧ ui_state (handle feeds e s) = ui_off.
Proof.
  intros He Ho Hu.
  destruct (quiet e) eqn:Hq.
  { destruct (quiet_fields feeds e s Hq) as (Hf & _ & Hu' & _). cbn zeta in *.
    by rewrite (is_openmhz_ext s _ Hf), Hu'. }
  destruct e; try discriminate; cbn [handle].
  - (* a selection *)
    cbn [activates] in He.
    destruct (resetAudio_fields s) as (_ & _ & _ & _ & Hui & _). cbn zeta in Hui.
    unfold onFeedChange. cbn [currentFeed set_playBtn_disabled set_currentFeed].
    destruct (feeds !! idx) as [f|] eqn:Hf; cbn [state_of].
    + destruct (type f) eqn:Ht; [|discriminate].
      split; [|by rewrite <- Hu, <- Hui].
      unfold is_openmhz. cbn. by rewrite Ht.
    + split; [done|]. by rewrite <- Hu, <- Hui.
  - (* the play button *)
    unfold is_openmhz in Ho.
    destruct (currentFeed s) as [f|] eqn:Hf.
    + destruct (togglePlay_fields now s f Hf) as (_ & _ & Hf' & Hu').
      cbn zeta in *. split; [unfold is_openmhz; by rewrite Hf'|].
      rewrite Hu'. destruct (type f); [|discriminate]. by destruct (isPlaying s).
    + unfold togglePlay. rewrite Hf. split; [unfold is_openmhz; by rewrite Hf|done].
  - (* 'error' *)
    unfold onError. rewrite Ho. cbn [state_of]. split; [|done].
    by rewrite (is_openmhz_ext s).
  - (* 'pause' *)
    unfold onPause. rewrite Ho. cbn. split; [|done]. by rewrite (is_openmhz_ext s).
Qed.

Lemma off_stays_off_run feeds es : ∀ s,
  Forall (λ e, activates feeds e = false) es →
  is_openmhz s = false → ui_state s = ui_off →
  ui_state (run feeds es s) = ui_off.
Proof.
  induction es as [|e es IH]; intros s Hes Ho Hu; [done|].
  apply Forall_cons in Hes as [He Hes].
  destruct (off_stays_off feeds e s He Ho Hu) as [Ho' Hu'].
  cbn. by apply IH.
Qed.

(** C7, as the code has it: two calls of [togglePlay] in a row, with a
    feed selected, bring [isPlaying] back to its value before the first
    call and leave the feed selected; the class of the button ends equal
    to that flag, and so is as before whenever it agreed with the flag.
    The live state after them does not depend on what it was before.
    With a call-queue feed it is on if the controller was playing and off
    if not, and so is as before whenever it agreed with [isPlaying].
    With a direct stream it is off: a 'playing' event of the audio
    element turns it on again, and it stays off under every run of events
    that holds neither a 'playing' event nor the selection of a
    call-queue feed. *)
Theorem togglePlay_twice feeds now1 now2 s f :
  currentFeed s = Some f →
  let s2 := togglePlay now2 (togglePlay now1 s) in
  isPlaying s2 = isPlaying s ∧
  playBtn_playing s2 = isPlaying s ∧
  (playBtn_playing s = isPlaying s → playBtn_playing s2 = playBtn_playing s) ∧
  currentFeed s2 = Some f ∧
  match type f with
  | openmhz =>
      ui_state s2 = (if isPlaying s then ui_on else ui_off) ∧
      (ui_state s = (if isPlaying s then ui_on else ui_off) →
       ui_state s2 = ui_state s)
  | stream =>
      ui_state s2 = ui_off ∧
      ui_state (handle feeds AudioPlaying s2) = ui_on ∧
      ∀ es, Forall (λ e, activates feeds e = false) es →
            ui_state (run feeds es s2) = ui_off
  end.
Proof.
  intros Hf s2. subst s2.
  destruct (togglePlay_fields now1 s f Hf) as (Hp1 & _ & Hf1 & Hu1).
  destruct (togglePlay_fields now2 _ f Hf1) as (Hp2 & Hb2 & Hf2 & Hu2).
  cbn zeta in *. rewrite Hp1 in Hp2, Hb2, Hu2. rewrite Hu1 in Hu2.
  rewrite negb_involutive in Hp2, Hb2.
  split; [done|]. split; [done|]. split; [by intros ->|]. split; [done|].
  set (s2 := togglePlay now2 (togglePlay now1 s)) in *. clearbody s2.
  destruct (type f) eqn:Ht.
  - assert (Hoff : ui_state s2 = ui_off) by (rewrite Hu2; by destruct (isPlaying s)).
    split; [done|]. split; [done|].
    intros es Hes. apply off_stays_off_run; [done| |done].
    unfold is_openmhz. by rewrite Hf2, Ht.
  - assert (Hon : ui_state s2 = if isPlaying s then ui_on else ui_off)
      by (rewrite Hu2; by destruct (isPlaying s)).
    split; [done|]. intros ->. done.
Qed.

(** C7 as stated fails.  A direct stream is selected and starts playing:
    the live state is on.  Two clicks on the play button later the
    controller is playing again but the live state is off. *)
Lemma togglePlay_twice_loses_live_state :
  let s := run [a_stream_feed] [FeedChange 0 1700000000000; AudioPlaying]
             (constructor idle_page) in
  let s2 := togglePlay 1700000020000 (togglePlay 1700000010000 s) in
  currentFeed s = Some a_stream_feed ∧ isPlaying s = true ∧ ui_state s = ui_on ∧
  isPlaying s2 = true ∧ ui_state s2 = ui_off ∧ ui_state s2 ≠ ui_state s.
Proof. vm_compute. repeat split; try reflexivity; discriminate. Qed.

Lemma togglePlay_twice_witness :
  let s := run SCANNER_FEEDS [FeedChange 0 1700000000000] (constructor idle_page) in
  let s2 := togglePlay 1700000020000 (togglePlay 1700000010000 s) in
  let t := run [a_stream_feed] [FeedChange 0 1700000000000; AudioPlaying]
             (constructor idle_page) in
  let t2 := togglePlay 1700000020000 (togglePlay 1700000010000 t) in
  let es := [AudioPause; AudioWaiting; PlayClick 1700000030000;
             PlayClick 1700000040000] in
  (currentFeed s = SCANNER_FEEDS !! 0 ∧
   isPlaying s2 = isPlaying s ∧ ui_state s = ui_on ∧ ui_state s2 = ui_state s) ∧
  (currentFeed t = Some a_stream_feed ∧
   Forall (λ e, activates [a_stream_feed] e = false) es ∧
   isPlaying t2 = isPlaying t ∧ ui_state t2 = ui_off ∧
   ui_state (run [a_stream_feed] es t2) = ui_off ∧
   ui_state (handle [a_stream_feed] AudioPlaying t2) = ui_on).
Proof.
  intros s s2 t t2 es.
  assert (Hf : currentFeed s = SCANNER_FEEDS !! 0) by reflexivity.
  assert (Hu : ui_state s = ui_on) by reflexivity.
  assert (Hg : currentFeed t = Some a_stream_feed) by reflexivity.
  assert (Hes : Forall (λ e, activates [a_stream_feed] e = false) es)
    by (repeat constructor).
  destruct (togglePlay_twice SCANNER_FEEDS 1700000010000 1700000020000 s _ Hf)
    as (Hp & _ & _ & _ & H).
  destruct (togglePlay_twice [a_stream_feed] 1700000010000 1700000020000 t _ Hg)
    as (Hq & _ & _ & _ & K).
  cbn [type a_stream_feed] in K. destruct K as (K1 & K2 & K3).
  split.
  - split; [exact Hf|]. split; [exact Hp|]. split; [exact Hu|].
    exact (proj2 H Hu).
  - split; [exact Hg|]. split; [exact Hes|]. split; [exact Hq|].
    split; [exact K1|]. split; [exact (K3 es Hes)|exact K2].
Defined.



Lemma failed_poll_changes_nothing_witness :
  let s := run SCANNER_FEEDS
             [FeedChange 0 1700000000000;
              FetchSettled 0 (Json (Some [a_call 5 (Time 1699999900000)]))
                false false false;
              PollTick 1]
             (constructor idle_page) in
  let s' := handle SCANNER_FEEDS (FetchSettled 0 (NotOk 503) true false true) s in
  failed (NotOk 503) = true ∧ length (inflight s) = 1 ∧
  callQueue s' = callQueue s ∧ lastCallTime s' = lastCallTime s ∧
  (1%positive ∈ intervals s → 1%positive ∈ intervals s').
Proof.
  intros s s'.
  assert (Hr : failed (NotOk 503) = true) by reflexivity.
  assert (Hi : inflight s !! 0 =
               Some {| req_system := Some "ntirnd1";
                       req_time := Num 1699999900001; awaited := false |})
    by reflexivity.
  destruct (failed_poll_changes_nothing SCANNER_FEEDS 0 _ (NotOk 503)
              true false true s Hr Hi) as (_ & Hq & Hw & _ & Hk & _).
  split; [exact Hr|]. split; [reflexivity|]. split; [exact Hq|].
  split; [exact Hw|exact (Hk 1%positive)].
Defined.

End ScannerFacts.

(** * More of the code

    Properties of the parts of [src/app.js] that the statements above do
    not reach: which orders the shuffle can produce, the timers and the
    listeners of the scanner, the order in which the queue is played, and
    the binding, the navigation and the mode switch of the ambient
    player. *)

(** ** [shuffleIndices]: the orders it produces *)

Section ShuffleReach.

Lemma shuffle_loop_ext (r1 r2 : nat → nat) i l k :
  (∀ m, k ≤ m < k + i → r1 m = r2 m) →
  shuffle_loop r1 i l k = shuffle_loop r2 i l k.
Proof.
  revert l k. induction i as [|i IH]; intros l k H; cbn [shuffle_loop]; [done|].
  unfold randomIndex. rewrite (H k) by lia. apply IH. intros m Hm. apply H. lia.
Qed.

Lemma same_tail_same_head (l t : list nat) :
  t ≡ₚ l → drop 1 t = drop 1 l → t = l.
Proof.
  intros Hp Hd. destruct l as [|x l], t as [|y t]; try done.
  - symmetry in Hp. by apply Permutation_nil_cons in Hp.
  - by apply Permutation_nil_cons in Hp.
  - cbn in Hd. rewrite drop_0 in Hd. rewrite !drop_0 in Hd. subst t.
    apply (Permutation_app_inv_r l [y] [x]) in Hp.
    apply Permutation_singleton_l in Hp. congruence.
Qed.

Lemma shuffle_loop_reaches i : ∀ (l t : list nat) k,
  i ≤ length l - 1 → t ≡ₚ l → drop (S i) t = drop (S i) l →
  ∃ random, (shuffle_loop random i l k).1 = t.
Proof.
  induction i as [|i IH]; intros l t k Hi Hp Hd.
  { exists (λ _, 0). cbn. symmetry. by apply same_tail_same_head. }
  assert (Hlen : length t = length l) by (by rewrite Hp).
  destruct (lookup_lt_is_Some_2 t (S i)) as [x Hx]; [lia|].
  destruct (lookup_lt_is_Some_2 l (S i)) as [a Ha]; [lia|].
  assert (Htk : take (S (S i)) t ≡ₚ take (S (S i)) l).
  { apply (Permutation_app_inv_r (drop (S (S i)) l)).
    rewrite <- Hd at 1. by rewrite !take_drop. }
  assert (Hin : x ∈ take (S (S i)) l).
  { rewrite <- Htk. apply list_elem_of_lookup. exists (S i).
    rewrite lookup_take_lt by lia. done. }
  apply list_elem_of_lookup in Hin as [j Hj].
  assert (Hjlt : j < S (S i)).
  { apply lookup_lt_Some in Hj. rewrite length_take in Hj. lia. }
  rewrite lookup_take_lt in Hj by lia.
  set (l' := swap l (S i) j).
  assert (Hl' : l' = <[j:=a]> (<[S i:=x]> l)) by (unfold l', swap; by rewrite Ha, Hj).
  assert (Hp' : t ≡ₚ l') by (unfold l'; by rewrite swap_Permutation).
  assert (Hat : l' !! S i = Some x).
  { rewrite Hl'. destruct (decide (j = S i)) as [->|Hne].
    - rewrite list_lookup_insert_eq by (rewrite length_insert; lia). congruence.
    - rewrite list_lookup_insert_ne by done.
      apply list_lookup_insert_eq. lia. }
  assert (Hd' : drop (S i) t = drop (S i) l').
  { rewrite (drop_S t x (S i) Hx), (drop_S l' x (S i) Hat). f_equal.
    rewrite Hd, Hl'. by rewrite !drop_insert_lt by lia. }
  destruct (IH l' t (S k)) as [r' Hr']; [|done|done|].
  { unfold l'. rewrite swap_length. lia. }
  exists (λ m, if decide (m = k) then j else r' m).
  cbn [shuffle_loop]. unfold randomIndex. rewrite decide_True by done.
  replace (j `mod` (S i + 1)) with j by (symmetry; apply Nat.mod_small; lia).
  fold l'. rewrite <- Hr'. f_equal. apply shuffle_loop_ext.
  intros m Hm. by rewrite decide_False by lia.
Qed.

(** X1: [shuffleIndices] can return every order: for every permutation of
    the indices [0 .. count) there are values of [Math.random] for which
    [shuffleIndices(count)] returns exactly that permutation. *)
Theorem shuffleIndices_reaches_every_order count (t : list nat) k :
  t ≡ₚ seq 0 count → ∃ random, (shuffleIndices random count k).1 = t.
Proof.
  intros Hp. unfold shuffleIndices. apply shuffle_loop_reaches; [done|done|].
  assert (length t = count) by (by rewrite Hp, length_seq).
  rewrite !drop_ge; [done|rewrite !length_seq; lia|rewrite !length_seq; lia].
Qed.

Lemma shuffle_loop_same_picks (r1 r2 : nat → nat) i : ∀ l k,
  (∀ m, m < i → randomIndex r1 (k + m) (i - m + 1) = randomIndex r2 (k + m) (i - m + 1)) →
  shuffle_loop r1 i l k = shuffle_loop r2 i l k.
Proof.
  induction i as [|i IH]; intros l k H; cbn [shuffle_loop]; [done|].
  pose proof (H 0 ltac:(lia)) as H0.
  rewrite Nat.add_0_r, Nat.sub_0_r in H0. rewrite H0.
  apply IH. intros m Hm. specialize (H (S m) ltac:(lia)).
  by replace (k + S m) with (S k + m) in H by lia.
Qed.

Lemma shuffle_loop_keeps_tail (r : nat → nat) i : ∀ l k p,
  i < p → (shuffle_loop r i l k).1 !! p = l !! p.
Proof.
  induction i as [|i IH]; intros l k p Hp; cbn [shuffle_loop]; [done|].
  rewrite IH by lia. unfold swap.
  pose proof (randomIndex_le r k (S i)).
  repeat case_match; try done.
  rewrite !list_lookup_insert_ne by lia. done.
Qed.

Lemma swap_lookup (l : list nat) i j :
  i < length l → j < length l → swap l i j !! i = l !! j.
Proof.
  intros Hi Hj. unfold swap.
  destruct (lookup_lt_is_Some_2 l i Hi) as [a Ha].
  destruct (lookup_lt_is_Some_2 l j Hj) as [b Hb].
  rewrite Ha, Hb. destruct (decide (i = j)) as [->|Hne].
  - rewrite list_lookup_insert_eq by (by rewrite length_insert). congruence.
  - rewrite list_lookup_insert_ne by done.
    by rewrite list_lookup_insert_eq.
Qed.

Lemma shuffle_loop_picks (r1 r2 : nat → nat) i : ∀ l k,
  NoDup l → i < length l →
  (shuffle_loop r1 i l k).1 = (shuffle_loop r2 i l k).1 →
  ∀ m, m < i → randomIndex r1 (k + m) (i - m + 1) = randomIndex r2 (k + m) (i - m + 1).
Proof.
  induction i as [|i IH]; intros l k Hnd Hi Heq m Hm; [lia|].
  cbn [shuffle_loop] in Heq.
  pose proof (randomIndex_le r1 k (S i)) as H1.
  pose proof (randomIndex_le r2 k (S i)) as H2.
  assert (Hj : randomIndex r1 k (S i + 1) = randomIndex r2 k (S i + 1)).
  { pose proof (f_equal (λ t, t !! S i) Heq) as E. cbn beta in E.
    rewrite !shuffle_loop_keeps_tail in E by lia.
    rewrite !swap_lookup in E by lia.
    destruct (lookup_lt_is_Some_2 l (randomIndex r1 k (S i + 1))) as [x Hx]; [lia|].
    rewrite Hx in E. symmetry in E.
    by apply (NoDup_lookup l _ _ x). }
  destruct m as [|m].
  { by rewrite Nat.add_0_r, Nat.sub_0_r. }
  replace (k + S m) with (S k + m) by lia.
  change (S i - S m) with (i - m).
  apply (IH (swap l (S i) (randomIndex r1 k (S i + 1))) (S k)); [| |by rewrite Hj at 2|lia].
  - by rewrite swap_Permutation.
  - rewrite swap_length. lia.
Qed.

(** X2: [shuffleIndices(count)] draws [count - 1] random values, and two
    runs return the same order if and only if they picked the same index
    [j] in every iteration: the order depends on nothing but the picks, and
    different picks never meet in the same order. *)
Theorem shuffleIndices_order_tells_the_picks (r1 r2 : nat → nat) count k :
  (shuffleIndices r1 count k).2 = k + (count - 1) ∧
  ((shuffleIndices r1 count k).1 = (shuffleIndices r2 count k).1 ↔
   ∀ m, m < count - 1 →
     randomIndex r1 (k + m) (count - 1 - m + 1) =
     randomIndex r2 (k + m) (count - 1 - m + 1)).
Proof.
  split; [apply shuffleIndices_draws|].
  unfold shuffleIndices. rewrite length_seq. split.
  - intros Heq m Hm.
    apply (shuffle_loop_picks r1 r2 (count - 1) (seq 0 count) k); try done.
    + apply NoDup_seq.
    + rewrite length_seq. lia.
  - intros H. by rewrite (shuffle_loop_same_picks r1 r2).
Qed.

End ShuffleReach.

Lemma shuffleIndices_reaches_every_order_witness :
  [2; 0; 1] ≡ₚ seq 0 3 ∧ ∃ random, (shuffleIndices random 3 0).1 = [2; 0; 1].
Proof.
  assert (Hp : [2; 0; 1] ≡ₚ seq 0 3) by (by apply (bool_decide_unpack _)).
  split; [exact Hp|].
  exact (shuffleIndices_reaches_every_order 3 [2; 0; 1] 0 Hp).
Defined.

Lemma shuffleIndices_order_tells_the_picks_witness :
  let r1 := λ m : nat, m + 1 in
  let r2 := λ m : nat, m + 7 in
  (∀ m, m < 3 - 1 →
     randomIndex r1 (0 + m) (3 - 1 - m + 1) = randomIndex r2 (0 + m) (3 - 1 - m + 1)) ∧
  (shuffleIndices r1 3 0).1 = (shuffleIndices r2 3 0).1 ∧
  (shuffleIndices r1 3 0).2 = 2.
Proof.
  intros r1 r2.
  assert (H : ∀ m, m < 3 - 1 →
     randomIndex r1 (0 + m) (3 - 1 - m + 1) = randomIndex r2 (0 + m) (3 - 1 - m + 1)).
  { intros [|[|m]] Hm; [reflexivity|reflexivity|cbn in Hm; lia]. }
  destruct (shuffleIndices_order_tells_the_picks r1 r2 3 0) as [Hd [_ Hb]].
  split; [exact H|]. split; [exact (Hb H)|exact Hd].
Defined.

(** ** [ScannerPlayer]: timers, listeners and the queue *)

Module ScannerMore.
Import ScannerPlayer ScannerFacts.

#[local] Arguments stopOpenMHz : simpl never.
#[local] Arguments startOpenMHz : simpl never.
#[local] Arguments resetAudio : simpl never.

Lemma onFeedChange_timers feeds idx now s :
  let s' := state_of (onFeedChange feeds idx now s) in
  intervals s' = intervals s ∖ remembered s ∧ pollTimer s' = None ∧
  fresh s' = fresh s.
Proof.
  destruct (resetAudio_fields s) as (_ & Hp & _ & Hi & _ & _ & Hf & _).
  cbn zeta in *. unfold remembered. rewrite <- Hi, <- Hp, <- Hf.
  unfold onFeedChange, startOpenMHz, fetchCalls_send.
  cbn [currentFeed set_playBtn_disabled set_currentFeed].
  destruct (feeds !! idx) as [f|]; [|done].
  destruct (type f) eqn:Ht; cbn; rewrite ?Ht; done.
Qed.

Lemma togglePlay_timers now s :
  let s' := togglePlay now s in
  fresh s' = fresh s ∧
  if is_openmhz s && isPlaying s
  then intervals s' = intervals s ∖ remembered s ∧ pollTimer s' = None
  else intervals s' = intervals s ∧ pollTimer s' = pollTimer s.
Proof.
  unfold togglePlay, is_openmhz. destruct (currentFeed s) as [f|] eqn:Hf; [|done].
  destruct (isPlaying s) eqn:Hp, (type f) eqn:Ht; cbn; try done.
  - destruct (stopOpenMHz_fields s) as (_ & ? & ? & _ & _ & _ & ? & _). done.
  - unfold startOpenMHz, fetchCalls_send. cbn. by rewrite Hf, Ht.
Qed.

Lemma handle_timers feeds e s :
  let s' := handle feeds e s in
  (intervals s' = intervals s ∧ pollTimer s' = pollTimer s ∧ fresh s' = fresh s) ∨
  (intervals s' = intervals s ∖ remembered s ∧ pollTimer s' = None ∧
   fresh s' = fresh s) ∨
  (intervals s' = {[fresh s]} ∪ intervals s ∧ pollTimer s' = Some (fresh s) ∧
   fresh s' = Pos.succ (fresh s)).
Proof.
  destruct e; cbn [handle]; cbn zeta.
  - right; left. apply onFeedChange_timers.
  - destruct (togglePlay_timers now s) as [? Ht].
    destruct (is_openmhz s && isPlaying s); destruct Ht; auto.
  - by left.
  - by left.
  - left. unfold onError. case_match; [|done].
    destruct (playNextCall_fields s) as (_ & _ & _ & _ & ? & ? & ? & _). done.
  - left. unfold onPause. by case_match.
  - left. unfold onEnded. case_match; [|done].
    destruct (playNextCall_fields s) as (_ & _ & _ & _ & ? & ? & ? & _). done.
  - left. case_match; [|done]. unfold fetchCalls_send. by repeat case_match.
  - destruct (inflight s !! i) as [rq|] eqn:Hi; [|by left].
    destruct (awaited rq) eqn:Ha.
    + right; right.
      destruct (awaited_poll_installs_interval feeds i rq r paused ended paused_then s Hi Ha)
        as (Hx & Hy & Hz & _).
      cbn [handle] in Hx, Hy, Hz. rewrite Hi, Ha in Hx, Hy, Hz. done.
    + left.
      destruct (fetchCalls_resume_fields r paused ended paused_then
                  (set_inflight (delete i (inflight s)) s))
        as (_ & _ & _ & _ & ? & ? & ? & _).
      done.
  - left. by repeat case_match.
  - left. destruct (retryTimeouts s) as [|n]; [done|].
    destruct (playNextCall_fields (set_retryTimeouts n s))
      as (_ & _ & _ & _ & ? & ? & ? & _). done.
Qed.

Lemma timers_ok_handle feeds e s : timers_ok s → timers_ok (handle feeds e s).
Proof.
  intros [Hlt Hin]. unfold timers_ok, remembered in *.
  destruct (handle_timers feeds e s) as [(-> & -> & ->)|[(-> & -> & ->)|(-> & -> & ->)]].
  - done.
  - split; [|done]. intros h [Hh _]%elem_of_difference. by apply Hlt.
  - split.
    + intros h [->%elem_of_singleton|Hh]%elem_of_union; [lia|].
      specialize (Hlt h Hh). lia.
    + intros h [= <-]. apply elem_of_union. left. by apply elem_of_singleton.
Qed.

Lemma timers_ok_run feeds es s : timers_ok s → timers_ok (run feeds es s).
Proof.
  revert s. induction es as [|e es IH]; intros s Hs; [done|].
  cbn. apply IH. by apply timers_ok_handle.
Qed.

Lemma timers_ok_constructor p : timers_ok (constructor p).
Proof. split; [|done]. intros h Hh. by apply elem_of_empty in Hh. Qed.

Lemma forgotten_handle feeds e s h :
  timers_ok s → h ∈ intervals s → pollTimer s ≠ Some h →
  h ∈ intervals (handle feeds e s) ∧ pollTimer (handle feeds e s) ≠ Some h.
Proof.
  intros [Hlt _] Hh Hp. unfold remembered in *.
  destruct (handle_timers feeds e s) as [(-> & -> & _)|[(-> & -> & _)|(-> & -> & _)]].
  - done.
  - split; [|done]. apply elem_of_difference. split; [done|].
    unfold remembered. destruct (pollTimer s) as [h'|]; cbn.
    + intros ->%elem_of_singleton. done.
    + apply not_elem_of_empty.
  - split; [apply elem_of_union; by right|].
    intros [= Heq]. specialize (Hlt _ Hh). lia.
Qed.

(** X3: in every reachable state [pollTimer], when set, holds the handle of
    an interval that runs; and an interval that runs but is not the one
    [pollTimer] holds is never cancelled: whatever happens next, it goes on
    polling and [pollTimer] never holds its handle again. *)
Theorem forgotten_interval_runs_forever feeds p es1 es2 h :
  let s := run feeds es1 (constructor p) in
  (∀ h', pollTimer s = Some h' → h' ∈ intervals s) ∧
  (h ∈ intervals s → pollTimer s ≠ Some h →
   h ∈ intervals (run feeds es2 s) ∧ pollTimer (run feeds es2 s) ≠ Some h).
Proof.
  intros s.
  pose proof (timers_ok_run feeds es1 _ (timers_ok_constructor p)) as Hok.
  fold s in Hok. split; [apply Hok|]. clearbody s.
  revert s Hok. induction es2 as [|e es IH]; intros s Hok Hh Hp; [done|].
  cbn. destruct (forgotten_handle feeds e s h Hok Hh Hp) as [Hh' Hp'].
  apply IH; [by apply timers_ok_handle|done|done].
Qed.

Lemma awaiting_app s l :
  length (List.filter awaited (inflight s ++ l)) =
  awaiting s + length (List.filter awaited l).
Proof. unfold awaiting. by rewrite List.filter_app, length_app. Qed.

Lemma awaiting_delete (l : list request) i rq :
  l !! i = Some rq →
  length (List.filter awaited l) =
  length (List.filter awaited (delete i l)) + (if awaited rq then 1 else 0).
Proof.
  revert i. induction l as [|x l IH]; intros [|i] H; try done.
  - cbn in H. injection H as ->. cbn.
    destruct (awaited rq); cbn; by rewrite ?Nat.add_1_r, ?Nat.add_0_r.
  - cbn in H. cbn. specialize (IH i H). destruct (awaited x); cbn; by rewrite IH.
Qed.

Lemma onFeedChange_inflight feeds idx now s :
  let s' := state_of (onFeedChange feeds idx now s) in
  match feeds !! idx with
  | None => currentFeed s' = None ∧ inflight s' = inflight s ∧
            isPlaying s' = isPlaying s
  | Some f =>
      currentFeed s' = Some f ∧ isPlaying s' = true ∧
      inflight s' = inflight s ++
        match type f with
        | openmhz => [{| req_system := system f; req_time := Num (now - 120000);
                         awaited := true |}]
        | stream => []
        end
  end.
Proof.
  destruct (resetAudio_fields s) as (_ & _ & _ & _ & _ & Hp & _ & Hi).
  cbn zeta in *. rewrite <- Hi, <- Hp.
  unfold onFeedChange, startOpenMHz, fetchCalls_send.
  cbn [currentFeed set_playBtn_disabled set_currentFeed].
  destruct (feeds !! idx) as [f|]; [|done].
  destruct (type f) eqn:Ht; cbn; rewrite ?Ht; cbn; by rewrite ?app_nil_r.
Qed.

Lemma togglePlay_inflight now s f :
  currentFeed s = Some f →
  let s' := togglePlay now s in
  currentFeed s' = Some f ∧ isPlaying s' = negb (isPlaying s) ∧
  inflight s' = inflight s ++
    (if isPlaying s then []
     else match type f with
          | openmhz => [{| req_system := system f; req_time := Num (now - 120000);
                           awaited := true |}]
          | stream => []
          end).
Proof.
  intros Hf. unfold togglePlay. rewrite Hf.
  destruct (isPlaying s) eqn:Hp, (type f) eqn:Ht; cbn; rewrite ?app_nil_r; try done.
  - destruct (stopOpenMHz_fields s) as (_ & _ & _ & _ & _ & -> & _ & -> & _). done.
  - unfold startOpenMHz, fetchCalls_send. cbn. by rewrite Hf, Ht.
Qed.

Lemma quiet_inflight feeds e s :
  quiet e = true →
  let s' := handle feeds e s in
  awaiting s' = awaiting s ∨
  (∃ i rq r a b c, e = FetchSettled i r a b c ∧ inflight s !! i = Some rq ∧
                   awaited rq = true ∧ awaiting s = S (awaiting s')).
Proof.
  destruct e; try discriminate; intros _; cbn [handle]; cbn zeta.
  - by left.
  - left. unfold onEnded. case_match; [|done].
    destruct (playNextCall_fields s) as (_ & _ & _ & _ & _ & _ & _ & Hi & _).
    unfold awaiting. by rewrite Hi.
  - left. case_match; [|done]. unfold fetchCalls_send.
    repeat case_match; try done. unfold awaiting. cbn.
    rewrite List.filter_app, length_app. cbn. lia.
  - destruct (inflight s !! i) as [rq|] eqn:Hi; [|by left].
    destruct (fetchCalls_resume_fields r paused ended paused_then
                (set_inflight (delete i (inflight s)) s))
      as (_ & _ & _ & _ & _ & _ & _ & Hfl & _).
    cbn zeta in Hfl.
    pose proof (awaiting_delete _ _ _ Hi) as Hd.
    assert (Haw : awaiting (if awaited rq
                   then setInterval (fetchCalls_resume r paused ended paused_then
                                       (set_inflight (delete i (inflight s)) s))
                   else fetchCalls_resume r paused ended paused_then
                          (set_inflight (delete i (inflight s)) s)) =
                  length (List.filter awaited (delete i (inflight s)))).
    { unfold awaiting. destruct (awaited rq); cbn; by rewrite Hfl. }
    rewrite Haw. destruct (awaited rq) eqn:Ha.
    + right. exists i, rq, r, paused, ended, paused_then.
      unfold awaiting at 1. repeat split; try done. lia.
    + left. unfold awaiting. lia.
  - left. by repeat case_match.
  - left. destruct (retryTimeouts s) as [|n]; [done|].
    destruct (playNextCall_fields (set_retryTimeouts n s))
      as (_ & _ & _ & _ & _ & _ & _ & Hi & _).
    unfold awaiting. by rewrite Hi.
Qed.

Lemma one_poller_frame s s' :
  intervals s' = intervals s → pollTimer s' = pollTimer s →
  inflight s' = inflight s → currentFeed s' = currentFeed s →
  isPlaying s' = isPlaying s → one_poller s → one_poller s'.
Proof.
  unfold one_poller, remembered, awaiting, is_openmhz.
  by intros -> -> -> -> ->.
Qed.

Lemma one_poller_size s : one_poller s → size (intervals s) ≤ 1.
Proof.
  intros (Ha & _). unfold remembered in Ha.
  apply subseteq_size in Ha. destruct (pollTimer s); cbn in Ha.
  - by rewrite size_singleton in Ha.
  - rewrite size_empty in Ha. lia.
Qed.

Lemma one_poller_quiet feeds e s :
  quiet e = true → one_poller s → one_poller (handle feeds e s).
Proof.
  intros Hq (Ha & Hb & Hc & Hd).
  destruct (quiet_fields feeds e s Hq) as (Hf & Hp & _). cbn zeta in *.
  assert (Ho : is_openmhz (handle feeds e s) = is_openmhz s)
    by (by apply is_openmhz_ext).
  destruct (quiet_inflight feeds e s Hq) as [Haw|(i & rq & r & a & b & c & -> & Hi & Hw & Haw)];
    cbn zeta in *.
  - assert (Ht : intervals (handle feeds e s) = intervals s ∧
                 pollTimer (handle feeds e s) = pollTimer s).
    { destruct e; try discriminate; cbn [handle].
      - done.
      - unfold onEnded. case_match; [|done].
        destruct (playNextCall_fields s) as (_ & _ & _ & _ & ? & ? & _). done.
      - case_match; [|done]. unfold fetchCalls_send. by repeat case_match.
      - destruct (inflight s !! i) as [rq|] eqn:Hi; [|done].
        destruct (awaited rq) eqn:Hw.
        + exfalso. cbn [handle] in Haw. rewrite Hi, Hw in Haw.
          pose proof (awaiting_delete _ _ _ Hi) as Hdel. rewrite Hw in Hdel.
          destruct (fetchCalls_resume_fields r paused ended paused_then
                      (set_inflight (delete i (inflight s)) s))
            as (_ & _ & _ & _ & _ & _ & _ & Hfl & _).
          cbn zeta in Hfl. unfold awaiting in Haw. cbn in Haw.
          rewrite Hfl in Haw. cbn in Haw. rewrite Haw in Hdel.
          revert Hdel. generalize (length (List.filter awaited (inflight s))). lia.
        + destruct (fetchCalls_resume_fields r paused ended paused_then
                      (set_inflight (delete i (inflight s)) s))
            as (_ & _ & _ & _ & ? & ? & _).
          done.
      - by repeat case_match.
      - destruct (retryTimeouts s) as [|n]; [done|].
        destruct (playNextCall_fields (set_retryTimeouts n s))
          as (_ & _ & _ & _ & ? & ? & _). done. }
    destruct Ht as [Hi Hpt]. unfold one_poller, remembered in *.
    rewrite Hi, Hpt, Haw, Ho, Hp. done.
  - destruct (awaited_poll_installs_interval feeds i rq r a b c s Hi Hw)
      as (Hint & Hpt & _). cbn zeta in *.
    assert (Haw1 : awaiting s = 1) by lia.
    assert (Haw0 : awaiting (handle feeds (FetchSettled i r a b c) s) = 0) by lia.
    specialize (Hc Haw1).
    unfold one_poller, remembered. rewrite Hint, Hpt, Haw0, Hc, Ho, Hp. cbn.
    split; [by rewrite union_empty_r_L|]. split; [lia|]. split; [done|].
    intros Hx. specialize (Hd Hx). lia.
Qed.

Lemma one_poller_handle feeds e s :
  (acts e = true → awaiting s = 0) → one_poller s → one_poller (handle feeds e s).
Proof.
  intros Hcalm Hs. destruct (quiet e) eqn:Hq; [by apply one_poller_quiet|].
  pose proof Hs as (Ha & Hb & Hc & Hd).
  destruct e; try discriminate; clear Hq; cbn [handle].
  - (* a feed is selected *)
    specialize (Hcalm eq_refl).
    destruct (onFeedChange_timers feeds idx now s) as (Hi & Hp & _).
    pose proof (onFeedChange_inflight feeds idx now s) as Hfl.
    cbn zeta in *.
    set (s' := state_of (onFeedChange feeds idx now s)) in *.
    assert (Hi0 : intervals s' = ∅).
    { rewrite Hi. by apply subseteq_empty_difference_L. }
    unfold one_poller, remembered. rewrite Hi0, Hp.
    destruct (feeds !! idx) as [f|].
    + destruct Hfl as (Hf & Hpl & Hfl).
      assert (Haw : awaiting s' =
                    match type f with openmhz => 1 | stream => 0 end).
      { unfold awaiting at 1. rewrite Hfl, awaiting_app, Hcalm.
        by destruct (type f). }
      rewrite Haw. unfold is_openmhz. rewrite Hf, Hpl.
      destruct (type f); cbn; repeat split; try done; lia.
    + destruct Hfl as (Hf & Hfl & _).
      assert (Haw : awaiting s' = 0) by (unfold awaiting; by rewrite Hfl).
      rewrite Haw. repeat split; try done; lia.
  - (* the play button is clicked *)
    specialize (Hcalm eq_refl).
    destruct (currentFeed s) as [f|] eqn:Hf;
      [|unfold togglePlay; by rewrite Hf].
    destruct (togglePlay_timers now s) as (_ & Ht).
    destruct (togglePlay_inflight now s f Hf) as (Hf' & Hp' & Hfl').
    cbn zeta in *. set (s' := togglePlay now s) in *.
    assert (Hi0 : intervals s' = ∅ ∧ remembered s' ⊆ remembered s).
    { unfold remembered. destruct (is_openmhz s && isPlaying s) eqn:Hop.
      - destruct Ht as [-> ->]. split; [by apply subseteq_empty_difference_L|].
        cbn. set_solver.
      - destruct Ht as [-> ->]. split; [by apply Hd|done]. }
    destruct Hi0 as [Hi0 _].
    assert (Haw : awaiting s' =
                  if isPlaying s then 0
                  else match type f with openmhz => 1 | stream => 0 end).
    { unfold awaiting at 1. rewrite Hfl', awaiting_app, Hcalm.
      by destruct (isPlaying s), (type f). }
    unfold one_poller. rewrite Hi0, Haw, Hp'. unfold is_openmhz. rewrite Hf'.
    destruct (isPlaying s), (type f); cbn; repeat split; try done; try lia;
      set_solver.
  - (* 'playing' *)
    by apply (one_poller_frame s).
  - (* 'error' *)
    unfold onError. destruct (is_openmhz s) eqn:Ho.
    + destruct (playNextCall_fields s)
        as (_ & _ & ? & ? & ? & ? & _ & ? & _). by apply (one_poller_frame s).
    + cbn [state_of]. destruct (Hd ltac:(done)) as [Hi0 Haw].
      unfold one_poller, remembered, awaiting in *. cbn.
      rewrite Hi0, Haw. repeat split; try done; try lia.
  - (* 'pause' *)
    unfold onPause. case_match; [done|]. by apply (one_poller_frame s).
Qed.

Lemma one_poller_run feeds es s :
  calm feeds es s → one_poller s → one_poller (run feeds es s).
Proof.
  revert s. induction es as [|e es IH]; intros s Hcalm Hs; [done|].
  destruct Hcalm as [Hc Hrest]. cbn. apply IH; [done|].
  by apply one_poller_handle.
Qed.

Lemma one_poller_constructor p : one_poller (constructor p).
Proof. repeat split; try done. unfold awaiting. cbn. lia. Qed.

(** X4: when the user selects feeds and clicks the play button only while
    no [startOpenMHz] is waiting for its first poll, at most one interval
    runs in every state reached, it is the one [pollTimer] holds, and none
    runs while an OpenMHz feed is stopped. *)
Theorem one_poller_when_user_waits feeds p es :
  calm feeds es (constructor p) →
  let s := run feeds es (constructor p) in
  size (intervals s) ≤ 1 ∧
  (∀ h, h ∈ intervals s → pollTimer s = Some h) ∧
  (is_openmhz s && isPlaying s = false → intervals s = ∅).
Proof.
  intros Hcalm s.
  pose proof (one_poller_run feeds es _ Hcalm (one_poller_constructor p)) as Hs.
  fold s in Hs. split; [by apply one_poller_size|].
  destruct Hs as (Ha & _ & _ & Hd). split; [|intros Hx; by apply Hd].
  intros h Hh. apply Ha in Hh. unfold remembered in Hh.
  destruct (pollTimer s); cbn in Hh.
  - apply elem_of_singleton in Hh. by subst.
  - by apply elem_of_empty in Hh.
Qed.

Lemma playNextCall_from_normal queue s :
  is_Some (currentFeed s) ∨ queue = [] →
  is_thrown (playNextCall_from queue s) = false.
Proof.
  intros [[f Hf]| ->]; [|done].
  induction queue as [|c rest IH]; cbn; [done|].
  destruct (audioUrl c); [|done]. by rewrite Hf.
Qed.

Lemma populateFeeds_lookup feeds i :
  populateFeeds feeds !! i =
  (λ f, (i, city f +:+ ", " +:+ state f)) <$> feeds !! i.
Proof. unfold populateFeeds. by rewrite list_lookup_imap. Qed.

Lemma currentFeed_stays feeds e s :
  selects_listed feeds e → is_Some (currentFeed s) →
  is_Some (currentFeed (handle feeds e s)).
Proof.
  intros Hl [f Hf]. destruct (quiet e) eqn:Hq.
  { destruct (quiet_fields feeds e s Hq) as (-> & _). by exists f. }
  destruct e; try discriminate; clear Hq; cbn [handle].
  - cbn in Hl. apply lookup_lt_is_Some_2 in Hl as [g Hg].
    pose proof (onFeedChange_inflight feeds idx now s) as H. cbn zeta in H.
    rewrite Hg in H. destruct H as (-> & _). by exists g.
  - destruct (togglePlay_inflight now s f Hf) as (-> & _). by exists f.
  - by exists f.
  - unfold onError. case_match; [|by exists f].
    destruct (playNextCall_fields s) as (_ & _ & _ & -> & _). by exists f.
  - unfold onPause. case_match; by exists f.
Qed.

Lemma nothing_pending_handle feeds e s :
  selects_listed feeds e → nothing_pending_without_feed s →
  nothing_pending_without_feed (handle feeds e s).
Proof.
  intros Hl Hs. destruct (currentFeed s) as [f|] eqn:Hf.
  { intros Hn. destruct (currentFeed_stays feeds e s Hl) as [g Hg]; [by exists f|].
    congruence. }
  destruct (Hs Hf) as [Hq Hi].
  destruct e; cbn [handle].
  - intros Hn. cbn in Hl. apply lookup_lt_is_Some_2 in Hl as [g Hg].
    pose proof (onFeedChange_inflight feeds idx now s) as H. cbn zeta in H.
    rewrite Hg in H. destruct H as (H & _). congruence.
  - unfold togglePlay. by rewrite Hf.
  - done.
  - done.
  - unfold onError, is_openmhz. rewrite Hf. done.
  - unfold onPause, is_openmhz. rewrite Hf. done.
  - unfold onEnded, is_openmhz. by rewrite Hf.
  - case_match; [|done]. unfold fetchCalls_send. by rewrite Hf.
  - by rewrite Hi.
  - by repeat case_match.
  - destruct (retryTimeouts s) as [|n]; [done|].
    unfold playNextCall. cbn [callQueue set_retryTimeouts]. rewrite Hq. done.
Qed.

Lemma feed_defined_when_needed s :
  nothing_pending_without_feed s →
  ∀ x, currentFeed x = currentFeed s → callQueue x = callQueue s →
       is_thrown (playNextCall x) = false.
Proof.
  intros Hs x Hx Hq. apply playNextCall_from_normal. rewrite Hx, Hq.
  destruct (currentFeed s) as [f|] eqn:Hf; [left; by exists f|].
  right. by apply Hs.
Qed.

Lemma nothing_pending_run feeds es : ∀ s,
  Forall (selects_listed feeds) es → nothing_pending_without_feed s →
  nothing_pending_without_feed (run feeds es s).
Proof.
  induction es as [|e es IH]; intros s Hall Hs; [done|].
  apply Forall_cons in Hall as [He Hes]. cbn.
  apply IH; [done|by apply nothing_pending_handle].
Qed.

(** X5: [populateFeeds] adds one option per feed, whose value is the index
    of the feed and whose text is its city and state.  As long as the
    selections are of these options, calls are queued and requests are in
    flight only while a feed is selected, so that in every state reached
    no listener reads a property of an undefined [currentFeed]:
    [playNextCall] (also from the retry timer), the 'error' and 'ended'
    listeners and [onFeedChange] with a listed value do not end at the
    TypeError of [this.currentFeed.desc].  What an engine does when its
    own limits are exceeded is outside the model. *)
Theorem listed_selections_keep_a_feed feeds p es :
  length (populateFeeds feeds) = length feeds ∧
  (∀ i v text, populateFeeds feeds !! i = Some (v, text) →
     v = i ∧ ∃ f, feeds !! v = Some f ∧ text = city f +:+ ", " +:+ state f) ∧
  (Forall (selects_listed feeds) es →
   let s := run feeds es (constructor p) in
   (currentFeed s = None → callQueue s = [] ∧ inflight s = []) ∧
   is_thrown (playNextCall s) = false ∧
   (∀ n, is_thrown (playNextCall (set_retryTimeouts n s)) = false) ∧
   is_thrown (onError s) = false ∧ is_thrown (onEnded s) = false ∧
   (∀ idx now, idx < length feeds →
      is_thrown (onFeedChange feeds idx now s) = false)).
Proof.
  split; [unfold populateFeeds; by rewrite length_imap|]. split.
  - intros i v text. rewrite populateFeeds_lookup.
    destruct (feeds !! i) as [f|] eqn:Hf; [|done].
    intros [= <- <-]. split; [done|]. by exists f.
  - intros Hall s.
    assert (Hs : nothing_pending_without_feed s).
    { apply nothing_pending_run; [done|]. done. }
    clearbody s.
    pose proof (feed_defined_when_needed s Hs) as Hp.
    split; [exact Hs|]. split; [by apply Hp|]. split; [intros n; by apply Hp|].
    split; [|split].
    + unfold onError. case_match; [by apply Hp|done].
    + unfold onEnded. case_match; [by apply Hp|done].
    + intros idx now Hidx. apply lookup_lt_is_Some_2 in Hidx as [g Hg].
      unfold onFeedChange. cbn [currentFeed set_playBtn_disabled set_currentFeed].
      by rewrite Hg.
Qed.

(** X6: a change event of the select whose value names no feed (the
    placeholder, whose value [parseInt] turns into NaN) tears the playback
    down and then throws at [this.currentFeed.desc]: the feed is undefined,
    the button is enabled, the queue, the audio source and [pollTimer] are
    cleared, while [isPlaying], the button's class, the live state and the
    status text stay as they were; afterwards the play button and the
    ticks of intervals do nothing. *)
Theorem selecting_no_feed feeds idx now s :
  feeds !! idx = None →
  let s' := state_of (onFeedChange feeds idx now s) in
  is_thrown (onFeedChange feeds idx now s) = true ∧
  currentFeed s' = None ∧ callQueue s' = [] ∧ audio_src s' = None ∧
  pollTimer s' = None ∧ playBtn_disabled s' = false ∧
  isPlaying s' = isPlaying s ∧ playBtn_playing s' = playBtn_playing s ∧
  ui_state s' = ui_state s ∧ status_text s' = status_text s ∧
  inflight s' = inflight s ∧
  (∀ now', togglePlay now' s' = s') ∧
  (∀ h, handle feeds (PollTick h) s' = s').
Proof.
  intros Hidx.
  destruct (resetAudio_fields s) as (Hq & Hp & Ha & _ & Hu & Hpl & _ & Hi).
  cbn zeta in *.
  assert (Hb : playBtn_playing (resetAudio s) = playBtn_playing s ∧
               status_text (resetAudio s) = status_text s).
  { unfold resetAudio, stopOpenMHz. by destruct (pollTimer s). }
  destruct Hb as [Hb Hst].
  unfold onFeedChange. cbn [currentFeed set_playBtn_disabled set_currentFeed].
  rewrite Hidx. cbn [state_of is_thrown].
  repeat split; try done.
  - intros h. cbn [handle]. case_match; [|done]. done.
Qed.

Lemma playNextCall_from_step queue s f :
  currentFeed s = Some f →
  let s' := state_of (playNextCall_from queue s) in
  currentFeed s' = Some f ∧
  match List.filter audible queue with
  | [] =>
      callQueue s' = [] ∧ audio_src s' = audio_src s ∧
      audio_log s' = audio_log s ∧ status_text s' = "Listening for calls..."
  | c :: rest =>
      List.filter audible (callQueue s') = rest ∧ audio_src s' = audioUrl c ∧
      audio_log s' = audio_log s ++ [ALoad; APlay] ∧ status_text s' = desc f
  end.
Proof.
  intros Hf. induction queue as [|c rest IH]; cbn [playNextCall_from].
  - done.
  - cbn [List.filter]. unfold audible at 1. destruct (audioUrl c) as [u|] eqn:Hu.
    + cbn. rewrite Hf. cbn. rewrite <- app_assoc. done.
    + apply IH.
Qed.

(** X7: [playNextCall] plays the queue first in, first out, skipping the
    calls without [url] and [filename]: with a feed selected, the
    [k+1]-th call of [playNextCall] in a row plays the [k+1]-th call of
    the queue that has an audio reference (one load and one play each,
    status the feed's description) and leaves the ones after it; once
    these calls are used up the queue is empty and the status is
    'Listening for calls...'. *)
Theorem queue_is_played_in_order s f k :
  currentFeed s = Some f →
  let playable := List.filter audible (callQueue s) in
  let sk := playNextCalls (S k) s in
  currentFeed sk = Some f ∧
  (k < length playable →
     (∃ c, playable !! k = Some c ∧ audio_src sk = audioUrl c) ∧
     List.filter audible (callQueue sk) = drop (S k) playable ∧
     audio_log sk = audio_log s ++ mjoin (replicate (S k) [ALoad; APlay]) ∧
     status_text sk = desc f) ∧
  (length playable ≤ k →
     callQueue sk = [] ∧ status_text sk = "Listening for calls..." ∧
     audio_log sk = audio_log s ++ mjoin (replicate (length playable) [ALoad; APlay])).
Proof.
  intros Hf playable. subst playable. revert s Hf.
  induction k as [|k IH]; intros s Hf sk; subst sk.
  - unfold playNextCalls. cbn [Nat.iter nat_rect].
    destruct (playNextCall_from_step (callQueue s) s f Hf) as (Hf' & H).
    cbn zeta in *. fold (playNextCall s) in *. split; [done|].
    destruct (List.filter audible (callQueue s)) as [|c rest].
    + destruct H as (Hq & _ & Hl & Hst). split; [cbn; lia|].
      intros _. cbn. by rewrite app_nil_r.
    + destruct H as (Hq & Hsrc & Hl & Hst). split; [|cbn; lia].
      intros _. split; [by exists c|]. cbn. by rewrite drop_0.
  - unfold playNextCalls.
    rewrite Nat.iter_succ_r.
    destruct (playNextCall_from_step (callQueue s) s f Hf) as (Hf' & H).
    cbn zeta in *. fold (playNextCall s) in *.
    set (s1 := state_of (playNextCall s)) in *.
    destruct (IH s1 Hf') as (Hfk & Hlt & Hge). cbn zeta in *.
    fold (playNextCalls (S k) s1) in *.
    split; [done|].
    destruct (List.filter audible (callQueue s)) as [|c rest].
    + destruct H as (Hq & _ & Hl & Hst). rewrite Hq in Hlt, Hge.
      split; [cbn; lia|]. intros _.
      destruct Hge as (? & ? & Hl'); [cbn; lia|].
      split; [done|]. split; [done|]. rewrite Hl', Hl. done.
    + destruct H as (Hq & Hsrc & Hl & Hst). rewrite Hq in Hlt, Hge. split.
      * intros Hk. cbn [length] in Hk.
        destruct Hlt as (Hc & Hd & Hl' & Hst'); [lia|].
        split; [done|]. split; [done|]. split; [|done].
        rewrite Hl', Hl, <- app_assoc. done.
      * intros Hk. cbn [length] in Hk.
        destruct Hge as (? & ? & Hl'); [lia|].
        split; [done|]. split; [done|].
        rewrite Hl', Hl, <- app_assoc. done.
Qed.

Lemma store_audio calls s :
  audio_src (store calls s) = audio_src s ∧
  audio_log (store calls s) = audio_log s ∧
  playPromises (store calls s) = playPromises s ∧
  status_text (store calls s) = status_text s.
Proof. unfold store. by repeat case_match. Qed.

(** X8: what an answered poll does to the audio element.  While a call
    is playing (the element neither paused nor ended), or when playback is
    not wanted, [fetchCalls] only appends the calls longer than a second
    and touches neither the source nor the element.  When the element is
    idle, playback is wanted, a feed is selected and the poll has not
    failed, it starts the first call of the extended queue that has an
    audio reference, with one load and one play; when there is none, the
    queue ends empty and the status is 'Listening for calls...'. *)
Theorem answered_poll_and_audio r paused ended paused_then s :
  let s' := fetchCalls_resume r paused ended paused_then s in
  let queued := callQueue s ++ List.filter longer_than_1 (calls_of r) in
  (isPlaying s && (paused || ended) = false →
     callQueue s' = queued ∧ audio_src s' = audio_src s ∧
     audio_log s' = audio_log s ∧ playPromises s' = playPromises s) ∧
  (∀ f, failed r = false → isPlaying s && (paused || ended) = true →
     currentFeed s = Some f →
     match List.filter audible queued with
     | [] => callQueue s' = [] ∧ audio_src s' = audio_src s ∧
             audio_log s' = audio_log s ∧
             status_text s' = "Listening for calls..."
     | c :: rest =>
         List.filter audible (callQueue s') = rest ∧ audio_src s' = audioUrl c ∧
         audio_log s' = audio_log s ++ [ALoad; APlay]
     end).
Proof.
  intros s' queued. subst s' queued. unfold fetchCalls_resume.
  destruct r as [| | |data_calls].
  1-3: split; [intros _; cbn; by rewrite app_nil_r|by intros f [=]].
  cbn [calls_of]. generalize (default [] data_calls). intros calls.
  destruct (store_fields calls s) as (Hp & Hf & _).
  destruct (store_audio calls s) as (Hsrc & Hlog & Hpp & Hst).
  pose proof (store_callQueue calls s) as Hq.
  cbn zeta in *. set (s1 := store calls s) in *. rewrite Hp. split.
  - intros ->. rewrite <- Hq. by case_match.
  - intros f _ -> Hfeed. rewrite <- Hf in Hfeed.
    destruct (playNextCall_from_step (callQueue s1) s1 f Hfeed) as (_ & H).
    cbn zeta in H. fold (playNextCall s1) in H. rewrite <- Hq.
    pose proof (playNextCall_from_normal (callQueue s1) s1
                  (or_introl (ex_intro _ f Hfeed))) as Hn.
    fold (playNextCall s1) in Hn.
    destruct (playNextCall s1) as [s2|s2]; [|done]. cbn [state_of] in H.
    destruct (List.filter audible (callQueue s1)) as [|c rest].
    + destruct H as (Hq2 & Hs2 & Hl2 & Hst2).
      case_match; cbn; rewrite ?Hq2, ?Hs2, ?Hl2, ?Hst2, ?Hsrc, ?Hlog; by repeat split.
    + destruct H as (Hq2 & Hs2 & Hl2 & _).
      case_match; cbn; rewrite ?Hq2, ?Hs2, ?Hl2, ?Hlog; by repeat split.
Qed.

Lemma fetchCalls_resume_busy r paused ended paused_then s :
  isPlaying s && (paused || ended) = false →
  let s' := fetchCalls_resume r paused ended paused_then s in
  callQueue s' = callQueue s ++ List.filter longer_than_1 (calls_of r) ∧
  audio_src s' = audio_src s ∧ audio_log s' = audio_log s.
Proof.
  intros H. unfold fetchCalls_resume.
  destruct r as [| | |data_calls]; try (cbn; by rewrite app_nil_r).
  cbn [calls_of]. generalize (default [] data_calls). intros calls.
  destruct (store_fields calls s) as (Hp & _).
  destruct (store_audio calls s) as (Hsrc & Hlog & _).
  pose proof (store_callQueue calls s) as Hq.
  cbn zeta in *. rewrite Hp, H, <- Hq, <- Hsrc, <- Hlog. by case_match.
Qed.

Lemma fetchCalls_resume_idle calls paused ended paused_then s f :
  isPlaying s && (paused || ended) = true → currentFeed s = Some f →
  let s' := fetchCalls_resume (Json (Some calls)) paused ended paused_then s in
  match List.filter audible (callQueue s ++ List.filter longer_than_1 calls) with
  | [] => callQueue s' = [] ∧ audio_src s' = audio_src s ∧
          audio_log s' = audio_log s
  | c :: rest =>
      audio_src s' = audioUrl c ∧ List.filter audible (callQueue s') = rest ∧
      audio_log s' = audio_log s ++ [ALoad; APlay]
  end.
Proof.
  intros Hidle Hfeed. unfold fetchCalls_resume. cbn [default from_option id].
  destruct (store_fields calls s) as (Hp & Hf & _).
  destruct (store_audio calls s) as (Hsrc & Hlog & _).
  pose proof (store_callQueue calls s) as Hq.
  cbn zeta in *. set (s1 := store calls s) in *. rewrite Hp, Hidle.
  rewrite <- Hf in Hfeed.
  destruct (playNextCall_from_step (callQueue s1) s1 f Hfeed) as (_ & H).
  cbn zeta in H. fold (playNextCall s1) in H. rewrite <- Hq.
  pose proof (playNextCall_from_normal (callQueue s1) s1
                (or_introl (ex_intro _ f Hfeed))) as Hn.
  fold (playNextCall s1) in Hn.
  destruct (playNextCall s1) as [s2|s2]; [|done]. cbn [state_of] in H.
  destruct (List.filter audible (callQueue s1)) as [|c rest].
  - destruct H as (Hq2 & Hs2 & Hl2 & _).
    case_match; cbn; rewrite ?Hq2, ?Hs2, ?Hl2, ?Hsrc, ?Hlog; by repeat split.
  - destruct H as (Hq2 & Hs2 & Hl2 & _).
    case_match; cbn; rewrite ?Hq2, ?Hs2, ?Hl2, ?Hlog; by repeat split.
Qed.

Lemma setInterval_keeps (b : bool) s :
  let s' := if b then setInterval s else s in
  currentFeed s' = currentFeed s ∧ callQueue s' = callQueue s ∧
  audio_src s' = audio_src s ∧ audio_log s' = audio_log s.
Proof. by destruct b. Qed.

(** X9: a feed change does not cancel a request in flight: the request
    of the earlier feed is still awaited afterwards, and [isPlaying] is
    true.  When it is answered, its calls longer than a second go to the
    newly selected feed.  With the audio element idle (paused, as
    [resetAudio] leaves it, or ended) the first of them that has an audio
    reference is loaded and played at once, under the new feed, and the
    ones after it are queued; with the element playing (a direct stream
    that was just started) all of them are queued and the element is left
    alone. *)
Theorem feed_change_keeps_requests feeds idx now f i rq s :
  feeds !! idx = Some f → inflight s !! i = Some rq →
  let s1 := handle feeds (FeedChange idx now) s in
  currentFeed s1 = Some f ∧ callQueue s1 = [] ∧ isPlaying s1 = true ∧
  inflight s1 !! i = Some rq ∧
  ∀ calls paused ended paused_then,
    let s2 := handle feeds
                (FetchSettled i (Json (Some calls)) paused ended paused_then) s1 in
    let arrived := List.filter longer_than_1 calls in
    currentFeed s2 = Some f ∧
    (paused || ended = true →
       match List.filter audible arrived with
       | [] => callQueue s2 = [] ∧ audio_src s2 = audio_src s1 ∧
               audio_log s2 = audio_log s1
       | c :: rest =>
           audio_src s2 = audioUrl c ∧
           List.filter audible (callQueue s2) = rest ∧
           audio_log s2 = audio_log s1 ++ [ALoad; APlay]
       end) ∧
    (paused || ended = false →
       callQueue s2 = arrived ∧ audio_src s2 = audio_src s1 ∧
       audio_log s2 = audio_log s1).
Proof.
  intros Hidx Hi s1. subst s1. cbn [handle].
  pose proof (onFeedChange_inflight feeds idx now s) as H. cbn zeta in H.
  rewrite Hidx in H. destruct H as (Hf & Hp & Hfl).
  destruct (onFeedChange_clears_remembered_poller feeds idx now s)
    as (_ & Hq & _).
  cbn zeta in Hq.
  set (s1 := state_of (onFeedChange feeds idx now s)) in *.
  assert (Hi1 : inflight s1 !! i = Some rq).
  { rewrite Hfl. apply lookup_app_l_Some. done. }
  clearbody s1.
  split; [done|]. split; [done|]. split; [done|]. split; [done|].
  intros calls paused ended paused_then. cbn zeta. cbn [handle]. rewrite Hi1.
  cbn zeta.
  set (s1' := set_inflight (delete i (inflight s1)) s1).
  assert (Hs1' : currentFeed s1' = Some f ∧ callQueue s1' = [] ∧
                 isPlaying s1' = true ∧ audio_src s1' = audio_src s1 ∧
                 audio_log s1' = audio_log s1) by done.
  destruct Hs1' as (Hf' & Hq' & Hp' & Hsrc' & Hlog'). clearbody s1'.
  destruct (fetchCalls_resume_fields (Json (Some calls)) paused ended paused_then s1')
    as (_ & _ & _ & Hf2 & _).
  cbn zeta in Hf2.
  pose proof (fetchCalls_resume_busy (Json (Some calls)) paused ended paused_then s1')
    as Hbusy.
  pose proof (fetchCalls_resume_idle calls paused ended paused_then s1' f) as Hidle.
  cbn zeta in Hbusy, Hidle. cbn [calls_of default from_option id] in Hbusy.
  set (X := fetchCalls_resume (Json (Some calls)) paused ended paused_then s1') in *.
  clearbody X.
  destruct (setInterval_keeps (awaited rq) X) as (Kf & Kq & Ks & Kl).
  cbn zeta in Kf, Kq, Ks, Kl. rewrite Kf, Kq, Ks, Kl.
  rewrite Hp', Hq', Hsrc', Hlog' in *. cbn [app] in *.
  split; [congruence|]. split.
  - intros Hpe. rewrite Hpe in Hidle. by apply Hidle.
  - intros Hpe. rewrite Hpe in Hbusy. by apply Hbusy.
Qed.

Lemma button_follows_handle feeds e s :
  playBtn_playing s = isPlaying s →
  playBtn_playing (handle feeds e s) = isPlaying (handle feeds e s).
Proof.
  intros Hs. destruct (quiet e) eqn:Hq.
  { destruct (quiet_fields feeds e s Hq) as (_ & -> & _ & ->). done. }
  destruct e; try discriminate; clear Hq; cbn [handle].
  - unfold onFeedChange. cbn [currentFeed set_playBtn_disabled set_currentFeed].
    destruct (feeds !! idx) as [f|]; [done|]. cbn.
    unfold resetAudio, stopOpenMHz. by destruct (pollTimer s).
  - destruct (currentFeed s) as [f|] eqn:Hf.
    + destruct (togglePlay_fields now s f Hf) as (-> & -> & _). done.
    + unfold togglePlay. by rewrite Hf.
  - done.
  - unfold onError. case_match; [|done].
    destruct (playNextCall_fields s) as (_ & _ & -> & _ & _ & _ & _ & _ & _ & ->).
    done.
  - unfold onPause. by case_match.
Qed.

(** X10: on a page whose play button starts without the class 'playing',
    the button has the class in every reachable state exactly when
    [isPlaying] is true. *)
Theorem play_button_shows_intent feeds p es :
  page_playBtn_playing p = false →
  let s := run feeds es (constructor p) in
  playBtn_playing s = isPlaying s.
Proof.
  intros Hp. cbn zeta.
  assert (H0 : playBtn_playing (constructor p) = isPlaying (constructor p)) by done.
  revert H0. generalize (constructor p).
  induction es as [|e es IH]; intros s Hs; [done|].
  cbn. apply IH. by apply button_follows_handle.
Qed.

Lemma playing_openmhz_playNextCall s :
  is_openmhz s && isPlaying s = true →
  is_openmhz (state_of (playNextCall s)) && isPlaying (state_of (playNextCall s)) = true.
Proof.
  intros H. destruct (playNextCall_fields s) as (_ & _ & Hp & Hf & _).
  cbn zeta in *. by rewrite (is_openmhz_ext s _ Hf), Hp.
Qed.

(** X17: calls are played back to back: while an OpenMHz feed is playing,
    [k] 'ended' events of the audio element in a row do what [k] calls of
    [playNextCall] do, and leave the live state and [isPlaying] as they
    are; on a direct stream, with no feed, or when stopped, 'ended' does
    nothing. *)
Theorem calls_play_back_to_back feeds k s :
  (is_openmhz s && isPlaying s = true →
     run feeds (replicate k AudioEnded) s = playNextCalls k s ∧
     ui_state (run feeds (replicate k AudioEnded) s) = ui_state s ∧
     isPlaying (run feeds (replicate k AudioEnded) s) = true) ∧
  (is_openmhz s && isPlaying s = false → handle feeds AudioEnded s = s).
Proof.
  split.
  - revert s. induction k as [|k IH]; intros s H.
    + cbn. apply andb_prop in H as [_ H]. done.
    + unfold playNextCalls. rewrite Nat.iter_succ_r.
      change (run feeds (replicate (S k) AudioEnded) s)
        with (run feeds (replicate k AudioEnded) (handle feeds AudioEnded s)).
      assert (He : handle feeds AudioEnded s = state_of (playNextCall s)).
      { cbn [handle]. unfold onEnded. by rewrite H. }
      rewrite He.
      destruct (IH _ (playing_openmhz_playNextCall s H)) as (Hr & Hu & Hp).
      destruct (playNextCall_fields s) as (_ & _ & _ & _ & _ & _ & _ & _ & Hu' & _).
      cbn zeta in Hu'. split; [exact Hr|]. split; [by rewrite Hu|done].
  - intros H. cbn [handle]. unfold onEnded. by rewrite H.
Qed.

Lemma set_retryTimeouts_fields n s :
  currentFeed (set_retryTimeouts n s) = currentFeed s ∧
  callQueue (set_retryTimeouts n s) = callQueue s ∧
  audio_src (set_retryTimeouts n s) = audio_src s ∧
  audio_log (set_retryTimeouts n s) = audio_log s ∧
  isPlaying (set_retryTimeouts n s) = isPlaying s ∧
  ui_state (set_retryTimeouts n s) = ui_state s.
Proof. done. Qed.

(** X18: a [play()] promise of [playNextCall] that is rejected sets one
    retry timer, one that is fulfilled sets none.  The retry is not
    guarded: when the timer fires with a feed selected, the first queued
    call with an audio reference is loaded and played whether or not
    [isPlaying] is true, and [isPlaying] and the live state stay as they
    were; with no such call the queue ends empty and the status is
    'Listening for calls...'. *)
Theorem retry_plays_whatever_the_intent feeds s f n :
  currentFeed s = Some f → retryTimeouts s = S n →
  let s' := handle feeds RetryTimeout s in
  (∀ m, playPromises s = S m →
     retryTimeouts (handle feeds (PlaySettled false) s) = S (retryTimeouts s) ∧
     retryTimeouts (handle feeds (PlaySettled true) s) = retryTimeouts s) ∧
  isPlaying s' = isPlaying s ∧ ui_state s' = ui_state s ∧
  currentFeed s' = Some f ∧
  match List.filter audible (callQueue s) with
  | [] =>
      callQueue s' = [] ∧ audio_src s' = audio_src s ∧
      audio_log s' = audio_log s ∧ status_text s' = "Listening for calls..."
  | c :: rest =>
      List.filter audible (callQueue s') = rest ∧ audio_src s' = audioUrl c ∧
      audio_log s' = audio_log s ++ [ALoad; APlay] ∧ status_text s' = desc f
  end.
Proof.
  intros Hf Hn. split.
  { intros m Hm. cbn [handle]. by rewrite Hm. }
  cbn [handle]. rewrite Hn.
  set (s0 := set_retryTimeouts n s).
  destruct (set_retryTimeouts_fields n s) as (Hf0 & Hq0 & Hs0 & Hl0 & Hp0 & Hu0).
  fold s0 in Hf0, Hq0, Hs0, Hl0, Hp0, Hu0. clearbody s0.
  rewrite <- Hf0 in Hf.
  destruct (playNextCall_fields s0) as (_ & _ & Hp & _ & _ & _ & _ & _ & Hu & _).
  destruct (playNextCall_from_step (callQueue s0) s0 f Hf) as (Hf' & H).
  cbn zeta in *. fold (playNextCall s0) in *.
  rewrite Hp, Hu, Hp0, Hu0. split; [done|]. split; [done|]. split; [done|].
  rewrite <- Hq0, <- Hs0, <- Hl0. exact H.
Qed.

Lemma forgotten_interval_runs_forever_witness :
  let s := run SCANNER_FEEDS
             [FeedChange 0 1700000000000; FeedChange 1 1700000003000;
              FetchSettled 0 (Json (Some [])) true false true;
              FetchSettled 0 (Json (Some [])) true false true]
             (constructor idle_page) in
  let s' := run SCANNER_FEEDS [PlayClick 1700000020000; FeedChange 0 1700000030000] s in
  1%positive ∈ intervals s ∧ pollTimer s ≠ Some 1%positive ∧
  1%positive ∈ intervals s' ∧ pollTimer s' ≠ Some 1%positive.
Proof.
  intros s s'.
  assert (H1 : 1%positive ∈ intervals s) by (vm_compute; reflexivity).
  assert (H2 : pollTimer s ≠ Some 1%positive) by (vm_compute; discriminate).
  destruct (forgotten_interval_runs_forever SCANNER_FEEDS idle_page
              [FeedChange 0 1700000000000; FeedChange 1 1700000003000;
               FetchSettled 0 (Json (Some [])) true false true;
               FetchSettled 0 (Json (Some [])) true false true]
              [PlayClick 1700000020000; FeedChange 0 1700000030000] 1%positive)
    as [_ H].
  destruct (H H1 H2) as [H3 H4].
  split; [exact H1|]. split; [exact H2|]. split; [exact H3|exact H4].
Defined.

Lemma one_poller_when_user_waits_witness :
  let es := [FeedChange 0 1700000000000;
             FetchSettled 0 (Json (Some [])) true false true;
             FeedChange 1 1700000003000;
             FetchSettled 0 (Json (Some [])) true false true;
             PollTick 2] in
  calm SCANNER_FEEDS es (constructor idle_page) ∧
  size (intervals (run SCANNER_FEEDS es (constructor idle_page))) ≤ 1.
Proof.
  intros es.
  assert (Hc : calm SCANNER_FEEDS es (constructor idle_page)).
  { vm_compute. repeat split; intros; reflexivity || discriminate. }
  split; [exact Hc|].
  exact (proj1 (one_poller_when_user_waits SCANNER_FEEDS idle_page es Hc)).
Defined.

Lemma listed_selections_keep_a_feed_witness :
  let es := [FeedChange 1 1700000000000; AudioError; AudioEnded;
             FetchSettled 0 (Json (Some [a_call 5 (Time 1699999990000)])) true false false;
             PlaySettled false; RetryTimeout; FeedChange 0 1700000009000] in
  let s := run SCANNER_FEEDS es (constructor idle_page) in
  Forall (selects_listed SCANNER_FEEDS) es ∧
  is_thrown (playNextCall s) = false ∧ is_thrown (onError s) = false ∧
  is_thrown (onFeedChange SCANNER_FEEDS 1 1700000012000 s) = false ∧
  populateFeeds SCANNER_FEEDS !! 1 = Some (1, "San Francisco, CA") ∧
  ∃ f, SCANNER_FEEDS !! 1 = Some f ∧ "San Francisco, CA" = city f +:+ ", " +:+ state f.
Proof.
  intros es s.
  assert (Hl : Forall (selects_listed SCANNER_FEEDS) es).
  { repeat constructor; cbn; lia. }
  assert (Hp : populateFeeds SCANNER_FEEDS !! 1 = Some (1, "San Francisco, CA"))
    by reflexivity.
  assert (H1 : 1 < length SCANNER_FEEDS) by (cbn; lia).
  destruct (listed_selections_keep_a_feed SCANNER_FEEDS idle_page es)
    as (_ & Ho & Ht).
  destruct (Ht Hl) as (_ & Hn & _ & He & _ & Hc).
  split; [exact Hl|]. split; [exact Hn|]. split; [exact He|].
  split; [exact (Hc 1 1700000012000%Z H1)|]. split; [exact Hp|].
  exact (proj2 (Ho 1 1 "San Francisco, CA" Hp)).
Defined.

Lemma selecting_no_feed_witness :
  let s := run SCANNER_FEEDS [FeedChange 0 1700000000000] (constructor idle_page) in
  let s' := handle SCANNER_FEEDS (FeedChange 7 1700000005000) s in
  SCANNER_FEEDS !! 7 = None ∧
  currentFeed s' = None ∧ isPlaying s' = true ∧ playBtn_playing s' = true ∧
  togglePlay 1700000006000 s' = s'.
Proof.
  intros s s'.
  assert (Hn : SCANNER_FEEDS !! 7 = None) by reflexivity.
  destruct (selecting_no_feed SCANNER_FEEDS 7 1700000005000 s Hn)
    as (_ & Hf & _ & _ & _ & _ & Hp & Hb & _ & _ & _ & Ht & _).
  split; [exact Hn|]. split; [exact Hf|].
  split; [exact (eq_trans Hp eq_refl)|]. split; [exact (eq_trans Hb eq_refl)|].
  exact (Ht 1700000006000%Z).
Defined.

Lemma queue_is_played_in_order_witness :
  let s := set_callQueue
             [a_call 5 (Time 1); {| call_url := None; filename := None; len := 3; time := Time 2 |};
              {| call_url := None; filename := Some "b.m4a"; len := 4; time := Time 3 |}]
             (run SCANNER_FEEDS [FeedChange 0 1700000000000] (constructor idle_page)) in
  let s2 := playNextCalls 2 s in
  let s3 := playNextCalls 3 s in
  (∃ f, currentFeed s = Some f) ∧
  audio_src s2 = Some "b.m4a" ∧ callQueue s3 = [] ∧
  status_text s3 = "Listening for calls...".
Proof.
  intros s s2 s3.
  assert (Hf : currentFeed s = SCANNER_FEEDS !! 0) by reflexivity.
  destruct (queue_is_played_in_order s _ 1 Hf) as (_ & H1 & _).
  destruct (queue_is_played_in_order s _ 2 Hf) as (_ & _ & H2).
  destruct (H1 ltac:(cbn; lia)) as ((c & Hc & Hsrc) & _).
  destruct (H2 ltac:(cbn; lia)) as (Hq & Hst & _).
  split; [by eexists|]. split; [|split; [exact Hq|exact Hst]].
  cbn in Hc. injection Hc as <-. exact Hsrc.
Defined.

Lemma answered_poll_and_audio_witness :
  let s := run SCANNER_FEEDS [FeedChange 0 1700000000000] (constructor idle_page) in
  let r := Json (Some [a_call (1 # 2) (Time 1699999990000);
                       a_call 5 (Time 1699999991000);
                       a_call 10 (Time 1699999992000)]) in
  (isPlaying s && (false || false) = false ∧
   callQueue (fetchCalls_resume r false false false s) =
     [a_call 5 (Time 1699999991000); a_call 10 (Time 1699999992000)]) ∧
  (failed r = false ∧ isPlaying s && (true || false) = true ∧
   callQueue (fetchCalls_resume r true false false s) =
     [a_call 10 (Time 1699999992000)] ∧
   audio_log (fetchCalls_resume r true false false s) = audio_log s ++ [ALoad; APlay]).
Proof.
  intros s r.
  assert (H1 : isPlaying s && (false || false) = false) by reflexivity.
  assert (H2 : failed r = false) by reflexivity.
  assert (H3 : isPlaying s && (true || false) = true) by reflexivity.
  assert (Hf : currentFeed s = SCANNER_FEEDS !! 0) by reflexivity.
  destruct (answered_poll_and_audio r false false false s) as [Ha _].
  destruct (answered_poll_and_audio r true false false s) as [_ Hb].
  destruct (Ha H1) as (Hq & _).
  pose proof (Hb _ H2 H3 Hf) as Hc.
  split; [split; [exact H1|exact (eq_trans Hq eq_refl)]|].
  split; [exact H2|]. split; [exact H3|]. split; [reflexivity|].
  exact (proj2 (proj2 Hc)).
Defined.

Lemma feed_change_keeps_requests_witness :
  let dallas_call := a_call 5 (Time 1699999991000) in
  let s := run SCANNER_FEEDS [FeedChange 0 1700000000000] (constructor idle_page) in
  let s1 := handle SCANNER_FEEDS (FeedChange 1 1700000003000) s in
  let s2 := handle SCANNER_FEEDS
              (FetchSettled 0 (Json (Some [dallas_call])) true false false) s1 in
  let feeds := SCANNER_FEEDS ++ [a_stream_feed] in
  let t := run feeds [FeedChange 0 1700000000000] (constructor idle_page) in
  let t1 := handle feeds (FeedChange 2 1700000003000) t in
  let t2 := handle feeds
              (FetchSettled 0 (Json (Some [dallas_call])) false false false) t1 in
  ((∃ rq, inflight s !! 0 = Some rq ∧ req_system rq = Some "ntirnd1") ∧
   currentFeed s2 = SCANNER_FEEDS !! 1 ∧
   audio_src s2 = audioUrl dallas_call ∧ callQueue s2 = []) ∧
  ((∃ rq, inflight t !! 0 = Some rq ∧ req_system rq = Some "ntirnd1") ∧
   currentFeed t2 = Some a_stream_feed ∧
   callQueue t2 = [dallas_call] ∧ audio_src t2 = url a_stream_feed).
Proof.
  intros dallas_call s s1 s2 feeds t t1 t2.
  assert (Hi : SCANNER_FEEDS !! 1 = SCANNER_FEEDS !! 1) by reflexivity.
  assert (Hj : feeds !! 2 = Some a_stream_feed) by reflexivity.
  assert (Hr : inflight s !! 0 =
               Some {| req_system := Some "ntirnd1";
                       req_time := Num 1699999880000; awaited := true |})
    by reflexivity.
  assert (Hr' : inflight t !! 0 =
               Some {| req_system := Some "ntirnd1";
                       req_time := Num 1699999880000; awaited := true |})
    by reflexivity.
  destruct (feed_change_keeps_requests SCANNER_FEEDS 1 1700000003000 _ 0 _ s Hi Hr)
    as (_ & _ & _ & _ & H).
  destruct (feed_change_keeps_requests feeds 2 1700000003000 _ 0 _ t Hj Hr')
    as (_ & _ & _ & _ & K).
  destruct (H [dallas_call] true false false) as (Hf & Hidle & _).
  destruct (K [dallas_call] false false false) as (Kf & _ & Kbusy).
  destruct (Kbusy eq_refl) as (Kq & Ks & _).
  pose proof (Hidle eq_refl) as (Hs & Hq & _).
  split.
  - split; [eexists; split; [exact Hr|reflexivity]|].
    split; [exact Hf|]. split; [exact Hs|reflexivity].
  - split; [eexists; split; [exact Hr'|reflexivity]|].
    split; [exact Kf|]. split; [exact Kq|]. exact (eq_trans Ks eq_refl).
Defined.

Lemma play_button_shows_intent_witness :
  let s := run SCANNER_FEEDS
             [FeedChange 0 1700000000000; AudioPause; PlayClick 1700000004000;
              AudioError]
             (constructor idle_page) in
  page_playBtn_playing idle_page = false ∧ playBtn_playing s = isPlaying s.
Proof.
  intros s. split; [reflexivity|].
  exact (play_button_shows_intent SCANNER_FEEDS idle_page _ eq_refl).
Defined.

Lemma calls_play_back_to_back_witness :
  let s := handle SCANNER_FEEDS
             (FetchSettled 0
                (Json (Some [a_call 5 (Time 1699999990000);
                             {| call_url := None; filename := Some "b.m4a";
                                len := 4; time := Time 1699999991000 |};
                             a_call 7 (Time 1699999992000)]))
                true false false)
             (run SCANNER_FEEDS [FeedChange 0 1700000000000] (constructor idle_page)) in
  is_openmhz s && isPlaying s = true ∧
  run SCANNER_FEEDS (replicate 2 AudioEnded) s = playNextCalls 2 s ∧
  length (callQueue s) = 2 ∧ callQueue (playNextCalls 2 s) = [].
Proof.
  intros s.
  assert (H : is_openmhz s && isPlaying s = true) by reflexivity.
  destruct (calls_play_back_to_back SCANNER_FEEDS 2 s) as [Ha _].
  split; [exact H|]. split; [exact (proj1 (Ha H))|]. split; reflexivity.
Defined.

Lemma retry_plays_whatever_the_intent_witness :
  let late := {| call_url := None; filename := Some "late.m4a"; len := 4;
                 time := Time 1700000009000 |} in
  let s := run SCANNER_FEEDS
             [FeedChange 0 1700000000000;
              FetchSettled 0 (Json (Some [a_call 5 (Time 1699999990000)]))
                true false false;
              PollTick 1;
              PlayClick 1700000010000;
              FetchSettled 0 (Json (Some [late])) true false true;
              PlaySettled false]
             (constructor idle_page) in
  let s' := handle SCANNER_FEEDS RetryTimeout s in
  (currentFeed s = SCANNER_FEEDS !! 0 ∧ retryTimeouts s = 1) ∧
  isPlaying s = false ∧ callQueue s = [late] ∧
  isPlaying s' = false ∧ audio_src s' = Some "late.m4a" ∧
  audio_log s' = audio_log s ++ [ALoad; APlay].
Proof.
  intros late s s'.
  assert (Hf : currentFeed s = SCANNER_FEEDS !! 0) by reflexivity.
  assert (Hn : retryTimeouts s = 1) by reflexivity.
  destruct (retry_plays_whatever_the_intent SCANNER_FEEDS s _ 0 Hf Hn)
    as (_ & Hp & _ & _ & H).
  split; [split; [exact Hf|exact Hn]|]. split; [reflexivity|].
  split; [reflexivity|]. split; [exact (eq_trans Hp eq_refl)|].
  exact (conj (proj1 (proj2 H)) (proj1 (proj2 (proj2 H)))).
Defined.

End ScannerMore.

(** ** [AmbientPlayer]: binding, navigation and mode switches *)

Module AmbientMore.
Import AmbientPlayer AmbientFacts.

Section More.
Variable random : nat → nat.

Lemma widget_stays e s : widget s = true → widget (handle random e s) = true.
Proof.
  intros Hw.
  destruct e; cbn [handle];
    repeat (progress
      (unfold onload, initWidget, onReady, onPlaylistLoaded, onPlay, onPause,
         onError, onLoaded, togglePlay, switchMode, updateTrackInfo, setActive,
         setTimeout, send, onSounds, reshuffle, next, prev, fire;
       repeat case_match; cbn; rewrite ?Hw));
    done.
Qed.

Lemma unbound_handle e s : unbound s → unbound (handle random e s).
Proof.
  intros Hs. destruct (widget s) eqn:Hw.
  { intros Hn. by rewrite widget_stays in Hn. }
  destruct (Hs Hw) as (Hi & Hr & Hsent & Hl & Ht & Ho & Hto).
  destruct e; cbn [handle]; rewrite ?Hw; try done.
  - unfold onload, initWidget, setTimeout. rewrite Hi.
    destruct sc_defined; cbn; [done|]. intros _.
    repeat split; try done. apply Forall_app. split; [done|]. by apply Forall_singleton.
  - destruct (timeouts s !! i) as [d|] eqn:Hd; [|done].
    assert (d = InitWidgetAgain) as ->.
    { eapply Forall_lookup_1 in Hto; [|exact Hd]. done. }
    assert (Hto' : Forall (λ d, d = InitWidgetAgain) (delete i (timeouts s)))
      by (by apply Forall_delete).
    cbn [fire]. unfold initWidget, setTimeout.
    destruct sc_defined; cbn; [done|]. intros _.
    repeat split; try done. apply Forall_app. split; [done|]. by apply Forall_singleton.
  - by rewrite Hl.
  - unfold togglePlay. by rewrite Hw.
  - by rewrite next_blocked by auto.
  - by rewrite prev_blocked by auto.
  - unfold switchMode, setActive. case_decide; [done|].
    destruct (isPlaying s || hasBeenPlayed s); cbn; rewrite Hw; done.
Qed.

Lemma unbound_run es s : unbound s → unbound (run random es s).
Proof.
  revert s. induction es as [|e es IH]; intros s Hs; [done|].
  cbn. apply IH. by apply unbound_handle.
Qed.

(** X11: until [initWidget] has found the SoundCloud script and bound the
    widget, no command is sent to a widget: clicks on play, next and prev
    and mode changes leave [sent] empty, the player not ready and without
    tracks, and the volume slider does nothing.  Once bound, the widget
    stays bound. *)
Theorem nothing_sent_before_bound es :
  let s := run random es constructor in
  (widget s = false →
     sent s = [] ∧ ready s = false ∧ trackCount s = 0 ∧ shuffledOrder s = [] ∧
     onVolume s = s) ∧
  (widget s = true → ∀ es', widget (run random es' s) = true).
Proof.
  intros s. split.
  - intros Hw.
    assert (H0 : unbound constructor).
    { intros _. by repeat split. }
    destruct (unbound_run es _ H0 Hw) as (_ & ? & ? & _ & ? & ? & _).
    unfold onVolume. rewrite Hw. done.
  - generalize s. clear s. intros s Hw es'. revert s Hw.
    induction es' as [|e es' IH]; intros s Hw; [done|].
    cbn. apply IH. by apply widget_stays.
Qed.

Lemma js_mod_pred (p n : nat) :
  p < n →
  js_mod (js_add (js_add (Num (Z.of_nat p)) (-1)) (Z.of_nat n)) n =
  Num (Z.of_nat (if decide (p = 0) then n - 1 else p - 1)).
Proof.
  intros Hp. destruct n as [|n']; [lia|].
  unfold js_add, js_mod. f_equal. case_decide as Hd.
  - subst p. rewrite Z.rem_small; lia.
  - replace (Z.of_nat p + -1 + Z.of_nat (S n'))%Z
      with (Z.of_nat (p - 1) + 1 * Z.of_nat (S n'))%Z by lia.
    rewrite Z.rem_mod_nonneg by lia.
    rewrite Z_mod_plus_full. apply Z.mod_small. lia.
Qed.

(** X12: [prev] never reshuffles and steps back with wrap-around; in a
    ready player with the cursor in range, [prev] after [next] returns to
    the same track of the same order unless [next] wrapped, and [next]
    after [prev] returns to it unless the cursor was at 0, where it lands
    on position 0 of a new shuffle. *)
Theorem prev_undoes_next s (p : nat) :
  widget s = true → ready s = true → trackCount s ≠ 0 →
  length (shuffledOrder s) = trackCount s →
  shufflePos s = Num (Z.of_nat p) → p < trackCount s →
  (shuffledOrder (prev s) = shuffledOrder s ∧ draws (prev s) = draws s ∧
   shufflePos (prev s) =
     Num (Z.of_nat (if decide (p = 0) then trackCount s - 1 else p - 1))) ∧
  (S p < trackCount s →
     shufflePos (prev (next random s)) = Num (Z.of_nat p) ∧
     shuffledOrder (prev (next random s)) = shuffledOrder s) ∧
  (0 < p →
     shufflePos (next random (prev s)) = Num (Z.of_nat p) ∧
     shuffledOrder (next random (prev s)) = shuffledOrder s) ∧
  (p = 0 →
     shufflePos (next random (prev s)) = Num 0 ∧
     (shuffledOrder (next random (prev s)), draws (next random (prev s))) =
     shuffleIndices random (trackCount s) (draws s)).
Proof.
  intros Hw Hr Ht Hl Hpos Hp.
  assert (Hprev : ∀ x (q : nat),
    widget x = true → ready x = true → trackCount x = trackCount s →
    length (shuffledOrder x) = trackCount s → shufflePos x = Num (Z.of_nat q) →
    q < trackCount s →
    shuffledOrder (prev x) = shuffledOrder x ∧ draws (prev x) = draws x ∧
    shufflePos (prev x) =
      Num (Z.of_nat (if decide (q = 0) then trackCount s - 1 else q - 1)) ∧
    widget (prev x) = true ∧ ready (prev x) = true ∧
    trackCount (prev x) = trackCount s).
  { intros x q Hwx Hrx Htx Hlx Hpx Hq.
    destruct (prev_fields x Hwx Hrx) as (Hpos' & Ho & Htc & _); [lia|].
    cbn zeta in Hpos'. rewrite Hpx, Hlx, js_mod_pred in Hpos' by done.
    repeat split; try done; try congruence.
    - unfold prev. rewrite Hwx, Hrx.
      replace (trackCount x =? 0) with false by (symmetry; apply Nat.eqb_neq; lia).
      done.
    - unfold prev. rewrite Hwx, Hrx.
      replace (trackCount x =? 0) with false by (symmetry; apply Nat.eqb_neq; lia).
      done.
    - unfold prev. rewrite Hwx, Hrx.
      replace (trackCount x =? 0) with false by (symmetry; apply Nat.eqb_neq; lia).
      done. }
  assert (Hnext : ∀ x (q : nat),
    widget x = true → ready x = true → trackCount x = trackCount s →
    length (shuffledOrder x) = trackCount s → shufflePos x = Num (Z.of_nat q) →
    q < trackCount s →
    shufflePos (next random x) =
      Num (if decide (S q = trackCount s) then 0 else Z.of_nat (S q)) ∧
    (if decide (S q = trackCount s)
     then (shuffledOrder (next random x), draws (next random x)) =
          shuffleIndices random (trackCount s) (draws x)
     else shuffledOrder (next random x) = shuffledOrder x) ∧
    widget (next random x) = true ∧ ready (next random x) = true ∧
    trackCount (next random x) = trackCount s).
  { intros x q Hwx Hrx Htx Hlx Hpx Hq.
    destruct (next_fields random x Hwx Hrx) as (Hpos' & Hre & _ & ? & ? & ?); [lia|].
    cbn zeta in Hpos', Hre. rewrite Hpx, Hlx, js_mod_succ in Hpos', Hre by done.
    split; [done|]. split; [|repeat split; congruence].
    case_decide.
    - cbn in Hre. by rewrite <- Htx.
    - replace (js_is_zero _) with false in Hre
        by (symmetry; cbn; apply Z.eqb_neq; lia).
      apply Hre. }
  destruct (Hprev s p Hw Hr eq_refl Hl Hpos Hp) as (Ho1 & Hd1 & Hp1 & Hw1 & Hr1 & Ht1).
  split; [done|]. split; [|split].
  - intros HSp.
    destruct (Hnext s p Hw Hr eq_refl Hl Hpos Hp) as (Hp2 & Ho2 & Hw2 & Hr2 & Ht2).
    destruct (decide (S p = trackCount s)); [lia|].
    destruct (Hprev (next random s) (S p) Hw2 Hr2 Ht2) as (Ho3 & _ & Hp3 & _);
      [congruence|done|lia|].
    rewrite decide_False in Hp3 by lia.
    split; [rewrite Hp3; do 2 f_equal; lia|congruence].
  - intros H0.
    rewrite decide_False in Hp1 by lia.
    destruct (Hnext (prev s) (p - 1) Hw1 Hr1 Ht1) as (Hp2 & Ho2 & _);
      [congruence|done|lia|].
    destruct (decide (S (p - 1) = trackCount s)); [lia|].
    split; [rewrite Hp2; f_equal; lia|congruence].
  - intros ->. rewrite decide_True in Hp1 by done.
    destruct (Hnext (prev s) (trackCount s - 1) Hw1 Hr1 Ht1) as (Hp2 & Ho2 & _);
      [congruence|done|lia|].
    destruct (decide (S (trackCount s - 1) = trackCount s)); [|lia].
    split; [done|]. by rewrite Ho2, Hd1.
Qed.

(** X13: when the widget reports a playlist without sounds, the callback
    of [getSounds] records zero tracks, ends the switch and sends nothing:
    no skip, no play, no timer; the order and the cursor of the playlist
    before stay. Afterwards [next], [prev] and the skip after a track
    error do nothing. *)
Theorem empty_playlist_blocks_navigation s :
  let s' := onSounds random 0 s in
  trackCount s' = 0 ∧ switching s' = false ∧
  sent s' = sent s ∧ timeouts s' = timeouts s ∧
  shuffledOrder s' = shuffledOrder s ∧ shufflePos s' = shufflePos s ∧
  isPlaying s' = isPlaying s ∧
  next random s' = s' ∧ prev s' = s' ∧
  (∀ sc, fire random ErrorSkip sc s' = s').
Proof.
  cbn zeta.
  assert (Hn : next random (onSounds random 0 s) = onSounds random 0 s)
    by (apply next_blocked; auto).
  assert (Hp : prev (onSounds random 0 s) = onSounds random 0 s)
    by (apply prev_blocked; auto).
  by repeat split.
Qed.

(** X14: [switchMode] to the current mode does nothing.  To another of
    the modes of [MODE_PLAYLISTS], with the widget bound, it marks the
    player not ready and switching, sets [isPlaying] to whether it plays
    or has played, and sends exactly one [load] of the playlist of the
    mode with that value as [auto_play].  Right after it, and as long as
    nothing happens but pause notifications of the widget and clicks on
    play, next and prev, the state does not change, and the volume slider
    does nothing.  When the load callback and then the answer of
    [getSounds] with [n > 0] sounds come next, the player is ready with
    [n] tracks, a fresh permutation, the cursor at 0, and has sent
    setVolume, getSounds and the skip (with a play before and after when
    it should play); the first timer it set ends the switch. *)
Theorem mode_switch_reloads mode url n s :
  widget s = true → mode ≠ currentMode s → MODE_PLAYLISTS !! mode = Some url →
  0 < n →
  let shouldPlay := isPlaying s || hasBeenPlayed s in
  let s1 := switchMode mode s in
  let s3 := run random [Loaded (length (loads s)); Sounds n] s1 in
  switchMode (currentMode s) s = s ∧
  (currentMode s1 = mode ∧ ready s1 = false ∧ switching s1 = true ∧
   isPlaying s1 = shouldPlay ∧
   sent s1 = sent s ++ [Load (Some url) shouldPlay] ∧
   (∀ es, Forall (λ e, inert e = true) es → run random es s1 = s1) ∧
   onVolume s1 = s1) ∧
  (currentMode s3 = mode ∧ ready s3 = true ∧ isPlaying s3 = shouldPlay ∧
   trackCount s3 = n ∧ shufflePos s3 = Num 0 ∧ shuffledOrder s3 ≡ₚ seq 0 n ∧
   sent s3 = sent s1 ++ [SetVolume] ++ (if shouldPlay then [Play] else []) ++
             [GetSounds; Skip (shuffledOrder s3 !! 0)] ++
             (if shouldPlay then [Play] else []) ∧
   timeouts s3 = timeouts s ++
     (if shouldPlay then [LoadedPlaySettle; LoadedPlayAgain] else [LoadedSettle]) ∧
   switching s3 = true ∧
   ∀ sc, switching (handle random (Timeout (length (timeouts s)) sc) s3) = false).
Proof.
  intros Hw Hne Hurl Hn shouldPlay s1 s3.
  split. { unfold switchMode. by rewrite decide_True. }
  assert (Hs1 : currentMode s1 = mode ∧ ready s1 = false ∧ switching s1 = true ∧
                isPlaying s1 = shouldPlay ∧
                sent s1 = sent s ++ [Load (Some url) shouldPlay] ∧
                loads s1 = loads s ++ [shouldPlay] ∧ widget s1 = true ∧
                timeouts s1 = timeouts s ∧ draws s1 = draws s).
  { subst s1 shouldPlay. unfold switchMode, setActive, send.
    rewrite decide_False by done. rewrite Hurl.
    destruct (isPlaying s) eqn:Hp, (hasBeenPlayed s) eqn:Hh; cbn; rewrite Hw; cbn;
      by rewrite ?Hp. }
  destruct Hs1 as (Hm1 & Hr1 & Hsw1 & Hp1 & Hsent1 & Hl1 & Hw1 & Hto1 & Hd1).
  split.
  { repeat split; try done.
    - intros es Hes. induction es as [|e es IH]; [done|].
      apply Forall_cons in Hes as [He Hes]. cbn [run fold_left].
      replace (handle random e s1) with s1; [by apply IH|].
      destruct e; try discriminate; cbn [handle]; rewrite ?Hw1.
      + unfold onPause. by rewrite Hsw1.
      + unfold togglePlay. by rewrite Hw1, Hr1.
      + symmetry. apply next_blocked. auto.
      + symmetry. apply prev_blocked. auto.
    - unfold onVolume. by rewrite Hw1, Hr1. }
  (* the load callback *)
  subst s3. cbn [run fold_left handle].
  rewrite Hl1, lookup_app_r, Nat.sub_diag by done. cbn [lookup list_lookup].
  set (s2 := onLoaded shouldPlay (set_loads (delete (length (loads s)) (loads s ++ [shouldPlay])) s1)).
  assert (Hs2 : widget s2 = true ∧ ready s2 = true ∧ isPlaying s2 = shouldPlay ∧
                currentMode s2 = mode ∧ switching s2 = true ∧
                timeouts s2 = timeouts s ∧
                sent s2 = sent s1 ++ [SetVolume] ++
                          (if shouldPlay then [Play] else []) ++ [GetSounds]).
  { subst s2. unfold onLoaded, onPlaylistLoaded, send.
    destruct shouldPlay; cbn; rewrite <- ?app_assoc; by repeat split. }
  destruct Hs2 as (Hw2 & Hr2 & Hp2 & Hm2 & Hsw2 & Hto2 & Hsent2).
  clearbody s2 s1.
  rewrite Hw2.
  destruct (onSounds_fields random n s2 Hn) as (Hsh & Hpos & Htc & _ & Hr3 & _).
  cbn zeta in *.
  assert (Hs3 : currentMode (onSounds random n s2) = mode ∧
                isPlaying (onSounds random n s2) = shouldPlay ∧
                switching (onSounds random n s2) = true ∧
                sent (onSounds random n s2) =
                  sent s2 ++ [Skip (shuffledOrder (onSounds random n s2) !! 0)] ++
                  (if shouldPlay then [Play] else []) ∧
                timeouts (onSounds random n s2) = timeouts s ++
                  (if shouldPlay then [LoadedPlaySettle; LoadedPlayAgain]
                   else [LoadedSettle])).
  { unfold onSounds, reshuffle, setTimeout, send.
    cbn [trackCount set_trackCount draws].
    replace (0 <? n) with true by (symmetry; by apply Nat.ltb_lt).
    destruct (shuffleIndices random n (draws s2)) as [order k].
    cbn. rewrite Hp2. destruct shouldPlay; cbn;
      rewrite ?Hm2, ?Hsw2, ?Hto2, <- ?app_assoc; by repeat split. }
  destruct Hs3 as (Hm3 & Hp3 & Hsw3 & Hsent3 & Hto3).
  repeat split; try done.
  - congruence.
  - pose proof (f_equal fst Hsh) as E. cbn [fst] in E. rewrite E.
    apply shuffleIndices_Permutation.
  - rewrite Hsent3, Hsent2, <- !app_assoc. done.
  - intros sc. cbn [handle]. rewrite Hto3.
    rewrite lookup_app_r, Nat.sub_diag by done.
    destruct shouldPlay; cbn; unfold updateTrackInfo; by case_match.
Qed.

Lemma delete_last {A} (l : list A) x : delete (length l) (l ++ [x]) = l.
Proof. induction l as [|y l IH]; [done|]. cbn. by f_equal. Qed.

Lemma error_then_timer sc s :
  widget s = true →
  handle random (Timeout (length (timeouts s)) sc) (handle random WidgetError s) =
  next random s.
Proof.
  intros Hw. cbn [handle]. rewrite Hw. unfold onError, setTimeout.
  cbn [timeouts set_timeouts].
  rewrite lookup_app_r, Nat.sub_diag by done. cbn [lookup list_lookup fire].
  rewrite delete_last. destruct s; done.
Qed.

Lemma next_isPlaying s : isPlaying (next random s) = isPlaying s.
Proof.
  unfold next, reshuffle, send, setTimeout. repeat case_match; done.
Qed.

Lemma next_timeouts s :
  widget s = true → ready s = true → trackCount s ≠ 0 →
  timeouts (next random s) = timeouts s ++ [SkipSettle].
Proof.
  intros Hw Hr Ht. unfold next. rewrite Hw, Hr. simpl.
  apply Nat.eqb_neq in Ht. rewrite Ht.
  unfold reshuffle, send, setTimeout. repeat case_match; done.
Qed.

Lemma same_cursor_refl s : same_cursor s s.
Proof. by repeat split. Qed.

Lemma same_cursor_trans s t u : same_cursor s t → same_cursor t u → same_cursor s u.
Proof.
  unfold same_cursor. intros (?&?&?&?&?&?&?&?) (?&?&?&?&?&?&?&?).
  repeat split; congruence.
Qed.

Lemma next_same_cursor s t :
  same_cursor s t → same_cursor (next random s) (next random t).
Proof.
  intros (Hw & Hr & Ht & Hp & Ho & Hd & Hv & Hpl).
  destruct (decide (widget s = true ∧ ready s = true ∧ trackCount s ≠ 0))
    as [(Hws & Hrs & Hts)|Hb].
  - destruct (next_fields random s Hws Hrs Hts) as (S1 & S2 & S3 & S4 & S5 & S6).
    destruct (next_fields random t) as (T1 & T2 & T3 & T4 & T5 & T6);
      [congruence..|].
    cbn zeta in *. rewrite <- Hp, <- Ho, <- Ht, <- Hd, <- Hv in *.
    assert (Hod : shuffledOrder (next random s) = shuffledOrder (next random t) ∧
                  draws (next random s) = draws (next random t)).
    { destruct (js_is_zero _).
      - rewrite <- T2 in S2. by injection S2.
      - destruct S2 as [-> ->], T2 as [-> ->]. done. }
    destruct Hod as [Hod1 Hod2].
    unfold same_cursor. rewrite !next_isPlaying, S1, T1, S3, T3, S4, T4, S5, T5, S6, T6.
    rewrite Hod1. by repeat split.
  - assert (Hs : next random s = s).
    { apply next_blocked. destruct (widget s), (ready s);
        destruct (decide (trackCount s = 0)); auto. exfalso. by apply Hb. }
    assert (Hn : next random t = t).
    { apply next_blocked. rewrite <- Hw, <- Hr, <- Ht.
      destruct (widget s), (ready s);
        destruct (decide (trackCount s = 0)); auto. exfalso. by apply Hb. }
    rewrite Hs, Hn. by repeat split.
Qed.

Lemma trackError_fields sc s :
  widget s = true → ready s = true → trackCount s ≠ 0 →
  same_cursor (trackError random sc s) (next random s) ∧
  timeouts (trackError random sc s) = timeouts s ∧
  sent (trackError random sc s) =
    sent (next random s) ++ [GetCurrentSound] ++
    (if isPlaying s then [Play] else []).
Proof.
  intros Hw Hr Ht. unfold trackError. cbn [run fold_left].
  rewrite error_then_timer by done.
  pose proof (next_timeouts s Hw Hr Ht) as Hto.
  pose proof (next_isPlaying s) as Hp.
  destruct (next_fields random s Hw Hr Ht) as (_ & _ & _ & Hw' & _).
  cbn zeta in Hw'.
  set (t := next random s) in *. clearbody t.
  cbn [handle]. rewrite Hto, lookup_app_r, Nat.sub_diag by done.
  cbn [lookup list_lookup fire]. rewrite delete_last.
  unfold updateTrackInfo, send, same_cursor, visited.
  cbn [widget set_timeouts]. rewrite Hw'. cbn [isPlaying set_sent].
  destruct (isPlaying s) eqn:Hpl; cbn; rewrite Hp; cbn;
    rewrite ?omap_app; cbn; rewrite ?app_nil_r, <- ?app_assoc; by repeat split.
Qed.

Lemma next_iter k s :
  widget s = true → ready s = true → trackCount s ≠ 0 →
  let t := Nat.iter k (next random) s in
  widget t = true ∧ ready t = true ∧ trackCount t = trackCount s ∧
  isPlaying t = isPlaying s ∧
  length (visited t) = length (visited s) + k.
Proof.
  intros Hw Hr Ht. induction k as [|k IH]; cbn zeta.
  { cbn. by rewrite Nat.add_0_r. }
  destruct IH as (Hw' & Hr' & Ht' & Hp' & Hl'). cbn [Nat.iter nat_rect].
  fold (Nat.iter k (next random) s).
  set (t := Nat.iter k (next random) s) in *. clearbody t.
  destruct (next_fields random t Hw' Hr') as (_ & _ & Hv & ? & ? & ?);
    [congruence|].
  cbn zeta in *. rewrite next_isPlaying, Hv, length_app. cbn.
  repeat split; try done; try congruence. lia.
Qed.

(** X15: tracks that cannot be played are skipped one by one, without a
    limit.  On a ready player with tracks, [k] error notifications of the
    widget, each followed by the timer of the listener and the settle
    timer of its [next()], leave the cursor, the order, the random values
    used and the targets of the skips sent exactly as [k] calls of
    [next()] do: one more skip per error, wrapping and reshuffling like
    [next()].  [isPlaying] stays as it was, no timer is left over, and
    each error ends with a request for the current sound and, when
    playing, a play.  (The texts the listener writes are not part of the
    model.) *)
Theorem widget_errors_skip_one_by_one sc k s :
  widget s = true → ready s = true → trackCount s ≠ 0 →
  let s' := trackErrors random sc k s in
  let t := Nat.iter k (next random) s in
  shufflePos s' = shufflePos t ∧ shuffledOrder s' = shuffledOrder t ∧
  draws s' = draws t ∧ visited s' = visited t ∧
  length (visited s') = length (visited s) + k ∧
  isPlaying s' = isPlaying s ∧ ready s' = true ∧ timeouts s' = timeouts s ∧
  sent (trackError random sc s) =
    sent (next random s) ++ [GetCurrentSound] ++
    (if isPlaying s then [Play] else []).
Proof.
  intros Hw Hr Ht s' t.
  assert (E : same_cursor s' t ∧ timeouts s' = timeouts s).
  { subst s' t. unfold trackErrors. induction k as [|k IH].
    { split; [apply same_cursor_refl|done]. }
    cbn [Nat.iter nat_rect]. fold (Nat.iter k (trackError random sc) s).
    fold (Nat.iter k (next random) s).
    destruct IH as [IH1 IH2].
    destruct (next_iter k s Hw Hr Ht) as (Hw' & Hr' & Ht' & _).
    cbn zeta in *.
    set (x := Nat.iter k (trackError random sc) s) in *.
    set (y := Nat.iter k (next random) s) in *. clearbody x y.
    destruct IH1 as (Xw & Xr & Xt & Xrest).
    destruct (trackError_fields sc x) as (F1 & F2 & _); [congruence..|].
    split; [|congruence].
    apply (same_cursor_trans _ (next random x)); [done|].
    apply next_same_cursor. unfold same_cursor. tauto. }
  destruct E as [(Ew & Er & Et & Ep & Eo & Ed & Ev & Epl) Eto].
  destruct (next_iter k s Hw Hr Ht) as (_ & Hr' & _ & Hp' & Hl').
  cbn zeta in *. fold t in Hr', Hp', Hl'.
  destruct (trackError_fields sc s Hw Hr Ht) as (_ & _ & Hsent).
  repeat split; try done; congruence.
Qed.

(** X16: the timers are not guarded by the mode: a settle timer that is
    still pending from an earlier playlist load, firing after a later
    [switchMode] and before the new playlist has loaded, clears
    [switching] while the player is not ready; the widget's pause
    notification, ignored right after [switchMode], then sets [isPlaying]
    to false and takes the playing state of the button, the panel and the
    visualizer down. *)
Theorem stale_settle_ends_suppression mode i d sc s :
  widget s = true → mode ≠ currentMode s →
  timeouts s !! i = Some d → d = LoadedSettle ∨ d = LoadedPlaySettle →
  let s1 := switchMode mode s in
  let s2 := handle random (Timeout i sc) s1 in
  let s3 := handle random WidgetPause s2 in
  switching s1 = true ∧ handle random WidgetPause s1 = s1 ∧
  switching s2 = false ∧ ready s2 = false ∧
  loads s2 = loads s ++ [isPlaying s || hasBeenPlayed s] ∧
  isPlaying s3 = false ∧ playBtn_playing s3 = false ∧
  panel_active s3 = false ∧ viz_active s3 = false.
Proof.
  intros Hw Hne Hi Hd s1 s2 s3.
  assert (Hs1 : ready s1 = false ∧ switching s1 = true ∧
                loads s1 = loads s ++ [isPlaying s || hasBeenPlayed s] ∧
                widget s1 = true ∧ timeouts s1 = timeouts s).
  { subst s1. unfold switchMode, setActive, send.
    rewrite decide_False by done.
    destruct (isPlaying s) eqn:Hp, (hasBeenPlayed s) eqn:Hh; cbn; rewrite Hw; cbn;
      by rewrite ?Hp. }
  destruct Hs1 as (Hr1 & Hsw1 & Hl1 & Hw1 & Hto1).
  assert (Hs2 : switching s2 = false ∧ ready s2 = false ∧
                loads s2 = loads s ++ [isPlaying s || hasBeenPlayed s] ∧
                widget s2 = true).
  { subst s2. cbn [handle]. rewrite Hto1, Hi. clearbody s1.
    destruct Hd as [-> | ->]; cbn [fire]; unfold updateTrackInfo, send; cbn;
      rewrite Hw1; cbn; by rewrite ?Hr1, ?Hl1. }
  destruct Hs2 as (Hsw2 & Hr2 & Hl2 & Hw2).
  split; [done|]. split.
  { cbn [handle]. rewrite Hw1. unfold onPause. by rewrite Hsw1. }
  repeat split; try done; subst s3; cbn [handle]; rewrite Hw2; clearbody s2;
    unfold onPause, setActive; rewrite Hsw2; done.
Qed.

End More.

Lemma nothing_sent_before_bound_witness :
  let random := λ m : nat, m in
  let s := run random
             [ClickPlay; ClickNext; ModeChange "zen"; IframeLoad false;
              Timeout 0 false; ClickPrev]
             constructor in
  let s' := run random
              [ClickPlay; ClickNext; ModeChange "zen"; IframeLoad false;
               Timeout 0 false; ClickPrev; IframeLoad true]
              constructor in
  (widget s = false ∧ sent s = []) ∧
  (widget s' = true ∧
   widget (run random [WidgetReady; Sounds 3; ModeChange "synthwave"] s') = true).
Proof.
  intros random s s'.
  assert (H1 : widget s = false) by reflexivity.
  assert (H2 : widget s' = true) by reflexivity.
  destruct (nothing_sent_before_bound random
              [ClickPlay; ClickNext; ModeChange "zen"; IframeLoad false;
               Timeout 0 false; ClickPrev]) as [Ha _].
  destruct (nothing_sent_before_bound random
              [ClickPlay; ClickNext; ModeChange "zen"; IframeLoad false;
               Timeout 0 false; ClickPrev; IframeLoad true]) as [_ Hb].
  split; [split; [exact H1|exact (proj1 (Ha H1))]|].
  split; [exact H2|].
  exact (Hb H2 [WidgetReady; Sounds 3; ModeChange "synthwave"]).
Defined.

Lemma prev_undoes_next_witness :
  let random := λ m : nat, m in
  let s := run random [IframeLoad true; WidgetReady; Sounds 3] constructor in
  (widget s = true ∧ ready s = true ∧ trackCount s ≠ 0 ∧
   length (shuffledOrder s) = trackCount s ∧ shufflePos s = Num (Z.of_nat 0) ∧
   0 < trackCount s ∧ 1 < trackCount s) ∧
  shufflePos (prev s) = Num 2 ∧
  shufflePos (prev (next random s)) = Num 0 ∧
  shuffledOrder (prev (next random s)) = shuffledOrder s.
Proof.
  intros random s.
  assert (Hw : widget s = true) by reflexivity.
  assert (Hr : ready s = true) by reflexivity.
  assert (Ht : trackCount s ≠ 0) by (vm_compute; discriminate).
  assert (Hl : length (shuffledOrder s) = trackCount s) by reflexivity.
  assert (Hp : shufflePos s = Num (Z.of_nat 0)) by reflexivity.
  assert (H0 : 0 < trackCount s) by (vm_compute; lia).
  assert (H1 : 1 < trackCount s) by (vm_compute; lia).
  destruct (prev_undoes_next random s 0 Hw Hr Ht Hl Hp H0)
    as ((_ & _ & Hprev) & Hpn & _).
  destruct (Hpn H1) as [Ha Hb].
  split; [by repeat split|].
  split; [exact (eq_trans Hprev eq_refl)|]. split; [exact Ha|exact Hb].
Defined.

Lemma mode_switch_reloads_witness :
  let random := λ m : nat, m in
  let url := "https://soundcloud.com/chinosynth/sets/chino-synthwave-selection" in
  let s := run random [IframeLoad true; WidgetReady; Sounds 3; ClickPlay; WidgetPlay]
             constructor in
  let s1 := switchMode "synthwave" s in
  let s3 := run random [Loaded (length (loads s)); Sounds 4] s1 in
  let es := [WidgetPause; ClickNext; ClickPlay; ClickPrev] in
  (widget s = true ∧ "synthwave" ≠ currentMode s ∧
   MODE_PLAYLISTS !! "synthwave" = Some url ∧ 0 < 4 ∧
   Forall (λ e, inert e = true) es) ∧
  sent s1 = sent s ++ [Load (Some url) true] ∧
  run random es s1 = s1 ∧
  isPlaying s3 = true ∧ trackCount s3 = 4 ∧ shuffledOrder s3 ≡ₚ seq 0 4.
Proof.
  intros random url s s1 s3 es.
  assert (Hw : widget s = true) by reflexivity.
  assert (Hm : "synthwave" ≠ currentMode s) by (vm_compute; discriminate).
  assert (Hu : MODE_PLAYLISTS !! "synthwave" = Some url) by reflexivity.
  assert (Hn : 0 < 4) by lia.
  assert (Hes : Forall (λ e, inert e = true) es) by (repeat constructor).
  destruct (mode_switch_reloads random "synthwave" url 4 s Hw Hm Hu Hn)
    as (_ & (_ & _ & _ & _ & Hs & Hi & _) & (_ & _ & Hp & Ht & _ & Ho & _)).
  split; [by repeat split|].
  split; [exact (eq_trans Hs eq_refl)|]. split; [exact (Hi es Hes)|].
  split; [exact (eq_trans Hp eq_refl)|]. split; [exact Ht|exact Ho].
Defined.

Lemma widget_errors_skip_one_by_one_witness :
  let random := λ m : nat, m in
  let s := run random [IframeLoad true; WidgetReady; Sounds 3; Timeout 0 true]
             constructor in
  let s' := trackErrors random true 3 s in
  (widget s = true ∧ ready s = true ∧ trackCount s ≠ 0) ∧
  timeouts s = [] ∧ length (visited s) = 1 ∧
  length (visited s') = 4 ∧
  shufflePos s' = shufflePos (Nat.iter 3 (next random) s) ∧
  isPlaying s' = isPlaying s ∧ timeouts s' = [].
Proof.
  intros random s s'.
  assert (Hw : widget s = true) by reflexivity.
  assert (Hr : ready s = true) by reflexivity.
  assert (Ht : trackCount s ≠ 0) by (vm_compute; discriminate).
  destruct (widget_errors_skip_one_by_one random true 3 s Hw Hr Ht)
    as (Hp & _ & _ & _ & Hl & Hpl & _ & Hto & _).
  split; [by repeat split|]. split; [reflexivity|]. split; [reflexivity|].
  split; [exact (eq_trans Hl eq_refl)|]. split; [exact Hp|].
  split; [exact Hpl|exact (eq_trans Hto eq_refl)].
Defined.

Lemma stale_settle_ends_suppression_witness :
  let random := λ m : nat, m in
  let s := run random [IframeLoad true; WidgetReady; Sounds 3; WidgetPlay]
             constructor in
  let s3 := run random [ModeChange "zen"; Timeout 0 true; WidgetPause] s in
  (widget s = true ∧ "zen" ≠ currentMode s ∧
   timeouts s !! 0 = Some LoadedSettle) ∧
  isPlaying s = true ∧ isPlaying s3 = false ∧ panel_active s3 = false ∧
  loads s3 = [true].
Proof.
  intros random s s3.
  assert (Hw : widget s = true) by reflexivity.
  assert (Hm : "zen" ≠ currentMode s) by (vm_compute; discriminate).
  assert (Ht : timeouts s !! 0 = Some LoadedSettle) by reflexivity.
  destruct (stale_settle_ends_suppression random "zen" 0 LoadedSettle true s
              Hw Hm Ht (or_introl eq_refl))
    as (_ & _ & _ & _ & _ & Hp & _ & Ha & _).
  split; [by repeat split|]. split; [reflexivity|].
  split; [exact Hp|]. split; [exact Ha|reflexivity].
Defined.

End AmbientMore.
